(** * hanabi-agents: the parallel Rainbow DQN agent (rlax_dqn/rlax_rainbow.py)

    A shallow embedding of [DQNPolicy], [DQNLearning] and [DQNAgent].

    Conventions of the embedding.
    - Array entries are exact real numbers ([R]); rounding is not modelled.
      The one special value the source writes itself, [-jnp.inf] for a masked
      q-value, is a constructor of [qval]. Network outputs are finite and a
      temperature is positive; other special values (infinities that arise
      from a division, not-a-number) are outside the embedding.
    - A batch is a list of rows; a 2-d array is a list of rows of equal
      length. Where numpy checks shapes and the check decides a statement
      (the history buffers, [reshape], [hstack]) the check is written out;
      elsewhere arrays have the shapes their producers give them.
    - A random draw is a function of the key: [uniform key maxval i] is entry
      [i] of [jax.random.uniform(key, shape=(batch, 1), maxval=maxval)], a
      number of the half-open interval from [0] (included) to [maxval].
    - An operation that raises returns [None] (the buffer-size hook names
      the exception instead); the state an exception leaves behind is not
      modelled.
    - The collaborators that are not part of the file (network, optimizer,
      automatic differentiation, the rlax sampler and distribution helpers,
      replay buffers, key stream) are variables of the sections of
      [DQNPolicy] and [DQNLearning] and the fields of [DQNAgent.Env]. *)

From Stdlib Require Import Reals Lra Lia List Bool Arith ZArith.
Import ListNotations.

Set Implicit Arguments.

(** ** Array helpers (numpy / jax.numpy on lists) *)

Module Arr.
Local Open Scope R_scope.

(** Element-wise binary operation on two rows of the same length. *)
Definition map2 {A B C : Type} (f : A -> B -> C) (l1 : list A) (l2 : list B)
  : list C :=
  map (fun p => f (fst p) (snd p)) (combine l1 l2).

(** [jnp.sum(x, axis=-1)] on one row. *)
Definition sum (l : list R) : R := fold_right Rplus 0 l.

(** [jnp.mean(x, axis=-1)] on one row: the sum divided by the row length. *)
Definition mean (l : list R) : R := sum l / INR (length l).

(** [jnp.cumsum(x, axis=-1)] on one row. *)
Fixpoint cumsum_from (acc : R) (l : list R) : list R :=
  match l with
  | [] => []
  | x :: t => (acc + x) :: cumsum_from (acc + x) t
  end.

Definition cumsum (l : list R) : list R := cumsum_from 0 l.

(** [jax.ops.index_update(x, jax.ops.index[:, -1], v)] on one row. *)
Definition set_last (l : list R) (v : R) : list R :=
  match l with
  | [] => []
  | _ :: _ => removelast l ++ [v]
  end.

(** [a > b] on floats, as a boolean. *)
Definition gtb (a b : R) : bool := if Rlt_dec b a then true else false.

(** [jnp.argmin] of a boolean row: the first index holding [False]; when
    every entry is [True] the minimum is [True] and its first index is 0. *)
Fixpoint first_false (l : list bool) : option nat :=
  match l with
  | [] => None
  | false :: _ => Some 0%nat
  | true :: t => option_map S (first_false t)
  end.

Definition argmin (l : list bool) : nat :=
  match first_false l with
  | Some i => i
  | None => 0%nat
  end.

(** [jax.nn.softmax(x, axis=-1)] on one row (jax subtracts the row maximum
    before it exponentiates, which leaves the value unchanged). *)
Definition softmax (l : list R) : list R :=
  map (fun x => exp x / sum (map exp l)) l.

(** [jnp.linspace(lo, hi, n)]. *)
Definition linspace (lo hi : R) (n : nat) : list R :=
  map (fun i => lo + INR i * ((hi - lo) / INR (n - 1))) (seq 0 n).

(** A boolean mask entry used as a number. *)
Definition b2r (b : bool) : R := if b then 1 else 0.

End Arr.

(** ** DQNPolicy *)

(** A q-value after masking: [jnp.where(lms, q_vals, -jnp.inf)]. *)
Inductive qval : Type :=
| NegInf : qval
| Fin : R -> qval.

Module DQNPolicy.
Local Open Scope R_scope.
Import Arr.

(** Comparison and maximum on masked values. *)
Definition qle (a b : qval) : bool :=
  match a, b with
  | NegInf, _ => true
  | Fin _, NegInf => false
  | Fin x, Fin y => if Rle_dec x y then true else false
  end.

Definition qmax2 (a b : qval) : qval := if qle a b then b else a.

(** [preferences.max(axis=-1)] on one row. *)
Definition qmax (l : list qval) : qval := fold_right qmax2 NegInf l.

(** [==] on masked values. *)
Definition qeqb (a b : qval) : bool :=
  match a, b with
  | NegInf, NegInf => true
  | Fin x, Fin y => if Req_dec_T x y then true else false
  | _, _ => false
  end.

(** [x / tau] for a temperature [tau > 0]. *)
Definition qdiv (a : qval) (tau : R) : qval :=
  match a with
  | NegInf => NegInf
  | Fin x => Fin (x / tau)
  end.

(** [jnp.exp(w - m)] where [m] is the row maximum of the row [w] is taken
    from. [-inf - -inf] is not a number; that entry is only read when every
    preference of the row is [-inf]. *)
Definition qexp_sub (w m : qval) : R :=
  match w, m with
  | Fin a, Fin b => exp (a - b)
  | _, _ => 0
  end.

(** [_categorical_sample] on one row, [rnd] being the row's uniform draw. *)
Definition categorical_sample_row (rnd : R) (probs : list R) : nat :=
  let cpi := cumsum probs in
  let cpi := set_last cpi 1 in
  argmin (map (gtb rnd) cpi).

(** [_mix_with_legal_uniform] on one row. *)
Definition mix_with_legal_uniform_row (probs : list R) (epsilon : R)
  (legal : list bool) : list R :=
  let num_legal := sum (map b2r legal) in
  let uniform_probs := map (fun b => b2r b / num_legal) legal in
  map2 (fun p u => (1 - epsilon) * p + epsilon * u) probs uniform_probs.

(** [_apply_legal_boltzmann] on one row. *)
Definition apply_legal_boltzmann_row (probs : list qval) (tau : R)
  (legal : list bool) : list R :=
  let weighted_probs := map (fun p => qdiv p tau) probs in
  let m := qmax weighted_probs in
  let boltzmann_probs :=
    map2 (fun (b : bool) w => if b then qexp_sub w m else 0)
         legal weighted_probs in
  map (fun p => p / sum boltzmann_probs) boltzmann_probs.

(** [_argmax_with_random_tie_breaking] on one row. *)
Definition argmax_with_random_tie_breaking_row (preferences : list qval)
  : list R :=
  let m := qmax preferences in
  let optimal_actions := map (fun p => b2r (qeqb p m)) preferences in
  map (fun o => o / sum optimal_actions) optimal_actions.

(** The masking step of both policies, on one row. *)
Definition mask_row (lms : list bool) (q : list R) : list qval :=
  map2 (fun (b : bool) x => if b then Fin x else NegInf) lms q.

Section Policies.

(** Keys and the uniform draw made from a key. *)
Variable Key : Type.
Variable uniform : Key -> R -> nat -> R.

(** Network parameters, observation batches, and the output of
    [network.apply]: batch x actions in scalar mode, batch x actions x atoms
    in distributional mode (the output shape [__init__] builds the network
    with). *)
Variables Params Obs : Type.

Definition NetOut (use_distribution : bool) : Type :=
  if use_distribution then list (list (list R)) else list (list R).

(** Rows of a batch, each with its own draw. *)
Definition with_draws {A : Type} (key : Key) (maxval : R) (rows : list A)
  : list (R * A) :=
  combine (map (uniform key maxval) (seq 0 (length rows))) rows.

Definition _categorical_sample (key : Key) (probs : list (list R))
  : list nat :=
  map (fun p => categorical_sample_row (fst p) (snd p))
      (with_draws key (999 / 1000) probs).

Definition _mix_with_legal_uniform (probs : list (list R)) (epsilon : R)
  (legal : list (list bool)) : list (list R) :=
  map2 (fun p l => mix_with_legal_uniform_row p epsilon l) probs legal.

Definition _apply_legal_boltzmann (probs : list (list qval)) (tau : R)
  (legal : list (list bool)) : list (list R) :=
  map2 (fun p l => apply_legal_boltzmann_row p tau l) probs legal.

Definition _argmax_with_random_tie_breaking (preferences : list (list qval))
  : list (list R) :=
  map argmax_with_random_tie_breaking_row preferences.

(** [legal_epsilon_greedy(epsilon).sample]. *)
Definition legal_epsilon_greedy_sample (epsilon : R) (key : Key)
  (preferences : list (list qval)) (legal : list (list bool)) : list nat :=
  let probs := _argmax_with_random_tie_breaking preferences in
  let probs := _mix_with_legal_uniform probs epsilon legal in
  _categorical_sample key probs.

(** [legal_softmax(tau).sample]. *)
Definition legal_softmax_sample (tau : R) (key : Key)
  (preferences : list (list qval)) (legal : list (list bool)) : list nat :=
  let probs := _apply_legal_boltzmann preferences tau legal in
  _categorical_sample key probs.

(** The q-values both policies compute from the network output: in
    distributional mode [jnp.mean(softmax(logits) * atoms, axis=-1)]. *)
Definition q_values (use_distribution : bool) (atoms : list (list R))
  : NetOut use_distribution -> list (list R) :=
  match use_distribution return NetOut use_distribution -> list (list R) with
  | true => fun logits =>
      map (fun per_action =>
             map2 (fun l z => mean (map2 Rmult (softmax l) z))
                  per_action atoms)
          logits
  | false => fun q => q
  end.

Definition mask (lms : list (list bool)) (q_vals : list (list R))
  : list (list qval) :=
  map2 mask_row lms q_vals.

(** [DQNPolicy.policy]. *)
Definition policy (use_distribution : bool)
  (network : Params -> Key -> Obs -> NetOut use_distribution)
  (use_softmax : bool) (atoms : list (list R)) (net_params : Params)
  (epsilon tau : R) (key : Key) (obs : Obs) (lms : list (list bool))
  : list (list qval) * list nat :=
  let q_vals := q_values use_distribution atoms (network net_params key obs) in
  let q_vals := mask lms q_vals in
  let actions :=
    if use_softmax then legal_softmax_sample tau key q_vals lms
    else legal_epsilon_greedy_sample epsilon key q_vals lms in
  (q_vals, actions).

(** [rlax.greedy().sample]: the sampler of the rlax library. *)
Variable greedy_sample : Key -> list (list qval) -> list nat.

(** [DQNPolicy.eval_policy]. *)
Definition eval_policy (use_distribution : bool)
  (network : Params -> Key -> Obs -> NetOut use_distribution)
  (atoms : list (list R)) (net_params : Params)
  (key : Key) (obs : Obs) (lms : list (list bool)) : list nat :=
  let q_vals := q_values use_distribution atoms (network net_params key obs) in
  let q_vals := mask lms q_vals in
  greedy_sample key q_vals.

End Policies.

(** The expectation of a categorical distribution [probs] over the support
    [support]: the sum over the atoms of probability times atom value. *)
Definition expectation (probs support : list R) : R :=
  sum (map2 Rmult probs support).

End DQNPolicy.

(** ** The rlax temporal-difference errors the learner calls

    [rlax] is a library; its four TD errors are written here by their
    published formulas. Its two helpers for categorical distributions, the
    projection of a distribution onto a support and the cross entropy of a
    target distribution against logits, are variables. *)

Module rlax.
Local Open Scope R_scope.
Import Arr.

(** [jnp.max] of one row. *)
Definition rmax (l : list R) : R :=
  match l with
  | [] => 0
  | x :: t => fold_left Rmax t x
  end.

(** [jnp.argmax] of one row: the first index holding the maximum. *)
Fixpoint argmax (l : list R) : nat :=
  match l with
  | [] => 0%nat
  | x :: t =>
      match t with
      | [] => 0%nat
      | _ :: _ => if Rle_dec (rmax t) x then 0%nat else S (argmax t)
      end
  end.

(** [x[i]] where jax clamps an index past the end to the last entry. *)
Definition index {A : Type} (d : A) (l : list A) (i : nat) : A :=
  nth i l (last l d).

(** [q_learning]: target [r_t + discount_t * max(q_t)]. *)
Definition q_learning_target (r_t discount_t : R) (q_t : list R) : R :=
  r_t + discount_t * rmax q_t.

Definition q_learning (q_tm1 : list R) (a_tm1 : nat) (r_t discount_t : R)
  (q_t : list R) : R :=
  q_learning_target r_t discount_t q_t - index 0 q_tm1 a_tm1.

(** [double_q_learning]: target
    [r_t + discount_t * q_t_value[argmax(q_t_selector)]]. *)
Definition double_q_learning_target (r_t discount_t : R)
  (q_t_value q_t_selector : list R) : R :=
  r_t + discount_t * index 0 q_t_value (argmax q_t_selector).

Definition double_q_learning (q_tm1 : list R) (a_tm1 : nat)
  (r_t discount_t : R) (q_t_value q_t_selector : list R) : R :=
  double_q_learning_target r_t discount_t q_t_value q_t_selector
  - index 0 q_tm1 a_tm1.

(** The support of the categorical target: [r_t + discount_t * q_atoms_t]. *)
Definition categorical_target_z (r_t discount_t : R) (q_atoms_t : list R)
  : list R :=
  map (fun z => r_t + discount_t * z) q_atoms_t.

Section Categorical.

Variable categorical_l2_project : list R -> list R -> list R -> list R.
Variable categorical_cross_entropy : list R -> list R -> R.

(** The error of a categorical target with support [target_z] and
    probabilities [p_target_z] against the logits of the taken action. *)
Definition categorical_error (q_atoms_tm1 : list R)
  (q_logits_tm1 : list (list R)) (a_tm1 : nat)
  (target_z p_target_z : list R) : R :=
  let target := categorical_l2_project target_z p_target_z q_atoms_tm1 in
  let logit_qa_tm1 := index [] q_logits_tm1 a_tm1 in
  categorical_cross_entropy target logit_qa_tm1.

(** The target probabilities: those of the greedy action of the target
    network's own distribution ([categorical_q_learning]) or of the
    selector's greedy action ([categorical_double_q_learning]). *)
Definition greedy_probs (q_atoms_t : list R) (q_logits_t : list (list R))
  : list R :=
  let q_t := map (fun l => sum (map2 Rmult q_atoms_t (softmax l))) q_logits_t in
  softmax (index [] q_logits_t (argmax q_t)).

Definition selected_probs (q_logits_t : list (list R))
  (q_t_selector : list R) : list R :=
  softmax (index [] q_logits_t (argmax q_t_selector)).

Definition categorical_q_learning (q_atoms_tm1 : list R)
  (q_logits_tm1 : list (list R)) (a_tm1 : nat) (r_t discount_t : R)
  (q_atoms_t : list R) (q_logits_t : list (list R)) : R :=
  let target_z := categorical_target_z r_t discount_t q_atoms_t in
  let p_target_z := greedy_probs q_atoms_t q_logits_t in
  categorical_error q_atoms_tm1 q_logits_tm1 a_tm1 target_z p_target_z.

Definition categorical_double_q_learning (q_atoms_tm1 : list R)
  (q_logits_tm1 : list (list R)) (a_tm1 : nat) (r_t discount_t : R)
  (q_atoms_t : list R) (q_logits_t : list (list R))
  (q_t_selector : list R) : R :=
  let target_z := categorical_target_z r_t discount_t q_atoms_t in
  let p_target_z := selected_probs q_logits_t q_t_selector in
  categorical_error q_atoms_tm1 q_logits_tm1 a_tm1 target_z p_target_z.

End Categorical.
End rlax.

(** ** The optimizer

    [custom_adam] chains optax's [scale_by_adam] and nothing else: the
    rescaled gradient comes out without a learning rate or a sign. *)

Module optax.
Local Open Scope R_scope.
Import Arr.

Record ScaleByAdamState : Type := {
  count : nat;
  mu : list R;
  nu : list R
}.

Definition scale_by_adam_init (params : list R) : ScaleByAdamState :=
  {| count := 0; mu := map (fun _ => 0) params;
     nu := map (fun _ => 0) params |}.

Definition scale_by_adam_update (b1 b2 eps eps_root : R) (updates : list R)
  (state : ScaleByAdamState) : list R * ScaleByAdamState :=
  let mu' := map2 (fun g t => (1 - b1) * g + b1 * t) updates state.(mu) in
  let nu' := map2 (fun g t => (1 - b2) * (g * g) + b2 * t) updates state.(nu) in
  let count_inc := S state.(count) in
  let mu_hat := map (fun t => t / (1 - b1 ^ count_inc)) mu' in
  let nu_hat := map (fun t => t / (1 - b2 ^ count_inc)) nu' in
  (map2 (fun m v => m / (sqrt (v + eps_root) + eps)) mu_hat nu_hat,
   {| count := count_inc; mu := mu'; nu := nu' |}).

(** [optax.apply_updates]. *)
Definition apply_updates (params updates : list R) : list R :=
  map2 Rplus params updates.

End optax.

(** [custom_adam(b1, b2, eps, eps_root).update]. *)
Definition custom_adam (b1 b2 eps eps_root : R)
  : list R -> optax.ScaleByAdamState -> list R * optax.ScaleByAdamState :=
  optax.scale_by_adam_update b1 b2 eps eps_root.

(** [apply_lr]. *)
Definition apply_lr {S : Type} (lr : R) (updates : list R) (state : S)
  : list R :=
  map (fun g => (lr * g)%R) updates.

(** ** DQNLearning *)

Module DQNLearning.
Local Open Scope R_scope.
Import Arr.

(** A sampled batch: the [transitions] dictionary of [update_q]. *)
Record Transitions (Obs : Type) : Type := {
  observation_tm1 : Obs;
  action_tm1 : list (list nat);
  reward_t : list (list R);
  observation_t : Obs;
  legal_moves_t : list (list bool);
  terminal_t : list (list bool)
}.

(** [x[:, 0]]. *)
Definition col0 {A : Type} (d : A) (x : list (list A)) : list A :=
  map (fun row => hd d row) x.

(** [term_t.reshape(r_t.shape)] for a batch x 1 array of flags. *)
Definition reshape_flat {A : Type} (x : list (list A)) : list A := concat x.

(** [jnp.where(term_t, 0, discount_t)] with a scalar [discount_t]. *)
Definition terminal_discount (term_t : list bool) (discount_t : R) : list R :=
  map (fun t : bool => if t then 0 else discount_t) term_t.

(** One element of the batch as [jax.vmap] hands it to a TD error:
    the online output, action, reward, discount and target output of the
    sample, and the selector output in the double-Q variants. *)
Record Sample (Out Sel : Type) : Type := {
  s_tm1 : Out;
  s_a : nat;
  s_r : R;
  s_discount : R;
  s_t : Out;
  s_sel : Sel
}.

Fixpoint samples {Out Sel : Type} (q_tm1 : list Out) (a_tm1 : list nat)
  (r_t discount_t : list R) (q_t : list Out) (q_sel : list Sel)
  : list (Sample Out Sel) :=
  match q_tm1, a_tm1, r_t, discount_t, q_t, q_sel with
  | o :: q_tm1, a :: a_tm1, r :: r_t, d :: discount_t, o' :: q_t, s :: q_sel =>
      {| s_tm1 := o; s_a := a; s_r := r; s_discount := d; s_t := o';
         s_sel := s |} :: samples q_tm1 a_tm1 r_t discount_t q_t q_sel
  | _, _, _, _, _, _ => []
  end.

Section Learning.

Variables Key Obs OptState : Type.
Variable use_distribution : bool.
Variable network : list R -> Key -> Obs -> DQNPolicy.NetOut use_distribution.

(** [jax.grad]: the gradient of a scalar function of the parameters. *)
Variable grad : (list R -> R) -> list R -> list R.

(** [optimizer.update]. *)
Variable optimizer_update : list R -> OptState -> list R * OptState.

Variable categorical_l2_project : list R -> list R -> list R -> list R.
Variable categorical_cross_entropy : list R -> list R -> R.

Variables key_online key_target key_selector : Key.
Variable atoms : list (list R).

Section Variants.

(** The arguments the four TD functions share. *)
Variables online_params trg_params : list R.
Variables obs_tm1 obs_t : Obs.
Variable a_tm1 : list nat.
Variable r_t : list R.
Variable term_t : list (list bool).
Variable discount_t : R.

Definition categorical_double_q_td
  (net : list R -> Key -> Obs -> list (list (list R))) : list R :=
  let q_logits_tm1 := net online_params key_online obs_tm1 in
  let q_logits_t := net trg_params key_target obs_t in
  let q_logits_sel := net online_params key_selector obs_t in
  let q_sel :=
    map (fun per_action =>
           map2 (fun l z => mean (map2 Rmult (softmax l) z)) per_action atoms)
        q_logits_sel in
  let term_t := reshape_flat term_t in
  let discount_t := terminal_discount term_t discount_t in
  map (fun s =>
         rlax.categorical_double_q_learning
           categorical_l2_project categorical_cross_entropy
           (nth 0 atoms []) s.(s_tm1) s.(s_a) s.(s_r) s.(s_discount)
           (nth 0 atoms []) s.(s_t) s.(s_sel))
      (samples q_logits_tm1 a_tm1 r_t discount_t q_logits_t q_sel).

Definition categorical_q_td
  (net : list R -> Key -> Obs -> list (list (list R))) : list R :=
  let q_logits_tm1 := net online_params key_online obs_tm1 in
  let q_logits_t := net trg_params key_target obs_t in
  let term_t := reshape_flat term_t in
  let discount_t := terminal_discount term_t discount_t in
  map (fun s =>
         rlax.categorical_q_learning
           categorical_l2_project categorical_cross_entropy
           (nth 0 atoms []) s.(s_tm1) s.(s_a) s.(s_r) s.(s_discount)
           (nth 0 atoms []) s.(s_t))
      (samples q_logits_tm1 a_tm1 r_t discount_t q_logits_t
               (map (fun _ => tt) q_logits_t)).

Definition double_q_td (net : list R -> Key -> Obs -> list (list R))
  : list R :=
  let q_tm1 := net online_params key_online obs_tm1 in
  let q_t := net trg_params key_target obs_t in
  let q_t_selector := net online_params key_selector obs_t in
  let term_t := reshape_flat term_t in
  let discount_t := terminal_discount term_t discount_t in
  let td_errors :=
    map (fun s =>
           rlax.double_q_learning s.(s_tm1) s.(s_a) s.(s_r) s.(s_discount)
                                  s.(s_t) s.(s_sel))
        (samples q_tm1 a_tm1 r_t discount_t q_t q_t_selector) in
  map (fun e => e ^ 2) td_errors.

Definition q_td (net : list R -> Key -> Obs -> list (list R)) : list R :=
  let q_tm1 := net online_params key_online obs_tm1 in
  let q_t := net trg_params key_target obs_t in
  let term_t := reshape_flat term_t in
  let discount_t := terminal_discount term_t discount_t in
  let td_errors :=
    map (fun s =>
           rlax.q_learning s.(s_tm1) s.(s_a) s.(s_r) s.(s_discount) s.(s_t))
        (samples q_tm1 a_tm1 r_t discount_t q_t (map (fun _ => tt) q_t)) in
  map (fun e => e ^ 2) td_errors.

End Variants.

(** The selection of [q_loss_td] inside [loss], applied to its arguments. *)
Definition q_loss_td (use_double_q : bool) (online_params trg_params : list R)
  (obs_tm1 : Obs) (a_tm1 : list nat) (r_t : list R) (obs_t : Obs)
  (term_t : list (list bool)) (discount_t : R) : list R :=
  match use_distribution
        return (list R -> Key -> Obs -> DQNPolicy.NetOut use_distribution)
               -> list R with
  | true => fun net =>
      if use_double_q
      then categorical_double_q_td online_params trg_params obs_tm1 obs_t
             a_tm1 r_t term_t discount_t net
      else categorical_q_td online_params trg_params obs_tm1 obs_t
             a_tm1 r_t term_t discount_t net
  | false => fun net =>
      if use_double_q
      then double_q_td online_params trg_params obs_tm1 obs_t
             a_tm1 r_t term_t discount_t net
      else q_td online_params trg_params obs_tm1 obs_t
             a_tm1 r_t term_t discount_t net
  end network.

(** [loss]: the importance-weighted mean loss and the new priorities. *)
Definition loss (beta_is : R) (use_double_q : bool)
  (online_params trg_params : list R)
  (obs_tm1 : Obs) (a_tm1 : list nat) (r_t : list R) (obs_t : Obs)
  (term_t : list (list bool)) (discount_t : R) (prios : list R)
  : R * list R :=
  let weights_is := map (fun p => Rpower (1 / p) beta_is) prios in
  let weights_is := map (fun w => w / rlax.rmax weights_is) weights_is in
  let batch_loss :=
    q_loss_td use_double_q online_params trg_params obs_tm1 a_tm1 r_t obs_t
              term_t discount_t in
  let mean_loss := mean (map2 Rmult batch_loss weights_is) in
  let new_prios :=
    if use_distribution then map Rabs batch_loss else map sqrt batch_loss in
  (mean_loss, new_prios).

(** [DQNLearning.update_q]. *)
Definition update_q (lr : R) (online_params trg_params : list R)
  (opt_state : OptState) (transitions : Transitions Obs) (discount_t : R)
  (prios : list R) (beta_is : R) (use_double_q : bool)
  : list R * OptState * list R :=
  let loss_at := fun p =>
    loss beta_is use_double_q p trg_params
         transitions.(observation_tm1)
         (col0 0%nat transitions.(action_tm1))
         (col0 0 transitions.(reward_t))
         transitions.(observation_t)
         transitions.(terminal_t)
         discount_t prios in
  let grads := grad (fun p => fst (loss_at p)) online_params in
  let new_prios := snd (loss_at online_params) in
  let '(updates, opt_state_t) := optimizer_update grads opt_state in
  let updates := apply_lr lr updates opt_state in
  let online_params_t := optax.apply_updates online_params updates in
  (online_params_t, opt_state_t, new_prios).

End Learning.

(** The parameter update as the specification words it: the gradient is
    scaled by the learning rate, the scaled gradient goes through the
    optimizer's update rule, and the optimizer's output is added to the
    parameters. *)
Definition scaled_gradient_step {OptState : Type}
  (optimizer_update : list R -> OptState -> list R * OptState)
  (lr : R) (grads online_params : list R) (opt_state : OptState) : list R :=
  optax.apply_updates online_params
    (fst (optimizer_update (apply_lr lr grads opt_state) opt_state)).

End DQNLearning.

(** ** DQNAgent *)

Module DQNAgent.
Import Arr.
Local Open Scope nat_scope.

(** [RlaxRainbowParams] is declared in [params.py], which is not among the
    sources: these are the fields the agent reads, with the types its uses
    give them. [epsilon], [tau] and [beta_is] are schedules of the training
    step: [__init__] wraps a constant into one. *)
Record RlaxRainbowParams : Type := {
  epsilon : nat -> R;
  tau : nat -> R;
  beta_is : nat -> R;
  seed : nat;
  past_obs_size : nat;
  history_size : nat;
  use_distribution : bool;
  use_priority : bool;
  use_double_q : bool;
  use_boltzmann_exploration : bool;
  fixed_weights : bool;
  train_batch_size : nat;
  discount : R;
  target_update_period : nat;
  n_atoms : nat;
  atom_vmax : R
}.

(** The collaborators of the agent: the key stream ([hk.PRNGSequence],
    [jax.random.uniform]), the network ([hk.transform]), [rlax.greedy], the
    differentiation operator ([jax.grad]), the optimizer, the two rlax
    helpers for categorical distributions, and the replay buffers
    ([ExperienceBuffer] and [PriorityBuffer], whose modules are not among
    the sources: a buffer is a value of [Buffer], and each of its methods
    returns the buffer it leaves). *)
Record Env (dist : bool) : Type := {
  Key : Type;
  Rng : Type;
  OptState : Type;
  Buffer : Type;
  prng_sequence : nat -> Rng;
  next_key : Rng -> Key * Rng;
  uniform : Key -> R -> nat -> R;
  network_init : Key -> list (list R) -> list R;
  network_apply : list R -> Key -> list (list R) -> DQNPolicy.NetOut dist;
  greedy_sample : Key -> list (list qval) -> list nat;
  grad : (list R -> R) -> list R -> list R;
  optimizer_init : list R -> OptState;
  optimizer_update : list R -> OptState -> list R * OptState;
  categorical_l2_project : list R -> list R -> list R -> list R;
  categorical_cross_entropy : list R -> list R -> R;
  new_priority_buffer : nat -> nat -> nat -> nat -> R -> Buffer;
  new_experience_buffer : nat -> nat -> nat -> nat -> Buffer;
  add_transitions :
    Buffer -> list (list R) -> list (list nat) -> list (list R) ->
    list (list R) -> list (list bool) -> list (list bool) -> Buffer;
  sample :
    Buffer -> nat -> Buffer * DQNLearning.Transitions (list (list R));
  sample_batch :
    Buffer -> nat ->
    Buffer * (list nat * list R * DQNLearning.Transitions (list (list R)));
  update_priorities : Buffer -> list nat -> list R -> Buffer
}.

(** A 2-d numpy array with its number of columns: the rolling history. *)
Record Array2 : Type := {
  width : nat;
  rows : list (list R)
}.

(** [onp.zeros((n, w))]. *)
Definition zeros (n w : nat) : Array2 :=
  {| width := w; rows := repeat (repeat 0%R w) n |}.

(** [onp.roll(a, -n, axis=0)]: the rows move up by [n], cyclically. *)
Definition roll_up {A : Type} (n : nat) (a : list A) : list A :=
  let k := n mod (length a) in
  skipn k a ++ firstn k a.

(** One row of a value broadcast to [w] columns; [None] when its length is
    neither [w] nor 1. *)
Definition broadcast_row (w : nat) (row : list R) : option (list R) :=
  if length row =? w then Some row
  else match row with
       | [x] => Some (repeat x w)
       | _ => None
       end.

Fixpoint broadcast_cols (w : nat) (v : list (list R))
  : option (list (list R)) :=
  match v with
  | [] => Some []
  | row :: v' =>
      match broadcast_row w row, broadcast_cols w v' with
      | Some r, Some rs => Some (r :: rs)
      | _, _ => None
      end
  end.

(** A value of [length v] rows broadcast to [t] rows; [None] (numpy raises
    [ValueError]) when the shapes do not broadcast. *)
Definition broadcast (t w : nat) (v : list (list R))
  : option (list (list R)) :=
  match broadcast_cols w v with
  | None => None
  | Some v' =>
      if length v' =? t then Some v'
      else match v' with
           | [row] => Some (repeat row t)
           | _ => None
           end
  end.

(** [a[-n:, :] = v]: the slice is the last [n] rows, all rows when [n] is 0
    or exceeds the number of rows. *)
Definition assign_tail (n : nat) (a : Array2) (v : list (list R))
  : option Array2 :=
  let t := if n =? 0 then length a.(rows) else Nat.min n (length a.(rows)) in
  match broadcast t a.(width) v with
  | None => None
  | Some v' =>
      Some {| width := a.(width);
              rows := firstn (length a.(rows) - t) a.(rows) ++ v' |}
  end.

(** The two statements that push a batch into a history buffer. *)
Definition push_history (hist : Array2) (v : list (list R))
  : option Array2 :=
  let n := length v in
  let rolled := {| width := hist.(width); rows := roll_up n hist.(rows) |} in
  assign_tail n rolled v.

(** [n] consecutive chunks of [k] entries. *)
Fixpoint chunks {A : Type} (n k : nat) (l : list A) : list (list A) :=
  match n with
  | 0 => []
  | S n' => firstn k l :: chunks n' k (skipn k l)
  end.

(** [x.reshape(p, l, -1)] of a 2-d array: [None] (numpy raises
    [ValueError]) when the size is not a multiple of [p * l]. *)
Definition reshape3 {A : Type} (p l : nat) (x : list (list A))
  : option (list (list (list A))) :=
  let flat := concat x in
  if (p * l =? 0) then None
  else if (length flat mod (p * l) =? 0) then
    let k := length flat / (p * l) in
    Some (map (chunks l k) (chunks p (l * k) flat))
  else None.

(** [x[:-2]] and [x[-2:]]. *)
Definition but_last_two {A : Type} (l : list A) : list A :=
  firstn (length l - 2) l.

Definition last_two {A : Type} (l : list A) : list A :=
  skipn (length l - 2) l.

(** The loop [for i, subset in enumerate(elem): indices[i].extend(subset)];
    [None] ([IndexError]) when [elem] has more entries than [indices]. *)
Fixpoint extend_each {A : Type} (indices elem : list (list A))
  : option (list (list A)) :=
  match elem, indices with
  | [], _ => Some indices
  | _ :: _, [] => None
  | subset :: elem', ind :: indices' =>
      match extend_each indices' elem' with
      | Some r => Some ((ind ++ subset) :: r)
      | None => None
      end
  end.

Fixpoint extend_all {A : Type} (indices : list (list A))
  (pending : list (list (list A))) : option (list (list A)) :=
  match pending with
  | [] => Some indices
  | elem :: pending' =>
      match extend_each indices elem with
      | Some indices' => extend_all indices' pending'
      | None => None
      end
  end.

(** [onp.hstack] of 2-d arrays: [None] ([ValueError]) on an empty list and
    on arrays whose numbers of rows differ. *)
Definition hstack {A : Type} (arrs : list (list (list A)))
  : option (list (list A)) :=
  match arrs with
  | [] => None
  | m :: rest =>
      if forallb (fun m' => length m' =? length m) rest
      then Some (fold_left (fun acc m' => map2 (@app A) acc m') rest m)
      else None
  end.

(** Python's [x[i*n:(i+1)*n]]. *)
Definition slice {A : Type} (i n : nat) (x : list A) : list A :=
  firstn n (skipn (i * n) x).

(** A list of optional results, all of them or none. *)
Fixpoint all_some {A : Type} (l : list (option A)) : option (list A) :=
  match l with
  | [] => Some []
  | None :: _ => None
  | Some x :: l' =>
      match all_some l' with
      | Some r => Some (x :: r)
      | None => None
      end
  end.

(** [[x] * k for x in l], flattened: the loops of [__init__] that repeat a
    setting [num_unique_parallel] times. *)
Definition replicate_each {A : Type} (k : nat) (l : list A) : list A :=
  flat_map (fun x => repeat x k) l.

Section Agent.

Variable params : RlaxRainbowParams.
Variable env : Env params.(use_distribution).

(** The mutable state of the agent. *)
Record Agent : Type := {
  rng : env.(Rng);
  num_parallel : nat;
  lr : list R;
  online_params : list (list R);
  trg_params : list (list R);
  opt_state : list env.(OptState);
  atoms : list (list R);
  train_step : nat;
  experience : list env.(Buffer);
  past_obs : Array2;
  past_lms : Array2;
  intermediate_indices : list (list (list nat));
  intermediate_tds : list (list (list R))
}.

(** [[next(self.rng) for _ in range(n)]]. *)
Fixpoint draw_keys (n : nat) (g : env.(Rng)) : list env.(Key) * env.(Rng) :=
  match n with
  | 0 => ([], g)
  | S n' =>
      let (k, g') := env.(next_key) g in
      let (ks, g'') := draw_keys n' g' in
      (k :: ks, g'')
  end.

(** [num_unique_parallel]. *)
Definition num_unique_parallel : nat := 1.

(** [DQNAgent.__init__]; [None] when there is no learning rate (the
    vectorised [network.init] raises [ValueError] on an empty array of
    keys), and when [buffersizes] or [alphas] has fewer entries than there
    are members ([IndexError]). *)
Definition init (obs_shape0 obs_shape1 num_values : nat)
  (buffersizes : list nat) (lrs alphas : list R) : option Agent :=
  let g := env.(prng_sequence) params.(seed) in
  let n := num_unique_parallel * length lrs in
  let (rng_init, g) := draw_keys n g in
  let sample_input :=
    repeat (repeat 0%R (obs_shape1 * params.(history_size))) obs_shape0 in
  let trg := map (fun k => env.(network_init) k sample_input) rng_init in
  let online := trg in
  let support :=
    linspace (- params.(atom_vmax)) params.(atom_vmax) params.(n_atoms) in
  let buffersizes' := replicate_each num_unique_parallel buffersizes in
  let lr0 := replicate_each num_unique_parallel lrs in
  let alphas' := replicate_each num_unique_parallel alphas in
  let buffers :=
    all_some
      (map (fun i =>
              if params.(use_priority) then
                match nth_error buffersizes' i, nth_error alphas' i with
                | Some size, Some alpha =>
                    Some (env.(new_priority_buffer)
                            (obs_shape1 * params.(history_size))
                            num_values 1 size alpha)
                | _, _ => None
                end
              else
                match nth_error buffersizes' i with
                | Some size =>
                    Some (env.(new_experience_buffer)
                            (obs_shape1 * params.(history_size))
                            num_values 1 size)
                | None => None
                end)
           (seq 0 n)) in
  if n =? 0 then None
  else
    match buffers with
    | None => None
    | Some buffers =>
        Some {| rng := g;
                num_parallel := n;
                lr := map Ropp lr0;
                online_params := online;
                trg_params := trg;
                opt_state := map env.(optimizer_init) online;
                atoms := repeat support num_values;
                train_step := 0;
                experience := buffers;
                past_obs := zeros params.(past_obs_size) obs_shape1;
                past_lms := zeros params.(past_obs_size) num_values;
                intermediate_indices := [];
                intermediate_tds := [] |}
    end.

(** The agent with new history buffers, and with a new key stream. *)
Definition with_history (a : Agent) (po pl : Array2) : Agent :=
  {| rng := a.(rng); num_parallel := a.(num_parallel); lr := a.(lr);
     online_params := a.(online_params); trg_params := a.(trg_params);
     opt_state := a.(opt_state); atoms := a.(atoms);
     train_step := a.(train_step); experience := a.(experience);
     past_obs := po; past_lms := pl;
     intermediate_indices := a.(intermediate_indices);
     intermediate_tds := a.(intermediate_tds) |}.

Definition with_rng (a : Agent) (g : env.(Rng)) : Agent :=
  {| rng := g; num_parallel := a.(num_parallel); lr := a.(lr);
     online_params := a.(online_params); trg_params := a.(trg_params);
     opt_state := a.(opt_state); atoms := a.(atoms);
     train_step := a.(train_step); experience := a.(experience);
     past_obs := a.(past_obs); past_lms := a.(past_lms);
     intermediate_indices := a.(intermediate_indices);
     intermediate_tds := a.(intermediate_tds) |}.

(** The first four statements of [explore] and of a non-eval [exploit]. *)
Definition record_history (a : Agent)
  (observations : list (list R) * list (list bool)) : option Agent :=
  match push_history a.(past_obs) (fst observations) with
  | None => None
  | Some po =>
      match push_history a.(past_lms) (map (map b2r) (snd observations)) with
      | None => None
      | Some pl => Some (with_history a po pl)
      end
  end.

(** The per-member split of a batch of observations and masks: [None] when
    there is no member ([ZeroDivisionError]) or a reshape fails. *)
Definition split_members (a : Agent)
  (observations : list (list R) * list (list bool))
  : option (list (list (list R)) * list (list (list bool))) :=
  if a.(num_parallel) =? 0 then None
  else
    let obs_len := length (fst observations) / a.(num_parallel) in
    match reshape3 a.(num_parallel) obs_len (fst observations),
          reshape3 a.(num_parallel) obs_len (snd observations) with
    | Some observations_, Some legal_actions =>
        Some (observations_, legal_actions)
    | _, _ => None
    end.

(** [DQNAgent.exploit]. *)
Definition exploit (a : Agent)
  (observations : list (list R) * list (list bool)) (eval : bool)
  : option (list nat * Agent) :=
  match (if eval then Some a else record_history a observations) with
  | None => None
  | Some a =>
      match split_members a observations with
      | None => None
      | Some (observations_, legal_actions) =>
          let (key_rng, g) := draw_keys a.(num_parallel) a.(rng) in
          let actions :=
            map (fun m =>
                   match m with
                   | (net_params, (key, (obs, lms))) =>
                       DQNPolicy.eval_policy env.(greedy_sample)
                         params.(use_distribution) env.(network_apply)
                         a.(atoms) net_params key obs lms
                   end)
                (combine a.(online_params)
                   (combine key_rng (combine observations_ legal_actions))) in
          Some (concat actions, with_rng a g)
      end
  end.

(** [DQNAgent.explore]. *)
Definition explore (a : Agent)
  (observations : list (list R) * list (list bool))
  : option (list nat * Agent) :=
  match record_history a observations with
  | None => None
  | Some a =>
      match split_members a observations with
      | None => None
      | Some (observations_, legal_actions) =>
          let (key_rng, g) := draw_keys a.(num_parallel) a.(rng) in
          let results :=
            map (fun m =>
                   match m with
                   | (net_params, (key, (obs, lms))) =>
                       DQNPolicy.policy env.(uniform)
                         params.(use_distribution) env.(network_apply)
                         params.(use_boltzmann_exploration)
                         a.(atoms) net_params
                         (params.(epsilon) a.(train_step))
                         (params.(tau) a.(train_step)) key obs lms
                   end)
                (combine a.(online_params)
                   (combine key_rng (combine observations_ legal_actions))) in
          Some (concat (map snd results), with_rng a g)
      end
  end.

(** The agent with new buffers. *)
Definition with_experience (a : Agent) (buffers : list env.(Buffer)) : Agent :=
  {| rng := a.(rng); num_parallel := a.(num_parallel); lr := a.(lr);
     online_params := a.(online_params); trg_params := a.(trg_params);
     opt_state := a.(opt_state); atoms := a.(atoms);
     train_step := a.(train_step); experience := buffers;
     past_obs := a.(past_obs); past_lms := a.(past_lms);
     intermediate_indices := a.(intermediate_indices);
     intermediate_tds := a.(intermediate_tds) |}.

(** [DQNAgent.add_experience]: [None] when there is no member
    ([ZeroDivisionError]) or fewer buffers than members ([IndexError]). *)
Definition add_experience (a : Agent)
  (observations_tm1 : list (list R) * list (list bool))
  (actions_tm1 : list (list nat)) (rewards_t : list (list R))
  (observations_t : list (list R) * list (list bool))
  (term_t : list (list bool)) : option Agent :=
  let obs_vec_tm1 := fst observations_tm1 in
  let obs_vec_t := fst observations_t in
  let legal_actions_t := snd observations_t in
  if a.(num_parallel) =? 0 then None
  else
    let obs_len := length obs_vec_tm1 / a.(num_parallel) in
    if length a.(experience) <? a.(num_parallel) then None
    else
      let buffers :=
        map (fun ib =>
               let i := fst ib in
               env.(add_transitions) (snd ib)
                 (slice i obs_len obs_vec_tm1)
                 (slice i obs_len actions_tm1)
                 (slice i obs_len rewards_t)
                 (slice i obs_len obs_vec_t)
                 (slice i obs_len legal_actions_t)
                 (slice i obs_len term_t))
            (combine (seq 0 a.(num_parallel)) a.(experience)) in
      Some (with_experience a
              (buffers ++ skipn a.(num_parallel) a.(experience))).

(** What the sampling loop of [update] collects: the buffers after
    sampling, and per member the sampled indices, the priorities and the
    batch. Uniform sampling reports no indices and all-ones priorities. The
    buffer returns [train_batch_size] priorities, so the reshape of [prios]
    is the identity. *)
Definition sample_member (buffer : env.(Buffer))
  : env.(Buffer)
    * (list nat * list R * DQNLearning.Transitions (list (list R))) :=
  if params.(use_priority) then
    env.(sample_batch) buffer params.(train_batch_size)
  else
    let (buffer', c) := env.(sample) buffer params.(train_batch_size) in
    (buffer', ([], repeat 1%R params.(train_batch_size), c)).

(** [update_q_parallel]: [jax.vmap] of [DQNLearning.update_q] over the
    members. *)
Definition update_q_parallel (a : Agent)
  (transitions : list (DQNLearning.Transitions (list (list R))))
  (prios : list (list R))
  (keys_online keys_target keys_sel : list env.(Key))
  : list (list R * env.(OptState) * list R) :=
  map (fun m =>
         match m with
         | (lr_i, (online_i, (trg_i, (opt_i,
             (tr_i, (prio_i, (k_on, (k_tg, k_sel)))))))) =>
             DQNLearning.update_q params.(use_distribution)
               env.(network_apply) env.(grad) env.(optimizer_update)
               env.(categorical_l2_project) env.(categorical_cross_entropy)
               k_on k_tg k_sel a.(atoms)
               lr_i online_i trg_i opt_i tr_i params.(discount) prio_i
               (params.(beta_is) a.(train_step)) params.(use_double_q)
         end)
      (combine a.(lr)
         (combine a.(online_params)
            (combine a.(trg_params)
               (combine a.(opt_state)
                  (combine transitions
                     (combine prios
                        (combine keys_online
                           (combine keys_target keys_sel)))))))).

(** [DQNAgent.update]: [None] when there is no member ([IndexError] or
    [NameError]), fewer buffers than members ([IndexError]), or a zero
    [target_update_period] ([ZeroDivisionError]). *)
Definition update (a : Agent) : option Agent :=
  if params.(fixed_weights) then Some a
  else
    let n := a.(num_parallel) in
    let (keys_online, g) := draw_keys n a.(rng) in
    let (keys_target, g) := draw_keys n g in
    let (keys_sel, g) := draw_keys n g in
    if (n =? 0) || (length a.(experience) <? n) then None
    else
      let sampled := map sample_member (firstn n a.(experience)) in
      let buffers := map fst sampled ++ skipn n a.(experience) in
      let sample_indices := map (fun s => fst (fst (snd s))) sampled in
      let prios := map (fun s => snd (fst (snd s))) sampled in
      let transitions := map (fun s => snd (snd s)) sampled in
      let results :=
        update_q_parallel a transitions prios
                          keys_online keys_target keys_sel in
      let online' := map (fun r => fst (fst r)) results in
      let opt' := map (fun r => snd (fst r)) results in
      let tds := map (fun r => snd r) results in
      let indices' :=
        if params.(use_priority)
        then a.(intermediate_indices) ++ [sample_indices]
        else a.(intermediate_indices) in
      let tds' :=
        if params.(use_priority)
        then a.(intermediate_tds) ++ [tds]
        else a.(intermediate_tds) in
      if params.(target_update_period) =? 0 then None
      else
        let trg' :=
          if a.(train_step) mod params.(target_update_period) =? 0
          then online' else a.(trg_params) in
        Some {| rng := g; num_parallel := a.(num_parallel); lr := a.(lr);
                online_params := online'; trg_params := trg';
                opt_state := opt'; atoms := a.(atoms);
                train_step := a.(train_step) + 1;
                experience := buffers;
                past_obs := a.(past_obs); past_lms := a.(past_lms);
                intermediate_indices := indices';
                intermediate_tds := tds' |}.

(** [k] calls to [update] in a row. *)
Fixpoint updates (k : nat) (a : Agent) : option Agent :=
  match k with
  | 0 => Some a
  | S k' =>
      match update a with
      | None => None
      | Some a' => updates k' a'
      end
  end.

(** The write-back loop of [update_prio]: buffer [i] receives row [i] of
    the collected indices and of the stacked errors; [None] ([IndexError])
    when a row is missing. *)
Definition write_priorities (indices : list (list nat))
  (tds_np : list (list R)) (buffers : list env.(Buffer))
  : option (list env.(Buffer)) :=
  all_some
    (map (fun ib =>
            match nth_error indices (fst ib), nth_error tds_np (fst ib) with
            | Some ind, Some td =>
                Some (env.(update_priorities) (snd ib) ind td)
            | _, _ => None
            end)
         (combine (seq 0 (length buffers)) buffers)).

(** [DQNAgent.update_prio] (the second definition of that name, which is the
    method of the class). *)
Definition update_prio (a : Agent) : option Agent :=
  if params.(use_priority) then
    match extend_all (repeat [] a.(num_parallel))
                     (but_last_two a.(intermediate_indices)) with
    | None => None
    | Some indices =>
        let tds_list := but_last_two a.(intermediate_tds) in
        match hstack tds_list with
        | None => None
        | Some tds_np =>
            match write_priorities indices tds_np a.(experience) with
            | None => None
            | Some buffers =>
                Some {| rng := a.(rng); num_parallel := a.(num_parallel);
                        lr := a.(lr);
                        online_params := a.(online_params);
                        trg_params := a.(trg_params);
                        opt_state := a.(opt_state); atoms := a.(atoms);
                        train_step := a.(train_step);
                        experience := buffers;
                        past_obs := a.(past_obs); past_lms := a.(past_lms);
                        intermediate_indices :=
                          last_two a.(intermediate_indices);
                        intermediate_tds := last_two a.(intermediate_tds) |}
            end
        end
    end
  else Some a.

(** The agent with the contents of its history buffers blanked: what is
    left of the history is its shape. *)
Definition forget_history (a : Agent) : Agent :=
  with_history a
    (zeros (length a.(past_obs).(rows)) a.(past_obs).(width))
    (zeros (length a.(past_lms).(rows)) a.(past_lms).(width)).


(** What a call that records the history leaves in the two buffers. *)
Definition history_pushed (a a' : Agent)
  (o : list (list R) * list (list bool)) : Prop :=
  push_history a.(past_obs) (fst o) = Some a'.(past_obs)
  /\ push_history a.(past_lms) (map (map b2r) (snd o)) = Some a'.(past_lms).

(** Two outcomes of an operation that agree on what is returned and on
    every field of the successor state but the contents of the history
    buffers; an exception on one side is an exception on the other. *)
Definition same_outcome {T : Type} (x y : option (T * Agent)) : Prop :=
  match x, y with
  | Some (r1, a1), Some (r2, a2) =>
      r1 = r2 /\ forget_history a1 = forget_history a2
  | None, None => True
  | _, _ => False
  end.

Definition same_state (x y : option Agent) : Prop :=
  match x, y with
  | Some a1, Some a2 => forget_history a1 = forget_history a2
  | None, None => True
  | _, _ => False
  end.

End Agent.
End DQNAgent.

(** ** The buffer-size hook of population-based training

    [DQNAgent.change_buffersize] compares [self.buffersize] with a number
    and calls [self.experience.change_size]. [__init__] stores the list
    [buffersizes] it is passed in [self.buffersize] and a list of buffers in
    [self.experience], and no other method assigns either, so whether an
    attribute holds one value or a list is part of the state. The numbers
    the method computes with are a type [Num] whose operations are
    variables; [random.choice] is the input [second] (which of the two
    choices is drawn). The exception a call raises is named. *)

Module Hooks.
Local Open Scope Z_scope.

(** What an attribute holds: one value, or a Python list. *)
Inductive attr (A : Type) : Type :=
| One : A -> attr A
| Many : list A -> attr A.

Inductive exn : Type :=
| TypeError
| AttributeError
| ZeroDivisionError
| ValueError
| OverflowError.

Section ChangeBuffersize.

Variable Buffer : Type.
Variable change_size : Buffer -> Z -> Buffer.

(** Python numbers: the literal [1], [x / y] ([None] is
    [ZeroDivisionError]), [x * y], and [int(x)] with the exception it raises
    on a value that is not finite. *)
Variable Num : Type.
Variable one : Num.
Variable div : Num -> Num -> option Num.
Variable mul : Num -> Num -> Num.
Variable int : Num -> exn + Z.

(** The list [choices] for a numeric [self.buffersize]. *)
Definition choices (buffersize : Z) (buffer_factor : Num)
  : exn + (Num * Num) :=
  if buffersize <=? 512 then inr (buffer_factor, one)
  else if 2 ^ 20 <=? buffersize then
    match div one buffer_factor with
    | None => inl ZeroDivisionError
    | Some q => inr (one, q)
    end
  else
    match div one buffer_factor with
    | None => inl ZeroDivisionError
    | Some q => inr (buffer_factor, q)
    end.

(** [DQNAgent.change_buffersize]: the new [self.buffersize] and the resized
    buffer, or the exception raised. [<=] between a list and a number is a
    [TypeError]; a list has no attribute [change_size]. *)
Definition change_buffersize (buffersize : attr Z) (experience : attr Buffer)
  (buffer_factor buffersize_survivor : Num) (second : bool)
  : exn + (Z * Buffer) :=
  match buffersize with
  | Many _ => inl TypeError
  | One size =>
      match choices size buffer_factor with
      | inl e => inl e
      | inr (c1, c2) =>
          let choice := if second then c2 else c1 in
          match int (mul buffersize_survivor choice) with
          | inl e => inl e
          | inr size' =>
              match experience with
              | Many _ => inl AttributeError
              | One b => inr (size', change_size b size')
              end
          end
      end
  end.

End ChangeBuffersize.

(** What [__init__] leaves in the two attributes: [self.buffersize] is the
    list it was passed, [self.experience] the list of buffers it builds. *)
Definition buffersize_after_init (buffersizes : list nat) : attr Z :=
  Many (map Z.of_nat buffersizes).

Definition experience_of (params : DQNAgent.RlaxRainbowParams)
  (env : DQNAgent.Env params.(DQNAgent.use_distribution))
  (a : DQNAgent.Agent params env) : attr env.(DQNAgent.Buffer) :=
  Many a.(DQNAgent.experience).

End Hooks.

(** ** Concrete collaborators and inputs

    Instances of the section variables at which the operations are
    evaluated, and the predicates the statements below use. *)

Module Concrete.
Local Open Scope R_scope.
Import Arr DQNPolicy.

(** A key stream whose every draw is the lower end of the range, [0.0]. *)
Definition zero_draw : unit -> R -> nat -> R := fun _ _ _ => 0.

(** A key stream whose every draw is [0.5]. *)
Definition half_draw : unit -> R -> nat -> R := fun _ _ _ => 1 / 2.

(** A distributional network of one action and two atoms with logits
    [0, ln 2]: probabilities 1/3 and 2/3. *)
Definition two_atom_net : unit -> unit -> unit -> NetOut true :=
  fun _ _ _ => [[[0; ln 2]]].

(** A scalar network of two actions with outputs [q0] and [q1]. *)
Definition two_action_net (q0 q1 : R) : unit -> unit -> unit -> NetOut false :=
  fun _ _ _ => [[q0; q1]].

(** A mask with exactly one legal action, at index [a]. *)
Definition single_legal (row : list bool) (a : nat) : Prop :=
  exists k, row = repeat false a ++ true :: repeat false k.

(** The distribution that puts all mass on index [a]. *)
Definition onehot (a k : nat) : list R := repeat 0 a ++ 1 :: repeat 0 k.

(** A deterministic greedy sampler: the first index holding the row
    maximum. *)
Fixpoint qargmax (row : list qval) : nat :=
  match row with
  | [] => 0%nat
  | x :: t => if qle (qmax t) x then 0%nat else S (qargmax t)
  end.

Definition greedy_first : unit -> list (list qval) -> list nat :=
  fun _ prefs => map qargmax prefs.

(** A scalar network of one action whose output is [0] for one sample. *)
Definition zero_net : list R -> unit -> unit -> NetOut false :=
  fun _ _ _ => [[0]].

(** A differentiation operator for a loss whose gradient is [g]. *)
Definition const_grad (g : list R) : (list R -> R) -> list R -> list R :=
  fun _ _ => g.

(** An optimizer that hands the gradient through. *)
Definition identity_optimizer : list R -> unit -> list R * unit :=
  fun g s => (g, s).

(** The optimizer [__init__] builds: [custom_adam(eps = 3.125e-5)]. *)
Definition agent_adam
  : list R -> optax.ScaleByAdamState -> list R * optax.ScaleByAdamState :=
  custom_adam (9 / 10) (999 / 1000) (3125 / 100000000) 0.

(** Unused categorical helpers of a scalar configuration. *)
Definition no_project : list R -> list R -> list R -> list R :=
  fun _ _ _ => [].
Definition no_cross_entropy : list R -> list R -> R := fun _ _ => 0.

(** A batch of one transition: action 0, reward [r], terminal flag [t]. *)
Definition one_transition {Obs : Type} (o : Obs) (r : R) (t : bool)
  : DQNLearning.Transitions Obs :=
  {| DQNLearning.observation_tm1 := o;
     DQNLearning.action_tm1 := [[0%nat]];
     DQNLearning.reward_t := [[r]];
     DQNLearning.observation_t := o;
     DQNLearning.legal_moves_t := [[true]];
     DQNLearning.terminal_t := [[t]] |}.

(** A configuration: scalar single-Q learning with prioritized replay and a
    target period of 2. *)
Definition toy_params : DQNAgent.RlaxRainbowParams :=
  {| DQNAgent.epsilon := fun _ => 1 / 10;
     DQNAgent.tau := fun _ => 1;
     DQNAgent.beta_is := fun _ => 1;
     DQNAgent.seed := 0;
     DQNAgent.past_obs_size := 4;
     DQNAgent.history_size := 1;
     DQNAgent.use_distribution := false;
     DQNAgent.use_priority := true;
     DQNAgent.use_double_q := false;
     DQNAgent.use_boltzmann_exploration := false;
     DQNAgent.fixed_weights := false;
     DQNAgent.train_batch_size := 1;
     DQNAgent.discount := 99 / 100;
     DQNAgent.target_update_period := 2;
     DQNAgent.n_atoms := 2;
     DQNAgent.atom_vmax := 1 |}.

(** Collaborators with no state of their own: a network of one parameter,
    a loss of gradient 1, an optimizer that hands the gradient through, and
    buffers that always return the same batch of one transition. *)
Definition toy_env : DQNAgent.Env false :=
  {| DQNAgent.Key := unit;
     DQNAgent.Rng := unit;
     DQNAgent.OptState := unit;
     DQNAgent.Buffer := unit;
     DQNAgent.prng_sequence := fun _ => tt;
     DQNAgent.next_key := fun g => (tt, g);
     DQNAgent.uniform := half_draw;
     DQNAgent.network_init := fun _ _ => [0];
     DQNAgent.network_apply := fun _ _ _ => ([[0]] : NetOut false);
     DQNAgent.greedy_sample := greedy_first;
     DQNAgent.grad := const_grad [1];
     DQNAgent.optimizer_init := fun _ => tt;
     DQNAgent.optimizer_update := identity_optimizer;
     DQNAgent.categorical_l2_project := no_project;
     DQNAgent.categorical_cross_entropy := no_cross_entropy;
     DQNAgent.new_priority_buffer := fun _ _ _ _ _ => tt;
     DQNAgent.new_experience_buffer := fun _ _ _ _ => tt;
     DQNAgent.add_transitions := fun b _ _ _ _ _ _ => b;
     DQNAgent.sample := fun b _ => (b, one_transition [[0]] 0 false);
     DQNAgent.sample_batch :=
       fun b _ => (b, ([0%nat], [1], one_transition [[0]] 0 false));
     DQNAgent.update_priorities := fun b _ _ => b |}.

(** The agent [__init__] builds from one learning rate, 1. *)
Definition toy_agent : option (DQNAgent.Agent toy_params toy_env) :=
  DQNAgent.init toy_params toy_env 1 1 1 [10%nat] [1] [1].

(** An agent of one member with three pending priority batches. *)
Definition pending_agent : DQNAgent.Agent toy_params toy_env :=
  @DQNAgent.Build_Agent toy_params toy_env
    tt 1%nat [-1] [[0]] [[0]] [tt] [[-1; 1]] 3%nat [tt]
    (DQNAgent.zeros 4 1) (DQNAgent.zeros 4 1)
    [[[5%nat]]; [[7%nat]]; [[2%nat]]]
    [[[1 / 2]]; [[1 / 3]]; [[1 / 4]]].

End Concrete.

(** ** The distribution objects of DQNPolicy

    [legal_epsilon_greedy] and [legal_softmax] return a [sample], a [probs],
    a [logprob] and an [entropy] function. [sample] is above; these are
    [probs] and [entropy]. *)

Module Distributions.
Local Open Scope R_scope.
Import Arr DQNPolicy.

(** [legal_epsilon_greedy(epsilon).probs]. *)
Definition legal_epsilon_greedy_probs (epsilon : R)
  (preferences : list (list qval)) (legal : list (list bool))
  : list (list R) :=
  let probs := _argmax_with_random_tie_breaking preferences in
  _mix_with_legal_uniform probs epsilon legal.

(** [legal_softmax(tau).probs]. *)
Definition legal_softmax_probs (tau : R)
  (preferences : list (list qval)) (legal : list (list bool))
  : list (list R) :=
  _apply_legal_boltzmann preferences tau legal.

(** One term of [probs * jnp.log(probs)] under [jnp.nansum]: at [p = 0] the
    product is not a number and [nansum] counts it as zero. *)
Definition plogp (p : R) : R := if Rlt_dec 0 p then p * ln p else 0.

(** [-jnp.nansum(probs * jnp.log(probs), axis=-1)] on one row. *)
Definition entropy_row (probs : list R) : R := - sum (map plogp probs).

(** [legal_epsilon_greedy(epsilon).entropy]. *)
Definition legal_epsilon_greedy_entropy (epsilon : R)
  (preferences : list (list qval)) (legal : list (list bool)) : list R :=
  map entropy_row (legal_epsilon_greedy_probs epsilon preferences legal).

(** [legal_softmax(tau).entropy]. *)
Definition legal_softmax_entropy (tau : R)
  (preferences : list (list qval)) (legal : list (list bool)) : list R :=
  map entropy_row (legal_softmax_probs tau preferences legal).

(** A probability distribution over the actions of one row whose support
    lies inside the legal actions. *)
Definition legal_support (legal : list bool) (probs : list R) : Prop :=
  length probs = length legal
  /\ Forall (fun p => 0 <= p) probs
  /\ sum probs = 1
  /\ forall i, nth i legal true = false -> nth i probs 0 = 0.

(** The q-values the comment above the computation in [policy] and
    [eval_policy] names: for every action the expectation of its
    distribution over its atoms. *)
Definition expected_values (atoms : list (list R))
  (logits : list (list (list R))) : list (list R) :=
  map (fun per_action =>
         map2 (fun l z => expectation (softmax l) z) per_action atoms)
      logits.

(** The number of entries of a row that hold its maximum. *)
Definition count_max (row : list qval) : nat :=
  length (filter (fun x => qeqb x (qmax row)) row).

End Distributions.

(** ** The importance-sampling weights of the loss *)

Module Weights.
Local Open Scope R_scope.
Import Arr.

(** The first two statements of [loss]:
    [weights_is = (1. / prios) ** beta_is] and
    [weights_is /= jnp.max(weights_is)]. *)
Definition importance_weights (beta_is : R) (prios : list R) : list R :=
  let weights_is := map (fun p => Rpower (1 / p) beta_is) prios in
  map (fun w => w / rlax.rmax weights_is) weights_is.

End Weights.

(** ** The shape of a population *)

Module Invariants.
Import DQNAgent.
Local Open Scope nat_scope.

Section Shape.

Variable params : RlaxRainbowParams.
Variable env : Env params.(use_distribution).

(** Every per-member field of the agent has one entry per member, there is
    at least one member, the two pending queues have the same length, and
    every pending entry has one row per member. *)
Definition well_formed (a : Agent params env) : Prop :=
  0 < a.(num_parallel)
  /\ length a.(lr) = a.(num_parallel)
  /\ length a.(online_params) = a.(num_parallel)
  /\ length a.(trg_params) = a.(num_parallel)
  /\ length a.(opt_state) = a.(num_parallel)
  /\ length a.(experience) = a.(num_parallel)
  /\ length a.(intermediate_indices) = length a.(intermediate_tds)
  /\ Forall (fun e => length e = a.(num_parallel)) a.(intermediate_indices)
  /\ Forall (fun m => length m = a.(num_parallel)) a.(intermediate_tds).

(** One cycle of the training pipeline: a learning step followed by the
    deferred priority write-back. *)
Definition cycle (a : Agent params env) : option (Agent params env) :=
  match update a with
  | None => None
  | Some a1 => update_prio a1
  end.

(** One call of a public method that returns. *)
Inductive step (a a' : Agent params env) : Prop :=
| step_explore o r : explore a o = Some (r, a') -> step a a'
| step_exploit o eval r : exploit a o eval = Some (r, a') -> step a a'
| step_add_experience o1 act r o2 t :
    add_experience a o1 act r o2 t = Some a' -> step a a'
| step_update : update a = Some a' -> step a a'
| step_update_prio : update_prio a = Some a' -> step a a'.

(** The states an agent goes through in any sequence of returning calls. *)
Inductive reachable (a0 : Agent params env) : Agent params env -> Prop :=
| reach_here : reachable a0 a0
| reach_step a a' : reachable a0 a -> step a a' -> reachable a0 a'.

End Shape.

(** An agent of one member in the steady state of the pipeline: two pending
    priority batches. *)
Definition steady_agent : Agent Concrete.toy_params Concrete.toy_env :=
  @Build_Agent Concrete.toy_params Concrete.toy_env
    tt 1 [(-1)%R] [[0%R]] [[0%R]] [tt] [[(-1)%R; 1%R]] 2 [tt]
    (zeros 4 1) (zeros 4 1)
    [[[5]]; [[7]]]
    [[[(1 / 2)%R]]; [[(1 / 3)%R]]].

(** Collaborators as in the toy environment, with a network that returns
    the action values 3 and 5 for every observation of the batch. *)
Definition wide_env : Env false :=
  {| Key := unit;
     Rng := unit;
     OptState := unit;
     Buffer := unit;
     prng_sequence := fun _ => tt;
     next_key := fun g => (tt, g);
     uniform := Concrete.half_draw;
     network_init := fun _ _ => [0%R];
     network_apply :=
       fun _ _ obs =>
         (map (fun _ => [3%R; 5%R]) obs : DQNPolicy.NetOut false);
     greedy_sample := Concrete.greedy_first;
     grad := Concrete.const_grad [1%R];
     optimizer_init := fun _ => tt;
     optimizer_update := Concrete.identity_optimizer;
     categorical_l2_project := Concrete.no_project;
     categorical_cross_entropy := Concrete.no_cross_entropy;
     new_priority_buffer := fun _ _ _ _ _ => tt;
     new_experience_buffer := fun _ _ _ _ => tt;
     add_transitions := fun b _ _ _ _ _ _ => b;
     sample := fun b _ => (b, Concrete.one_transition [[0%R]] 0%R false);
     sample_batch :=
       fun b _ => (b, ([0], [1%R], Concrete.one_transition [[0%R]] 0%R false));
     update_priorities := fun b _ _ => b |}.

(** An agent of two members over two actions. *)
Definition pair_agent : Agent Concrete.toy_params wide_env :=
  @Build_Agent Concrete.toy_params wide_env
    tt 2 [(-1)%R; (-1)%R] [[0%R]; [0%R]] [[0%R]; [0%R]] [tt; tt]
    [[(-1)%R; 1%R]; [(-1)%R; 1%R]] 0 [tt; tt]
    (zeros 4 1) (zeros 4 2) [] [].


End Invariants.

(** ** The greedy sampler of the evaluation policy

    [rlax.greedy().sample] is a library function; what the agent relies on
    is that the index it returns for a row holds the row's maximum. *)

Module Greedy.
Import DQNPolicy.
Local Open Scope nat_scope.

Definition picks_maximum (rows : list (list qval)) (actions : list nat)
  : Prop :=
  Forall2 (fun row a => a < length row /\ nth a row NegInf = qmax row)
          rows actions.

End Greedy.

(** ** The scalar TD errors before squaring

    The local variable [td_errors] of [q_td] and of [double_q_td]. *)

Module TDErrors.
Local Open Scope R_scope.
Import DQNLearning.

Section Errors.

Variables Key Obs : Type.
Variable net : list R -> Key -> Obs -> list (list R).
Variables key_online key_target key_selector : Key.
Variables online_params trg_params : list R.
Variables obs_tm1 obs_t : Obs.
Variable a_tm1 : list nat.
Variable r_t : list R.
Variable term_t : list (list bool).
Variable discount_t : R.

Definition q_td_errors : list R :=
  let q_tm1 := net online_params key_online obs_tm1 in
  let q_t := net trg_params key_target obs_t in
  let term_t := reshape_flat term_t in
  let discount_t := terminal_discount term_t discount_t in
  map (fun s =>
         rlax.q_learning s.(s_tm1) s.(s_a) s.(s_r) s.(s_discount) s.(s_t))
      (samples q_tm1 a_tm1 r_t discount_t q_t (map (fun _ => tt) q_t)).

Definition double_q_td_errors : list R :=
  let q_tm1 := net online_params key_online obs_tm1 in
  let q_t := net trg_params key_target obs_t in
  let q_t_selector := net online_params key_selector obs_t in
  let term_t := reshape_flat term_t in
  let discount_t := terminal_discount term_t discount_t in
  map (fun s =>
         rlax.double_q_learning s.(s_tm1) s.(s_a) s.(s_r) s.(s_discount)
                                s.(s_t) s.(s_sel))
      (samples q_tm1 a_tm1 r_t discount_t q_t q_t_selector).

End Errors.
End TDErrors.

(** ** The rule-based agent

    [RulebasedAgent] of [rule_based.py]. A rule is a function of the
    observation that returns a move or Python's [None]. [Ruleset.legal_random]
    and the move vector of the game library are collaborators: the first
    draws from the state of Python's [random] module, the second is a
    container whose [append] may refuse a value. An exception is [None]. *)

Module RuleBased.
Local Open Scope nat_scope.

Section Agent.

Variables Observation Move Rand MoveVector : Type.
Variable current_player_offset : Observation -> Z.
Variable legal_random : Observation -> Rand -> option Move * Rand.
Variable empty_vector : MoveVector.
Variable append : MoveVector -> option Move -> option MoveVector.

Record RulebasedAgent : Type := {
  rules : list (Observation -> option Move);
  totalCalls : nat;
  histogram : list nat
}.

(** [RulebasedAgent.__init__]. *)
Definition init (rules : list (Observation -> option Move))
  : RulebasedAgent :=
  {| rules := rules;
     totalCalls := 0;
     histogram := repeat 0 (length rules + 1) |}.

(** [histogram[index] += 1]; [None] ([IndexError]) past the end. *)
Definition increment (histogram : list nat) (index : nat)
  : option (list nat) :=
  match nth_error histogram index with
  | Some c => Some (firstn index histogram ++ (c + 1)
                      :: skipn (S index) histogram)
  | None => None
  end.

(** The loop over [enumerate(self.rules)], from position [index]: the first
    rule that returns a move, with its position. *)
Fixpoint first_rule (rs : list (Observation -> option Move)) (index : nat)
  (observation : Observation) : option (nat * Move) :=
  match rs with
  | [] => None
  | rule :: rs' =>
      match rule observation with
      | Some action => Some (index, action)
      | None => first_rule rs' (S index) observation
      end
  end.

(** [RulebasedAgent.get_move]: the value returned ([None] inside is Python's
    [None]), the agent and the random state after the call. *)
Definition get_move (a : RulebasedAgent) (observation : Observation)
  (g : Rand) : option (option Move * RulebasedAgent * Rand) :=
  if (current_player_offset observation =? 0)%Z then
    match first_rule a.(rules) 0 observation with
    | Some (index, action) =>
        match increment a.(histogram) index with
        | None => None
        | Some h =>
            Some (Some action,
                  {| rules := a.(rules);
                     totalCalls := a.(totalCalls) + 1;
                     histogram := h |},
                  g)
        end
    | None =>
        match increment a.(histogram) (length a.(histogram) - 1) with
        | None => None
        | Some h =>
            let (move, g') := legal_random observation g in
            Some (move,
                  {| rules := a.(rules);
                     totalCalls := a.(totalCalls) + 1;
                     histogram := h |},
                  g')
        end
    end
  else Some (None, a, g).

(** The loop of [explore], from the vector built so far. *)
Fixpoint explore_from (a : RulebasedAgent) (observations : list Observation)
  (g : Rand) (actions : MoveVector)
  : option (MoveVector * RulebasedAgent * Rand) :=
  match observations with
  | [] => Some (actions, a, g)
  | observation :: rest =>
      match get_move a observation g with
      | None => None
      | Some (move, a', g') =>
          match append actions move with
          | None => None
          | Some actions' => explore_from a' rest g' actions'
          end
      end
  end.

(** [RulebasedAgent.explore] and [RulebasedAgent.exploit]. *)
Definition explore (a : RulebasedAgent) (observations : list Observation)
  (g : Rand) : option (MoveVector * RulebasedAgent * Rand) :=
  explore_from a observations g empty_vector.

Definition exploit (a : RulebasedAgent) (observations : list Observation)
  (g : Rand) : option (MoveVector * RulebasedAgent * Rand) :=
  explore a observations g.

(** The histogram has one bin per rule and one for the random fallback, and
    its bins add up to the number of counted calls. *)
Definition counts_consistent (a : RulebasedAgent) : Prop :=
  length a.(histogram) = length a.(rules) + 1
  /\ list_sum a.(histogram) = a.(totalCalls).

(** The observations of a batch in which the agent is the player to move. *)
Definition to_move (observations : list Observation) : list Observation :=
  filter (fun o => (current_player_offset o =? 0)%Z) observations.

End Agent.

(** An instance: an observation is the player offset itself, a move is a
    number, the random fallback always plays move 0, and the vector is a
    list that takes every value. *)
Definition toy_rules : list (Z -> option nat) :=
  [(fun _ => None); (fun o => Some 7); (fun o => Some 9)].

Definition toy_legal_random : Z -> unit -> option nat * unit :=
  fun _ g => (Some 0, g).

Definition toy_append : list (option nat) -> option nat
                        -> option (list (option nat)) :=
  fun v m => Some (v ++ [m]).

End RuleBased.

(** * Properties *)

Module PolicyProps.
Local Open Scope R_scope.
Import Arr DQNPolicy Concrete.

Lemma softmax_two_atoms : softmax [0; ln 2] = [1 / 3; 2 / 3].
Proof.
  unfold softmax, sum. simpl.
  rewrite exp_0, (exp_ln 2) by lra.
  repeat f_equal; lra.
Qed.

(** C1. With one action, the support [-1, 1] ([linspace(-1, 1, 2)]) and
    logits [0, ln 2], the q-value [policy] returns is 1/6, the mean of the
    products probability x atom, while the expectation of the distribution
    over the support, the sum of those products, is 1/3. *)
Theorem policy_q_value_two_atoms :
  linspace (-1) 1 2 = [-1; 1]
  /\ fst (policy zero_draw true two_atom_net false
                 [[-1; 1]] tt 0 1 tt tt [[true]])
     = [[Fin (1 / 6)]]
  /\ expectation (softmax [0; ln 2]) [-1; 1] = 1 / 3.
Proof.
  split; [|split].
  - unfold linspace. simpl. repeat f_equal; lra.
  - unfold policy, q_values, two_atom_net, mask, mask_row, map2, mean.
    simpl. rewrite exp_0, (exp_ln 2) by lra.
    match goal with
    | |- [[Fin ?x]] = _ => replace x with (1 / 6) by lra
    end.
    reflexivity.
  - rewrite softmax_two_atoms. unfold expectation, map2, sum. simpl. lra.
Qed.

Lemma map2_ext_Forall2 {A B C : Type} (P : A -> B -> Prop)
  (f g : A -> B -> C) (l : list A) (m : list B) :
  Forall2 P l m -> (forall x y, P x y -> f x y = g x y) ->
  map2 f l m = map2 g l m.
Proof.
  intros H Hfg. unfold map2. induction H as [|x y l m Hxy _ IH];
    [reflexivity|].
  simpl. rewrite IH, (Hfg x y Hxy). reflexivity.
Qed.

(** In distributional mode, on logits shaped like the atoms, the q-value of
    every action is the expectation of its softmax distribution over the
    action's atoms divided by the number of atoms. *)
Theorem q_values_expectation_over_atom_count
  (atoms : list (list R)) (logits : list (list (list R))) :
  Forall (fun per_action =>
            Forall2 (fun l z : list R => length l = length z)
                    per_action atoms) logits ->
  q_values true atoms logits
  = map (fun per_action =>
           map2 (fun l z => expectation (softmax l) z / INR (length z))
                per_action atoms)
        logits.
Proof.
  intros H. unfold q_values. apply map_ext_Forall.
  eapply Forall_impl; [|exact H]. intros per_action Hshape.
  apply (@map2_ext_Forall2 _ _ _ _ _ _ _ _ Hshape). intros l z Hlz.
  unfold mean, expectation. f_equal. f_equal.
  unfold map2, softmax.
  rewrite length_map, length_combine, length_map, Hlz.
  apply Nat.min_id.
Qed.

Lemma q_values_expectation_over_atom_count_witness :
  q_values true [[-1; 1]] [[[0; ln 2]]]
  = [[expectation (softmax [0; ln 2]) [-1; 1] / INR 2]].
Proof.
  apply (@q_values_expectation_over_atom_count [[-1; 1]] [[[0; ln 2]]]).
  repeat constructor.
Defined.

(** ** Inverse-CDF sampling *)

Lemma gtb_true (a b : R) : b < a -> gtb a b = true.
Proof. intros H. unfold gtb. destruct (Rlt_dec b a); [reflexivity | lra]. Qed.

Lemma gtb_false (a b : R) : a <= b -> gtb a b = false.
Proof. intros H. unfold gtb. destruct (Rlt_dec b a); [lra | reflexivity]. Qed.

Lemma cumsum_from_length (l : list R) :
  forall acc, length (cumsum_from acc l) = length l.
Proof. induction l as [|x t IH]; intros acc; simpl; [|rewrite IH]; reflexivity. Qed.

Lemma cumsum_from_last (l : list R) :
  forall acc d, l <> [] -> last (cumsum_from acc l) d = acc + sum l.
Proof.
  induction l as [|x t IH]; intros acc d Hne; [congruence|].
  destruct t as [|y t'].
  - simpl. lra.
  - change (last (cumsum_from (acc + x) (y :: t')) d = acc + (x + sum (y :: t'))).
    rewrite IH by discriminate. lra.
Qed.

(** Clamping the last cumulative entry changes nothing when the row sums to
    the clamp value. *)
Lemma set_last_cumsum (l : list R) (acc : R) :
  set_last (cumsum_from acc l) (acc + sum l) = cumsum_from acc l.
Proof.
  destruct l as [|x t]; [reflexivity|].
  assert (Hne : cumsum_from acc (x :: t) <> []) by (simpl; discriminate).
  rewrite (app_removelast_last 0 Hne) at 2.
  rewrite cumsum_from_last by discriminate.
  unfold set_last. simpl cumsum_from. reflexivity.
Qed.

(** The scan stops at an entry of positive mass when the draw lies strictly
    above the mass accumulated so far. *)
Lemma first_false_positive_mass (rnd : R) (l : list R) :
  forall acc,
    Forall (fun p => 0 <= p) l -> acc < rnd -> rnd <= acc + sum l ->
    exists i, first_false (map (gtb rnd) (cumsum_from acc l)) = Some i
              /\ 0 < nth i l 0.
Proof.
  induction l as [|x t IH]; intros acc Hpos Hlo Hhi.
  - simpl in Hhi. lra.
  - inversion Hpos as [|? ? Hx Ht]; subst. simpl in Hhi. simpl.
    destruct (Rlt_dec (acc + x) rnd) as [Hgt|Hle].
    + rewrite gtb_true by assumption.
      destruct (IH (acc + x) Ht Hgt) as [i [Hi Hm]]; [lra|].
      exists (S i). rewrite Hi. split; [reflexivity | exact Hm].
    + rewrite gtb_false by lra. exists 0%nat. split; [reflexivity | simpl; lra].
Qed.

(** C6. A row of probabilities [0, 1] is well formed, and with the draw
    [0.0], the lower end of the range of the uniform draw,
    [_categorical_sample] returns index 0, whose probability is zero. *)
Theorem categorical_sample_zero_draw :
  Forall (fun p => 0 <= p) [0; 1] /\ sum [0; 1] = 1
  /\ _categorical_sample zero_draw tt [[0; 1]] = [0%nat]
  /\ nth 0 [0; 1] 1 = 0.
Proof.
  repeat split.
  - repeat constructor; lra.
  - unfold sum. simpl. lra.
  - unfold _categorical_sample, with_draws, categorical_sample_row, zero_draw.
    simpl. rewrite gtb_false by lra. reflexivity.
Qed.

(** For a draw strictly above zero the sampled index always has positive
    probability: the row is non-negative and sums to one, the last cumulative
    entry is clamped to one, and the draw is below one. *)
Theorem categorical_sample_row_positive_draw (rnd : R) (probs : list R) :
  Forall (fun p => 0 <= p) probs -> sum probs = 1 -> 0 < rnd -> rnd < 1 ->
  0 < nth (categorical_sample_row rnd probs) probs 0.
Proof.
  intros Hpos Hsum Hlo Hhi.
  unfold categorical_sample_row, cumsum.
  replace 1 with (0 + sum probs) by lra.
  rewrite set_last_cumsum.
  destruct (@first_false_positive_mass rnd probs 0 Hpos Hlo) as [i [Hi Hm]];
    [lra|].
  unfold argmin. rewrite Hi. exact Hm.
Qed.

Lemma categorical_sample_row_positive_draw_witness :
  0 < nth (categorical_sample_row (1 / 2) [0; 1]) [0; 1] 0.
Proof.
  apply categorical_sample_row_positive_draw.
  - repeat constructor; lra.
  - unfold sum. simpl. lra.
  - lra.
  - lra.
Defined.

(** ** One legal action *)

(** C7. With the legal mask [False, True], whose one legal action is 1, and
    the draw [0.0], [policy] returns action 0: under epsilon-greedy for every
    epsilon and all network outputs, and under Boltzmann exploration at
    temperature 1. *)
Theorem policy_single_legal_zero_draw (epsilon tau q0 q1 : R) :
  snd (policy zero_draw false (two_action_net q0 q1) false [] tt
              epsilon tau tt tt [[false; true]]) = [0%nat]
  /\ snd (policy zero_draw false (two_action_net q0 q1) true [] tt
                 epsilon 1 tt tt [[false; true]]) = [0%nat].
Proof.
  split.
  - unfold policy, legal_epsilon_greedy_sample, _categorical_sample,
      with_draws, categorical_sample_row, zero_draw. simpl.
    rewrite gtb_false; [reflexivity|].
    destruct (Req_dec_T q1 q1); simpl; lra.
  - unfold policy, legal_softmax_sample, _categorical_sample,
      with_draws, categorical_sample_row, zero_draw. simpl.
    rewrite gtb_false; [reflexivity|].
    lra.
Qed.

Lemma map2_cons {A B C : Type} (f : A -> B -> C) a b l m :
  map2 f (a :: l) (b :: m) = f a b :: map2 f l m.
Proof. reflexivity. Qed.

Lemma mask_row_single (a k : nat) (q : list R) :
  length q = (a + S k)%nat ->
  exists x, mask_row (repeat false a ++ true :: repeat false k) q
            = repeat NegInf a ++ Fin x :: repeat NegInf k.
Proof.
  revert q. induction a as [|a IH]; intros q Hlen.
  - destruct q as [|x q]; [discriminate|]. exists x.
    simpl in Hlen. injection Hlen as Hlen.
    unfold mask_row. simpl repeat. simpl app. rewrite map2_cons. f_equal.
    revert q Hlen. induction k as [|k IHk]; intros q Hlen.
    + destruct q; [reflexivity | discriminate].
    + destruct q as [|y q]; [discriminate|]. simpl repeat.
      rewrite map2_cons. f_equal. apply IHk. simpl in Hlen. lia.
  - destruct q as [|y q]; [discriminate|].
    simpl in Hlen. injection Hlen as Hlen.
    destruct (IH q Hlen) as [x Hx]. exists x.
    unfold mask_row in *. simpl repeat. simpl app. rewrite map2_cons.
    rewrite Hx. reflexivity.
Qed.

Lemma qmax_repeat_neginf (k : nat) : qmax (repeat NegInf k) = NegInf.
Proof. induction k as [|k IH]; simpl; [|rewrite IH]; reflexivity. Qed.

Lemma qmax_single (a k : nat) (x : R) :
  qmax (repeat NegInf a ++ Fin x :: repeat NegInf k) = Fin x.
Proof.
  induction a as [|a IH].
  - simpl. rewrite qmax_repeat_neginf. reflexivity.
  - change (qmax2 NegInf (qmax (repeat NegInf a ++ Fin x :: repeat NegInf k))
            = Fin x).
    rewrite IH. reflexivity.
Qed.

Lemma sum_app (l m : list R) : sum (l ++ m) = sum l + sum m.
Proof. induction l as [|x l IH]; simpl; [|rewrite IH]; lra. Qed.

Lemma sum_repeat_zero (k : nat) : sum (repeat 0 k) = 0.
Proof. induction k as [|k IH]; simpl; [|rewrite IH]; lra. Qed.

Lemma sum_onehot (a k : nat) : sum (onehot a k) = 1.
Proof.
  unfold onehot. rewrite sum_app. simpl.
  rewrite !sum_repeat_zero. lra.
Qed.

Lemma map_repeat {A B : Type} (f : A -> B) (x : A) (n : nat) :
  map f (repeat x n) = repeat (f x) n.
Proof. induction n as [|n IH]; simpl; [|rewrite IH]; reflexivity. Qed.

Lemma qeqb_refl (x : R) : qeqb (Fin x) (Fin x) = true.
Proof. simpl. destruct (Req_dec_T x x); [reflexivity | contradiction]. Qed.

(** Greedy probabilities of a row with one finite preference. *)
Lemma argmax_single (a k : nat) (x : R) :
  argmax_with_random_tie_breaking_row
    (repeat NegInf a ++ Fin x :: repeat NegInf k) = onehot a k.
Proof.
  unfold argmax_with_random_tie_breaking_row.
  rewrite qmax_single.
  rewrite map_app, map_cons, !map_repeat, qeqb_refl.
  change (b2r (qeqb NegInf (Fin x))) with 0. change (b2r true) with 1.
  change (repeat 0 a ++ 1 :: repeat 0 k) with (onehot a k).
  rewrite sum_onehot. unfold onehot.
  rewrite map_app. simpl map. rewrite !map_repeat.
  replace (0 / 1) with 0 by lra. replace (1 / 1) with 1 by lra.
  reflexivity.
Qed.

Lemma map2_app {A B C : Type} (f : A -> B -> C) l1 l2 m1 m2 :
  length l1 = length m1 ->
  map2 f (l1 ++ l2) (m1 ++ m2) = map2 f l1 m1 ++ map2 f l2 m2.
Proof.
  revert m1. induction l1 as [|x l1 IH]; intros [|y m1] Hlen;
    try discriminate; [reflexivity|].
  simpl app. rewrite !map2_cons. simpl. f_equal. apply IH.
  simpl in Hlen. lia.
Qed.

Lemma map2_repeat {A B C : Type} (f : A -> B -> C) x y n :
  map2 f (repeat x n) (repeat y n) = repeat (f x y) n.
Proof.
  induction n as [|n IH]; [reflexivity|].
  simpl repeat. rewrite map2_cons, IH. reflexivity.
Qed.

(** Mixing the one-hot distribution with the uniform distribution over the
    one legal action leaves it unchanged, for every epsilon. *)
Lemma mix_single (a k : nat) (epsilon : R) :
  mix_with_legal_uniform_row (onehot a k) epsilon
    (repeat false a ++ true :: repeat false k) = onehot a k.
Proof.
  unfold mix_with_legal_uniform_row.
  rewrite !map_app. simpl map. rewrite !map_repeat. simpl b2r.
  change (repeat 0 a ++ 1 :: repeat 0 k) with (onehot a k).
  rewrite sum_onehot. unfold onehot.
  rewrite map2_app by (rewrite !repeat_length; reflexivity).
  change (1 :: repeat 0 k) with ([1] ++ repeat 0 k).
  change (1 / 1 :: repeat (0 / 1) k) with ([1 / 1] ++ repeat (0 / 1) k).
  rewrite (@map2_app _ _ _ _ [1] (repeat 0 k) [1 / 1]) by reflexivity.
  rewrite !map2_repeat. unfold map2 at 1. simpl.
  replace ((1 - epsilon) * 0 + epsilon * (0 / 1)) with 0 by lra.
  replace ((1 - epsilon) * 1 + epsilon * (1 / 1)) with 1 by lra.
  reflexivity.
Qed.

(** The Boltzmann distribution of a row with one legal action, for a
    positive temperature. *)
Lemma boltzmann_single (a k : nat) (x tau : R) :
  apply_legal_boltzmann_row (repeat NegInf a ++ Fin x :: repeat NegInf k) tau
    (repeat false a ++ true :: repeat false k) = onehot a k.
Proof.
  unfold apply_legal_boltzmann_row.
  rewrite !map_app. simpl map. rewrite !map_repeat. simpl qdiv.
  rewrite qmax_single.
  rewrite map2_app by (rewrite !repeat_length; reflexivity).
  change (true :: repeat false k) with ([true] ++ repeat false k).
  change (Fin (x / tau) :: repeat NegInf k)
    with ([Fin (x / tau)] ++ repeat NegInf k).
  rewrite (@map2_app _ _ _ _ [true] (repeat false k) [Fin (x / tau)])
    by reflexivity.
  rewrite !map2_repeat. unfold map2 at 1. simpl.
  replace (x / tau - x / tau) with 0 by lra. rewrite exp_0.
  change (repeat 0 a ++ 1 :: repeat 0 k) with (onehot a k).
  rewrite sum_onehot. unfold onehot.
  rewrite map_app. simpl map. rewrite !map_repeat.
  replace (0 / 1) with 0 by lra. replace (1 / 1) with 1 by lra.
  reflexivity.
Qed.

Lemma cumsum_from_repeat_zero (n : nat) (acc : R) (l : list R) :
  cumsum_from acc (repeat 0 n ++ l) = repeat acc n ++ cumsum_from acc l.
Proof.
  induction n as [|n IH]; [reflexivity|].
  simpl. replace (acc + 0) with acc by lra. rewrite IH. reflexivity.
Qed.

Lemma first_false_repeat_true (a : nat) (l : list bool) :
  first_false (repeat true a ++ false :: l) = Some a.
Proof.
  induction a as [|a IH]; [reflexivity|].
  simpl. rewrite IH. reflexivity.
Qed.

(** Sampling from a one-hot row returns its index for every draw strictly
    between zero and one. *)
Lemma categorical_sample_onehot (a k : nat) (rnd : R) :
  0 < rnd -> rnd < 1 -> categorical_sample_row rnd (onehot a k) = a.
Proof.
  intros Hlo Hhi. unfold categorical_sample_row, cumsum.
  assert (E : set_last (cumsum_from 0 (onehot a k)) 1
              = cumsum_from 0 (onehot a k)).
  { rewrite <- (set_last_cumsum (onehot a k) 0) at 2.
    rewrite sum_onehot. f_equal. lra. }
  rewrite E. unfold onehot.
  rewrite cumsum_from_repeat_zero, map_app, map_repeat.
  rewrite (@gtb_true rnd 0) by lra.
  change (cumsum_from 0 (1 :: repeat 0 k))
    with ((0 + 1) :: cumsum_from (0 + 1) (repeat 0 k)).
  rewrite map_cons, (@gtb_false rnd (0 + 1)) by lra.
  unfold argmin. rewrite first_false_repeat_true. reflexivity.
Qed.

Lemma single_legal_length (row : list bool) (a : nat) :
  single_legal row a -> exists k, row = repeat false a ++ true :: repeat false k
                                  /\ length row = (a + S k)%nat.
Proof.
  intros [k Hk]. exists k. split; [exact Hk|].
  rewrite Hk, length_app. simpl. rewrite !repeat_length. reflexivity.
Qed.

(** Row by row, sampling from one-hot rows returns their indices when every
    draw lies strictly between zero and one. *)
Lemma sample_rows_onehot (u : nat -> R) :
  (forall i, 0 < u i < 1) ->
  forall probs idx,
    Forall2 (fun p a => exists k, p = onehot a k) probs idx ->
    forall s,
      map (fun p => categorical_sample_row (fst p) (snd p))
          (combine (map u (seq s (length probs))) probs) = idx.
Proof.
  intros Hu probs idx H. induction H as [|p a probs idx [k Hk] _ IH]; intros s.
  - reflexivity.
  - simpl. rewrite IH. subst p.
    rewrite categorical_sample_onehot by apply Hu. reflexivity.
Qed.

Lemma epsilon_greedy_rows_onehot (epsilon : R) :
  forall lms idx, Forall2 single_legal lms idx ->
  forall qs, Forall2 (fun (row : list bool) (q : list R) =>
                        length q = length row) lms qs ->
  Forall2 (fun p a => exists k, p = onehot a k)
    (map2 (fun p l => mix_with_legal_uniform_row p epsilon l)
          (map argmax_with_random_tie_breaking_row (map2 mask_row lms qs))
          lms)
    idx.
Proof.
  intros lms idx H. induction H as [|row a lms idx Hrow _ IH]; intros qs Hq.
  - constructor.
  - inversion Hq as [|? q ? qs' Hlen Hq']; subst.
    rewrite map2_cons. simpl map. rewrite map2_cons.
    constructor; [|apply IH; assumption].
    destruct (single_legal_length Hrow) as [k [Hk Hl]]. exists k. subst row.
    destruct (@mask_row_single a k q) as [x Hx]; [congruence|].
    rewrite Hx, argmax_single, mix_single. reflexivity.
Qed.

Lemma boltzmann_rows_onehot (tau : R) :
  forall lms idx, Forall2 single_legal lms idx ->
  forall qs, Forall2 (fun (row : list bool) (q : list R) =>
                        length q = length row) lms qs ->
  Forall2 (fun p a => exists k, p = onehot a k)
    (map2 (fun p l => apply_legal_boltzmann_row p tau l)
          (map2 mask_row lms qs) lms)
    idx.
Proof.
  intros lms idx H. induction H as [|row a lms idx Hrow _ IH]; intros qs Hq.
  - constructor.
  - inversion Hq as [|? q ? qs' Hlen Hq']; subst.
    rewrite !map2_cons.
    constructor; [|apply IH; assumption].
    destruct (single_legal_length Hrow) as [k [Hk Hl]]. exists k. subst row.
    destruct (@mask_row_single a k q) as [x Hx]; [congruence|].
    rewrite Hx, boltzmann_single. reflexivity.
Qed.

(** [policy] returns the one legal action of every row, under epsilon-greedy
    for every epsilon and under Boltzmann exploration for every positive
    temperature, in scalar and in distributional mode, provided every draw
    of the key is strictly positive. *)
Theorem policy_single_legal_positive_draw
  (Key Params Obs : Type) (uniform : Key -> R -> nat -> R)
  (use_distribution : bool)
  (network : Params -> Key -> Obs -> NetOut use_distribution)
  (use_softmax : bool) (atoms : list (list R)) (net_params : Params)
  (epsilon tau : R) (key : Key) (obs : Obs) (lms : list (list bool))
  (idx : list nat) :
  (forall i, 0 < uniform key (999 / 1000) i < 999 / 1000) ->
  0 < tau ->
  Forall2 single_legal lms idx ->
  Forall2 (fun (row : list bool) (q : list R) => length q = length row) lms
          (q_values use_distribution atoms (network net_params key obs)) ->
  snd (policy uniform use_distribution network use_softmax atoms net_params
              epsilon tau key obs lms) = idx.
Proof.
  intros Hu _ Hlegal Hshape.
  assert (Hu' : forall i, 0 < uniform key (999 / 1000) i < 1)
    by (intros i; specialize (Hu i); lra).
  unfold policy. simpl snd. destruct use_softmax.
  - unfold legal_softmax_sample, _categorical_sample, with_draws,
      _apply_legal_boltzmann, mask.
    apply sample_rows_onehot; [exact Hu'|].
    apply boltzmann_rows_onehot; assumption.
  - unfold legal_epsilon_greedy_sample, _categorical_sample, with_draws,
      _mix_with_legal_uniform, _argmax_with_random_tie_breaking, mask.
    apply sample_rows_onehot; [exact Hu'|].
    apply epsilon_greedy_rows_onehot; assumption.
Qed.

Lemma policy_single_legal_positive_draw_witness :
  snd (policy half_draw false (two_action_net 3 5) false [] tt
              (1 / 10) 1 tt tt [[false; true]]) = [1%nat].
Proof.
  apply policy_single_legal_positive_draw.
  - intros i. unfold half_draw. lra.
  - lra.
  - constructor; [exists 0%nat; reflexivity | constructor].
  - simpl. constructor; [reflexivity | constructor].
Defined.

Lemma nth_single (a k i : nat) (x : R) :
  nth i (repeat NegInf a ++ Fin x :: repeat NegInf k) NegInf = Fin x -> i = a.
Proof.
  intros H. destruct (Nat.lt_trichotomy i a) as [Hlt|[Heq|Hgt]].
  - rewrite app_nth1 in H by (rewrite repeat_length; exact Hlt).
    rewrite nth_repeat in H. discriminate.
  - exact Heq.
  - rewrite app_nth2 in H by (rewrite repeat_length; lia).
    rewrite repeat_length in H.
    destruct (i - a)%nat as [|j] eqn:E; [lia|].
    simpl in H. rewrite nth_repeat in H. discriminate.
Qed.

(** [eval_policy] returns the one legal action of every row, for a greedy
    sampler that returns, for every row, an index holding the row maximum. *)
Theorem eval_policy_single_legal
  (Key Params Obs : Type)
  (greedy_sample : Key -> list (list qval) -> list nat)
  (use_distribution : bool)
  (network : Params -> Key -> Obs -> NetOut use_distribution)
  (atoms : list (list R)) (net_params : Params)
  (key : Key) (obs : Obs) (lms : list (list bool)) (idx : list nat) :
  (forall k prefs,
      Forall2 (fun row a => nth a row NegInf = qmax row) prefs
              (greedy_sample k prefs)) ->
  Forall2 single_legal lms idx ->
  Forall2 (fun (row : list bool) (q : list R) => length q = length row) lms
          (q_values use_distribution atoms (network net_params key obs)) ->
  eval_policy greedy_sample use_distribution network atoms net_params
              key obs lms = idx.
Proof.
  intros Hgreedy Hlegal Hshape. unfold eval_policy, mask.
  generalize (Hgreedy key
                (map2 mask_row lms
                   (q_values use_distribution atoms
                      (network net_params key obs)))).
  generalize (greedy_sample key
                (map2 mask_row lms
                   (q_values use_distribution atoms
                      (network net_params key obs)))).
  revert Hshape.
  generalize (q_values use_distribution atoms (network net_params key obs)).
  induction Hlegal as [|row a lms idx Hrow _ IH]; intros qs Hq res Hres.
  - inversion Hq; subst. inversion Hres. reflexivity.
  - inversion Hq as [|? q ? qs' Hlen Hq']; subst.
    rewrite map2_cons in Hres.
    inversion Hres as [|? i ? res' Hi Hres']; subst.
    f_equal; [|eapply IH; eassumption].
    destruct (single_legal_length Hrow) as [k [Hk Hl]]. subst row.
    destruct (@mask_row_single a k q) as [x Hx]; [congruence|].
    rewrite Hx, qmax_single in Hi. eapply nth_single; exact Hi.
Qed.

Lemma qle_total (a b : qval) : qle a b = false -> qle b a = true.
Proof.
  destruct a as [|x], b as [|y]; simpl; try congruence.
  destruct (Rle_dec x y), (Rle_dec y x); try congruence. lra.
Qed.

Lemma qle_antisym (a b : qval) : qle a b = true -> qle b a = true -> a = b.
Proof.
  destruct a as [|x], b as [|y]; simpl; try congruence.
  destruct (Rle_dec x y), (Rle_dec y x); try congruence.
  intros _ _. f_equal. lra.
Qed.

Lemma qargmax_attains (row : list qval) :
  nth (qargmax row) row NegInf = qmax row.
Proof.
  induction row as [|x t IH]; [reflexivity|].
  change (qmax (x :: t)) with (qmax2 x (qmax t)). unfold qmax2. simpl.
  destruct (qle (qmax t) x) eqn:E1.
  - destruct (qle x (qmax t)) eqn:E2; [|reflexivity].
    apply qle_antisym; assumption.
  - rewrite (qle_total _ _ E1). exact IH.
Qed.

Lemma eval_policy_single_legal_witness :
  eval_policy greedy_first false (two_action_net 3 5) [] tt tt tt
              [[false; true]] = [1%nat].
Proof.
  apply eval_policy_single_legal.
  - intros k prefs. unfold greedy_first.
    induction prefs as [|row prefs IH]; simpl; constructor;
      [apply qargmax_attains | exact IH].
  - constructor; [exists 0%nat; reflexivity | constructor].
  - simpl. constructor; [reflexivity | constructor].
Defined.

End PolicyProps.

Module LearningProps.
Local Open Scope R_scope.
Import Arr DQNLearning Concrete.

(** ** Terminal transitions *)

Lemma terminal_discount_all_set (term_t : list bool) (discount_t : R) :
  Forall (fun t => t = true) term_t ->
  terminal_discount term_t discount_t = map (fun _ => 0) term_t.
Proof.
  intros H. unfold terminal_discount. apply map_ext_Forall.
  eapply Forall_impl; [|exact H]. intros t Ht. simpl in Ht. rewrite Ht.
  reflexivity.
Qed.

Lemma terminal_discount_zero (term_t : list bool) (discount_t : R) :
  Forall (fun t => t = true) term_t ->
  Forall (fun d => d = 0) (terminal_discount term_t discount_t).
Proof.
  intros H. rewrite terminal_discount_all_set by exact H.
  apply Forall_forall. intros d Hd. apply in_map_iff in Hd.
  destruct Hd as [? [Hd _]]. congruence.
Qed.

Lemma reshape_flat_all_set (term_t : list (list bool)) :
  Forall (Forall (fun t => t = true)) term_t ->
  Forall (fun t => t = true) (reshape_flat term_t).
Proof.
  intros H. unfold reshape_flat. induction H as [|row rows Hrow _ IH]; simpl.
  - constructor.
  - apply Forall_app. split; assumption.
Qed.

(** The samples [jax.vmap] builds carry the discounts of the discount
    array. *)
Lemma samples_discount {Out Sel : Type} (P : R -> Prop) :
  forall (q_tm1 : list Out) a_tm1 r_t discount_t (q_t : list Out)
         (q_sel : list Sel),
    Forall P discount_t ->
    Forall (fun s => P s.(s_discount))
           (samples q_tm1 a_tm1 r_t discount_t q_t q_sel).
Proof.
  induction q_tm1 as [|o q_tm1 IH]; intros a_tm1 r_t discount_t q_t q_sel H.
  - constructor.
  - destruct a_tm1, r_t, discount_t, q_t, q_sel; try constructor.
    + simpl. inversion H; assumption.
    + apply IH. inversion H; assumption.
Qed.

(** With discount zero each of the four targets is the reward alone. *)
Lemma q_learning_target_zero (r_t : R) (q_t : list R) :
  rlax.q_learning_target r_t 0 q_t = r_t.
Proof. unfold rlax.q_learning_target. lra. Qed.

Lemma double_q_learning_target_zero (r_t : R) (q_t q_sel : list R) :
  rlax.double_q_learning_target r_t 0 q_t q_sel = r_t.
Proof. unfold rlax.double_q_learning_target. lra. Qed.

Lemma categorical_target_z_zero (r_t : R) (q_atoms_t : list R) :
  rlax.categorical_target_z r_t 0 q_atoms_t = map (fun _ => r_t) q_atoms_t.
Proof.
  unfold rlax.categorical_target_z. apply map_ext. intros z. lra.
Qed.

Section Terminal.

Variables Key Obs : Type.
Variable categorical_l2_project : list R -> list R -> list R -> list R.
Variable categorical_cross_entropy : list R -> list R -> R.
Variables key_online key_target key_selector : Key.
Variable atoms : list (list R).
Variables online_params trg_params : list R.
Variables obs_tm1 obs_t : Obs.
Variable a_tm1 : list nat.
Variable r_t : list R.
Variable term_t : list (list bool).
Variable discount_t : R.

(** C8. When every terminal flag of the batch is set, the discount array
    the four TD functions pass on is zero at every sample, and each of them
    returns, per sample, the error of the target that is the immediate
    reward alone: the squared difference between the reward and the online
    q-value of the taken action in the two scalar variants, and the
    categorical error of the target whose support is the reward at every
    atom in the two distributional variants. *)
Theorem terminal_batch_targets
  (net : list R -> Key -> Obs -> list (list R))
  (dnet : list R -> Key -> Obs -> list (list (list R))) :
  Forall (Forall (fun t => t = true)) term_t ->
  let discounts := terminal_discount (reshape_flat term_t) discount_t in
  let z := nth 0 atoms [] in
  discounts = map (fun _ => 0) (reshape_flat term_t)
  /\ q_td key_online key_target online_params trg_params obs_tm1 obs_t
          a_tm1 r_t term_t discount_t net
     = map (fun s => (s.(s_r) - rlax.index 0 s.(s_tm1) s.(s_a)) ^ 2)
           (samples (net online_params key_online obs_tm1) a_tm1 r_t discounts
                    (net trg_params key_target obs_t)
                    (map (fun _ => tt) (net trg_params key_target obs_t)))
  /\ double_q_td key_online key_target key_selector online_params trg_params
                 obs_tm1 obs_t a_tm1 r_t term_t discount_t net
     = map (fun s => (s.(s_r) - rlax.index 0 s.(s_tm1) s.(s_a)) ^ 2)
           (samples (net online_params key_online obs_tm1) a_tm1 r_t discounts
                    (net trg_params key_target obs_t)
                    (net online_params key_selector obs_t))
  /\ categorical_q_td categorical_l2_project categorical_cross_entropy
                      key_online key_target atoms online_params trg_params
                      obs_tm1 obs_t a_tm1 r_t term_t discount_t dnet
     = map (fun s =>
              rlax.categorical_error
                categorical_l2_project categorical_cross_entropy
                z s.(s_tm1) s.(s_a) (map (fun _ => s.(s_r)) z)
                (rlax.greedy_probs z s.(s_t)))
           (samples (dnet online_params key_online obs_tm1) a_tm1 r_t
                    discounts (dnet trg_params key_target obs_t)
                    (map (fun _ => tt) (dnet trg_params key_target obs_t)))
  /\ categorical_double_q_td categorical_l2_project categorical_cross_entropy
                             key_online key_target key_selector atoms
                             online_params trg_params
                             obs_tm1 obs_t a_tm1 r_t term_t discount_t dnet
     = map (fun s =>
              rlax.categorical_error
                categorical_l2_project categorical_cross_entropy
                z s.(s_tm1) s.(s_a) (map (fun _ => s.(s_r)) z)
                (rlax.selected_probs s.(s_t) s.(s_sel)))
           (samples (dnet online_params key_online obs_tm1) a_tm1 r_t
                    discounts (dnet trg_params key_target obs_t)
                    (map (fun per_action =>
                            map2 (fun l z => mean (map2 Rmult (softmax l) z))
                                 per_action atoms)
                         (dnet online_params key_selector obs_t))).
Proof.
  intros Hterm discounts z.
  assert (Hflat := reshape_flat_all_set Hterm).
  assert (Hzero := terminal_discount_zero discount_t Hflat).
  fold discounts in Hzero.
  split; [apply terminal_discount_all_set; exact Hflat|].
  split; [|split; [|split]].
  - unfold q_td. fold discounts. rewrite map_map.
    apply map_ext_Forall.
    eapply Forall_impl; [|apply samples_discount; exact Hzero].
    intros s Hs. cbv beta in Hs. unfold rlax.q_learning. rewrite Hs.
    rewrite q_learning_target_zero. reflexivity.
  - unfold double_q_td. fold discounts. rewrite map_map.
    apply map_ext_Forall.
    eapply Forall_impl; [|apply samples_discount; exact Hzero].
    intros s Hs. cbv beta in Hs. unfold rlax.double_q_learning. rewrite Hs.
    rewrite double_q_learning_target_zero. reflexivity.
  - unfold categorical_q_td. fold discounts. fold z.
    apply map_ext_Forall.
    eapply Forall_impl; [|apply samples_discount; exact Hzero].
    intros s Hs. cbv beta in Hs. unfold rlax.categorical_q_learning.
    rewrite Hs, categorical_target_z_zero. reflexivity.
  - unfold categorical_double_q_td. fold discounts. fold z.
    apply map_ext_Forall.
    eapply Forall_impl; [|apply samples_discount; exact Hzero].
    intros s Hs. cbv beta in Hs. unfold rlax.categorical_double_q_learning.
    rewrite Hs, categorical_target_z_zero. reflexivity.
Qed.

End Terminal.

Lemma terminal_batch_targets_witness :
  q_td tt tt [0] [0] tt tt [0%nat] [1] [[true]] (99 / 100) zero_net
  = [(1 - 0) ^ 2].
Proof.
  destruct (@terminal_batch_targets unit unit no_project no_cross_entropy
              tt tt tt [[-1; 1]] [0] [0] tt tt [0%nat] [1] [[true]]
              (99 / 100) zero_net (fun _ _ _ => [[[0; 0]]]))
    as [_ [H _]].
  - repeat constructor.
  - exact H.
Defined.

(** ** New priorities *)

(** C5 (as stated, refuted). One non-terminal transition with reward 0 under
    a network whose q-values are 0 has TD error 0: the new priority
    [update_q] returns for it in the scalar single-Q variant is
    [sqrt(0) = 0], which is not strictly positive. *)
Lemma update_q_zero_priority :
  ~ Forall (fun p => 0 < p)
      (snd (@update_q unit unit unit false zero_net (const_grad [0])
              identity_optimizer no_project no_cross_entropy tt tt tt []
              (-1 / 1000) [0] [0] tt (one_transition tt 0 false) (99 / 100)
              [1] 1 false)).
Proof.
  unfold update_q, loss, q_loss_td, q_td, identity_optimizer, const_grad,
    zero_net, one_transition, rlax.q_learning, rlax.q_learning_target.
  simpl. unfold rlax.index. simpl.
  replace ((0 + 99 / 100 * 0 - 0) * ((0 + 99 / 100 * 0 - 0) * 1)) with 0
    by lra.
  rewrite sqrt_0. intros H. inversion H; subst. lra.
Qed.

Section Priorities.

Variables Key Obs OptState : Type.
Variable use_distribution : bool.
Variable network : list R -> Key -> Obs -> DQNPolicy.NetOut use_distribution.
Variable grad : (list R -> R) -> list R -> list R.
Variable optimizer_update : list R -> OptState -> list R * OptState.
Variable categorical_l2_project : list R -> list R -> list R -> list R.
Variable categorical_cross_entropy : list R -> list R -> R.
Variables key_online key_target key_selector : Key.
Variable atoms : list (list R).

(** C5 (amended). Every new priority [update_q] returns is non-negative, in
    each of the four variants: the absolute value of the categorical TD
    error, or the square root of the squared scalar TD error. *)
Theorem update_q_priorities_nonneg
  (lr : R) (online_params trg_params : list R) (opt_state : OptState)
  (transitions : Transitions Obs) (discount_t : R) (prios : list R)
  (beta_is : R) (use_double_q : bool) :
  Forall (fun p => 0 <= p)
    (snd (update_q use_distribution network grad optimizer_update
            categorical_l2_project categorical_cross_entropy
            key_online key_target key_selector atoms
            lr online_params trg_params opt_state transitions discount_t
            prios beta_is use_double_q)).
Proof.
  unfold update_q.
  destruct (optimizer_update _ opt_state) as [updates opt_state_t].
  cbn [snd]. unfold loss. cbn [snd].
  destruct use_distribution; apply Forall_forall; intros p Hp;
    apply in_map_iff in Hp; destruct Hp as [e [He _]]; subst p.
  - apply Rabs_pos.
  - apply sqrt_pos.
Qed.

End Priorities.

(** ** The learning rate *)

(** C2 (as stated, refuted). With the optimizer the agent builds
    ([custom_adam(eps = 3.125e-5)], first step), gradient 1, learning rate
    -2 and parameter 0, [update_q] returns the parameter
    [-2 / (1 + eps)]: the optimizer turns the gradient 1 into
    [1 / (1 + eps)] and the learning rate multiplies that. Scaling the
    gradient first would hand -2 to the optimizer and give
    [-2 / (2 + eps)]. *)
Lemma update_q_scales_after_optimizer :
  fst (fst (@update_q unit unit _ false zero_net (const_grad [1])
              agent_adam no_project no_cross_entropy tt tt tt []
              (-2) [0] [0] (optax.scale_by_adam_init [0])
              (one_transition tt 0 false) (99 / 100) [1] 1 false))
  <> scaled_gradient_step agent_adam (-2) [1] [0]
       (optax.scale_by_adam_init [0]).
Proof.
  unfold update_q, scaled_gradient_step, agent_adam, custom_adam,
    optax.scale_by_adam_update, optax.scale_by_adam_init, const_grad,
    optax.apply_updates, apply_lr, map2.
  cbn [fst snd map combine optax.mu optax.nu optax.count].
  replace (((1 - 999 / 1000) * (1 * 1) + 999 / 1000 * 0)
           / (1 - (999 / 1000) ^ 1) + 0) with 1 by (simpl; field).
  replace (((1 - 999 / 1000) * (-2 * 1 * (-2 * 1)) + 999 / 1000 * 0)
           / (1 - (999 / 1000) ^ 1) + 0) with (2 * 2) by (simpl; field).
  rewrite sqrt_1, sqrt_square by lra.
  replace (((1 - 9 / 10) * 1 + 9 / 10 * 0) / (1 - (9 / 10) ^ 1)) with 1
    by (simpl; field).
  replace (((1 - 9 / 10) * (-2 * 1) + 9 / 10 * 0) / (1 - (9 / 10) ^ 1))
    with (-2) by (simpl; field).
  intros H. injection H as H.
  assert (E1 : 1 / (1 + 3125 / 100000000) = 100000000 / 100003125)
    by (field; lra).
  assert (E2 : -2 / (2 + 3125 / 100000000) = -200000000 / 200003125)
    by (field; lra).
  rewrite E1, E2 in H. lra.
Qed.

Lemma apply_scaled_updates (lr : R) (S : Type) (st : S)
  (online_params updates : list R) :
  optax.apply_updates online_params (apply_lr lr updates st)
  = map2 (fun p u => p + lr * u) online_params updates.
Proof.
  unfold optax.apply_updates, apply_lr, map2. revert updates.
  induction online_params as [|p ps IH]; intros [|u us]; try reflexivity.
  simpl. f_equal. apply IH.
Qed.

Section Step.

Variables Key Obs OptState : Type.
Variable use_distribution : bool.
Variable network : list R -> Key -> Obs -> DQNPolicy.NetOut use_distribution.
Variable grad : (list R -> R) -> list R -> list R.
Variable optimizer_update : list R -> OptState -> list R * OptState.
Variable categorical_l2_project : list R -> list R -> list R -> list R.
Variable categorical_cross_entropy : list R -> list R -> R.
Variables key_online key_target key_selector : Key.
Variable atoms : list (list R).

(** [update_q] hands the gradient of the loss to the optimizer as it is,
    multiplies the optimizer's output by [lr] and adds the product to the
    online parameters. *)
Lemma update_q_unfold
  (lr : R) (online_params trg_params : list R) (opt_state : OptState)
  (transitions : Transitions Obs) (discount_t : R) (prios : list R)
  (beta_is : R) (use_double_q : bool) :
  let loss_at := fun p =>
    loss use_distribution network
         categorical_l2_project categorical_cross_entropy
         key_online key_target key_selector atoms beta_is use_double_q
         p trg_params transitions.(observation_tm1)
         (col0 0%nat transitions.(action_tm1))
         (col0 0 transitions.(reward_t))
         transitions.(observation_t) transitions.(terminal_t)
         discount_t prios in
  let grads := grad (fun p => fst (loss_at p)) online_params in
  update_q use_distribution network grad optimizer_update
           categorical_l2_project categorical_cross_entropy
           key_online key_target key_selector atoms
           lr online_params trg_params opt_state transitions discount_t
           prios beta_is use_double_q
  = (map2 (fun p u => p + lr * u) online_params
          (fst (optimizer_update grads opt_state)),
     snd (optimizer_update grads opt_state),
     snd (loss_at online_params)).
Proof.
  intros loss_at grads. unfold update_q. cbv zeta.
  change (grad _ online_params) with grads.
  destruct (optimizer_update grads opt_state) as [updates opt_state_t].
  cbn [fst snd]. rewrite apply_scaled_updates. reflexivity.
Qed.

End Step.

End LearningProps.

Module HooksProps.
Import Hooks DQNAgent Concrete.
Local Open Scope Z_scope.

(** C9. [change_buffersize] does not change a capacity on any agent
    [__init__] builds: it raises. [self.buffersize] is the list the
    constructor was passed, so the first comparison [self.buffersize <= 512]
    is a [TypeError], whatever the factor, the survivor's size and the choice
    drawn; and whatever [self.buffersize] holds, [self.experience] is a list
    of buffers, so a call that gets as far as
    [self.experience.change_size] raises [AttributeError]. The agent built
    from one learning rate and the buffer size 10 is an instance. *)
Theorem change_buffersize_raises_on_built_agent :
  (forall (params : RlaxRainbowParams) (env : Env params.(use_distribution))
          (buffersizes : list nat) (a : Agent params env)
          (Num : Type) (change_size : env.(Buffer) -> Z -> env.(Buffer))
          (one : Num) (div : Num -> Num -> option Num)
          (mul : Num -> Num -> Num) (int : Num -> exn + Z)
          (buffer_factor buffersize_survivor : Num) (second : bool),
      change_buffersize change_size one div mul int
        (buffersize_after_init buffersizes) (@experience_of params env a)
        buffer_factor buffersize_survivor second
      = inl TypeError)
  /\ (forall (Buffer Num : Type) (change_size : Buffer -> Z -> Buffer)
             (one : Num) (div : Num -> Num -> option Num)
             (mul : Num -> Num -> Num) (int : Num -> exn + Z)
             (buffersize : attr Z) (buffers : list Buffer)
             (buffer_factor buffersize_survivor : Num) (second : bool),
         exists e,
           change_buffersize change_size one div mul int
             buffersize (Many buffers)
             buffer_factor buffersize_survivor second
           = inl e)
  /\ exists a0,
       toy_agent = Some a0
       /\ forall (Num : Type) (one : Num) (div : Num -> Num -> option Num)
                 (mul : Num -> Num -> Num) (int : Num -> exn + Z)
                 (buffer_factor buffersize_survivor : Num) (second : bool),
           change_buffersize (fun (b : unit) (_ : Z) => b) one div mul int
             (buffersize_after_init [10%nat])
             (@experience_of toy_params toy_env a0)
             buffer_factor buffersize_survivor second
           = inl TypeError.
Proof.
  split; [|split].
  - intros. reflexivity.
  - intros Buffer Num change_size one div mul int buffersize buffers
           buffer_factor buffersize_survivor second.
    unfold change_buffersize.
    destruct buffersize as [size|sizes]; [|eauto].
    destruct (choices one div size buffer_factor) as [e|[c1 c2]]; [eauto|].
    destruct (int (mul buffersize_survivor (if second then c2 else c1)))
      as [e|size']; eauto.
  - unfold toy_agent, init. simpl. eexists. split; [reflexivity|].
    intros. reflexivity.
Qed.

End HooksProps.

Module AgentProps.
Import Arr DQNAgent Concrete.
Local Open Scope nat_scope.

(** ** Target synchronisation *)


Lemma all_some_length {A : Type} (l : list (option A)) (r : list A) :
  all_some l = Some r -> length r = length l.
Proof.
  revert r. induction l as [|o l IH]; intros r H; simpl in H.
  - injection H as <-. reflexivity.
  - destruct o as [x|]; [|discriminate].
    destruct (all_some l) as [r'|]; [|discriminate].
    injection H as <-. simpl. f_equal. apply IH. reflexivity.
Qed.

Lemma replicate_each_one {A : Type} (l : list A) : replicate_each 1 l = l.
Proof.
  unfold replicate_each. induction l as [|x l IH]; [reflexivity|].
  simpl. f_equal. exact IH.
Qed.

Section Sync.

Variable params : RlaxRainbowParams.
Variable env : Env params.(use_distribution).

(** What [__init__] leaves. *)
Lemma init_fresh obs_shape0 obs_shape1 num_values buffersizes lrs alphas a0 :
  init params env obs_shape0 obs_shape1 num_values buffersizes lrs alphas
  = Some a0 ->
  a0.(train_step) = 0
  /\ a0.(trg_params) = a0.(online_params)
  /\ a0.(lr) = map Ropp lrs
  /\ a0.(num_parallel) = length lrs
  /\ length a0.(experience) = length lrs
  /\ a0.(intermediate_indices) = []
  /\ a0.(intermediate_tds) = [].
Proof.
  unfold init, num_unique_parallel.
  destruct (draw_keys _ _ _) as [rng_init g].
  destruct (1 * length lrs =? 0); [discriminate|].
  match goal with
  | |- match ?b with _ => _ end = _ -> _ => destruct b as [buffers|] eqn:E
  end; [|discriminate].
  intros H. injection H as <-. simpl.
  apply all_some_length in E. rewrite length_map, length_seq in E.
  rewrite replicate_each_one. repeat split; try reflexivity; lia.
Qed.






End Sync.


(** ** The stored learning rate *)

Lemma nth_error_combine {A B : Type} (l : list A) (m : list B) (i : nat)
  (x : A) (y : B) :
  nth_error (combine l m) i = Some (x, y) ->
  nth_error l i = Some x /\ nth_error m i = Some y.
Proof.
  revert m i. induction l as [|a l IH]; intros [|b m] [|i] H;
    simpl in H; try discriminate.
  - injection H as -> ->. split; reflexivity.
  - simpl. apply IH. exact H.
Qed.

Section LearningRate.

Variable params : RlaxRainbowParams.
Variable env : Env params.(use_distribution).

(** Member [i] of the vectorised learning step is [update_q] at the
    member's own stored learning rate, parameters and optimizer state. *)
Lemma update_q_parallel_member (a : Agent params env) tr pr k1 k2 k3 i r :
  nth_error (update_q_parallel a tr pr k1 k2 k3) i = Some r ->
  exists lr_i on_i tg_i op_i tr_i pr_i kon ktg ksel,
    nth_error a.(lr) i = Some lr_i
    /\ nth_error a.(online_params) i = Some on_i
    /\ nth_error a.(trg_params) i = Some tg_i
    /\ nth_error a.(opt_state) i = Some op_i
    /\ nth_error tr i = Some tr_i
    /\ nth_error pr i = Some pr_i
    /\ r = DQNLearning.update_q params.(use_distribution)
             env.(network_apply) env.(grad) env.(optimizer_update)
             env.(categorical_l2_project) env.(categorical_cross_entropy)
             kon ktg ksel a.(atoms) lr_i on_i tg_i op_i tr_i
             params.(discount) pr_i (params.(beta_is) a.(train_step))
             params.(use_double_q).
Proof.
  unfold update_q_parallel. rewrite nth_error_map.
  destruct (nth_error _ i) as [m|] eqn:E; [|discriminate].
  destruct m as [lr_i [on_i [tg_i [op_i [tr_i [pr_i [kon [ktg ksel]]]]]]]].
  simpl. intros H. injection H as <-.
  apply nth_error_combine in E. destruct E as [H1 E].
  apply nth_error_combine in E. destruct E as [H2 E].
  apply nth_error_combine in E. destruct E as [H3 E].
  apply nth_error_combine in E. destruct E as [H4 E].
  apply nth_error_combine in E. destruct E as [H5 E].
  apply nth_error_combine in E. destruct E as [H6 E].
  exists lr_i, on_i, tg_i, op_i, tr_i, pr_i, kon, ktg, ksel.
  repeat split; assumption.
Qed.

(** C2 (amended). The orchestrator stores the negated configured learning
    rates and [update] never changes them; each member's parameters after
    [update] are those [update_q] returns at the member's stored learning
    rate; and [update_q] hands the gradient of the loss to the optimizer's
    update rule as it is, multiplies the optimizer's output by that
    (possibly negative) learning rate, and adds the product to the online
    parameters. *)
Theorem stored_learning_rate_scales_optimizer_output
  obs_shape0 obs_shape1 num_values buffersizes lrs alphas
  (a0 : Agent params env) :
  init params env obs_shape0 obs_shape1 num_values buffersizes lrs alphas
  = Some a0 ->
  a0.(lr) = map Ropp lrs
  /\ (forall a a' : Agent params env,
        update a = Some a' ->
        a'.(lr) = a.(lr)
        /\ (params.(fixed_weights) = false ->
            exists tr pr k1 k2 k3,
              a'.(online_params)
              = map (fun r => fst (fst r))
                    (update_q_parallel a tr pr k1 k2 k3)
              /\ a'.(opt_state)
                 = map (fun r => snd (fst r))
                       (update_q_parallel a tr pr k1 k2 k3)))
  /\ (forall (a : Agent params env) tr pr k1 k2 k3 i r,
        nth_error (update_q_parallel a tr pr k1 k2 k3) i = Some r ->
        exists lr_i on_i tg_i op_i tr_i pr_i kon ktg ksel,
          nth_error a.(lr) i = Some lr_i
          /\ nth_error a.(online_params) i = Some on_i
          /\ nth_error a.(trg_params) i = Some tg_i
          /\ nth_error a.(opt_state) i = Some op_i
          /\ nth_error tr i = Some tr_i
          /\ nth_error pr i = Some pr_i
          /\ let grads :=
               env.(grad)
                 (fun p =>
                    fst (DQNLearning.loss params.(use_distribution)
                           env.(network_apply)
                           env.(categorical_l2_project)
                           env.(categorical_cross_entropy)
                           kon ktg ksel a.(atoms)
                           (params.(beta_is) a.(train_step))
                           params.(use_double_q) p tg_i
                           tr_i.(DQNLearning.observation_tm1)
                           (DQNLearning.col0 0 tr_i.(DQNLearning.action_tm1))
                           (DQNLearning.col0 0%R tr_i.(DQNLearning.reward_t))
                           tr_i.(DQNLearning.observation_t)
                           tr_i.(DQNLearning.terminal_t)
                           params.(discount) pr_i))
                 on_i in
             fst r
             = (map2 (fun p u => (p + lr_i * u)%R) on_i
                     (fst (env.(optimizer_update) grads op_i)),
                snd (env.(optimizer_update) grads op_i))).
Proof.
  intros Hinit.
  destruct (init_fresh _ _ _ _ _ _ Hinit) as [_ [_ [L0 _]]].
  split; [exact L0|]. split.
  - intros a a'. unfold update.
    destruct (fixed_weights params).
    + intros H. injection H as <-. split; [reflexivity | discriminate].
    + destruct (draw_keys _ _ _) as [k1 g1].
      destruct (draw_keys _ _ _) as [k2 g2].
      destruct (draw_keys _ _ _) as [k3 g3].
      destruct (_ || _); [discriminate|].
      destruct (target_update_period params =? 0); [discriminate|].
      intros H. injection H as <-. cbn [lr online_params opt_state].
      split; [reflexivity|]. intros _.
      do 5 eexists. split; reflexivity.
  - intros a tr pr k1 k2 k3 i r H.
    destruct (update_q_parallel_member _ _ _ _ _ _ _ H)
      as [lr_i [on_i [tg_i [op_i [tr_i [pr_i [kon [ktg [ksel
         [H1 [H2 [H3 [H4 [H5 [H6 ->]]]]]]]]]]]]]]].
    exists lr_i, on_i, tg_i, op_i, tr_i, pr_i, kon, ktg, ksel.
    repeat (split; [assumption|]).
    rewrite LearningProps.update_q_unfold. reflexivity.
Qed.

End LearningRate.

Lemma stored_learning_rate_witness :
  exists a0, toy_agent = Some a0 /\ a0.(lr) = map Ropp [1%R].
Proof.
  destruct toy_agent as [a0|] eqn:E; [|discriminate E].
  exists a0. split; [reflexivity|].
  destruct (@stored_learning_rate_scales_optimizer_output
              toy_params toy_env 1 1 1 [10] [1%R] [1%R] a0 E) as [H _].
  exact H.
Defined.

(** ** The deferred priority write-back *)

Lemma but_last_two_short {A : Type} (l : list A) :
  length l <= 2 -> but_last_two l = [].
Proof.
  intros H. unfold but_last_two.
  replace (length l - 2) with 0 by lia. reflexivity.
Qed.

Lemma last_two_length {A : Type} (l : list A) :
  length (last_two l) = Nat.min 2 (length l).
Proof. unfold last_two. rewrite length_skipn. lia. Qed.

Lemma map2_length {A B C : Type} (f : A -> B -> C) l m :
  length (map2 f l m) = Nat.min (length l) (length m).
Proof. unfold map2. rewrite length_map, length_combine. reflexivity. Qed.

Lemma map2_app_nth {A : Type} (l m : list (list A)) (i : nat) :
  length m = length l ->
  nth i (map2 (@app A) l m) [] = nth i l [] ++ nth i m [].
Proof.
  revert m i. induction l as [|x l IH]; intros [|y m] i H; try discriminate.
  - destruct i; reflexivity.
  - destruct i as [|i]; [reflexivity|].
    change (nth i (map2 (@app A) l m) [] = nth i l [] ++ nth i m []).
    apply IH. simpl in H. lia.
Qed.

(** Stacking arrays of [n] rows side by side, onto [acc]: row [i] of the
    result is row [i] of [acc] followed by the rows [i] of the arrays. *)
Lemma stack_rows {A : Type} (pending : list (list (list A))) :
  forall acc : list (list A),
    Forall (fun e => length e = length acc) pending ->
    length (fold_left (fun acc m => map2 (@app A) acc m) pending acc)
    = length acc
    /\ forall i,
        nth i (fold_left (fun acc m => map2 (@app A) acc m) pending acc) []
        = nth i acc [] ++ concat (map (fun e => nth i e []) pending).
Proof.
  induction pending as [|e pending IH]; intros acc H.
  - split; [reflexivity|]. intros i. simpl. rewrite app_nil_r. reflexivity.
  - inversion H as [|? ? He Hp]; subst. simpl.
    assert (Hlen : length (map2 (@app A) acc e) = length acc)
      by (rewrite map2_length; lia).
    destruct (IH (map2 (@app A) acc e)) as [L N].
    { eapply Forall_impl; [|exact Hp]. intros x Hx. simpl in *. congruence. }
    split; [congruence|].
    intros i. rewrite N, map2_app_nth by exact He.
    rewrite app_assoc. reflexivity.
Qed.

Lemma extend_each_stack {A : Type} (indices elem : list (list A)) :
  length elem = length indices ->
  extend_each indices elem = Some (map2 (@app A) indices elem).
Proof.
  revert indices. induction elem as [|x elem IH]; intros [|y indices] H;
    try discriminate; [reflexivity|].
  simpl. rewrite IH by (simpl in H; lia). reflexivity.
Qed.

Lemma extend_all_stack {A : Type} (pending : list (list (list A))) :
  forall indices : list (list A),
    Forall (fun e => length e = length indices) pending ->
    extend_all indices pending
    = Some (fold_left (fun acc m => map2 (@app A) acc m) pending indices).
Proof.
  induction pending as [|e pending IH]; intros indices H; [reflexivity|].
  inversion H as [|? ? He Hp]; subst. simpl.
  rewrite extend_each_stack by exact He.
  apply IH. eapply Forall_impl; [|exact Hp].
  intros x Hx. simpl in *. rewrite map2_length. lia.
Qed.

Lemma hstack_stack {A : Type} (m : list (list A)) rest :
  Forall (fun e => length e = length m) rest ->
  hstack (m :: rest)
  = Some (fold_left (fun acc m' => map2 (@app A) acc m') rest m).
Proof.
  intros H. unfold hstack.
  replace (forallb (fun m' => length m' =? length m) rest) with true;
    [reflexivity|].
  symmetry. apply forallb_forall. intros x Hx.
  rewrite Forall_forall in H. apply Nat.eqb_eq. apply H. exact Hx.
Qed.

Lemma nth_repeat_nil {A : Type} (n i : nat) :
  nth i (repeat (@nil A) n) [] = [].
Proof.
  revert i. induction n as [|n IH]; intros [|i]; simpl; auto.
Qed.

Lemma Forall_firstn {A : Type} (P : A -> Prop) (n : nat) (l : list A) :
  Forall P l -> Forall P (firstn n l).
Proof.
  intros H. apply Forall_forall. intros x Hx.
  rewrite Forall_forall in H. apply H.
  rewrite <- (firstn_skipn n l). apply in_or_app. left. exact Hx.
Qed.

Section Writes.

Variable params : RlaxRainbowParams.
Variable env : Env params.(use_distribution).

Lemma nth_error_enumerate {A : Type} (bs : list A) :
  forall s i,
    nth_error (combine (seq s (length bs)) bs) i
    = option_map (fun b => (s + i, b)) (nth_error bs i).
Proof.
  induction bs as [|b bs IH]; intros s i.
  - destruct i; reflexivity.
  - destruct i as [|i]; simpl.
    + rewrite Nat.add_0_r. reflexivity.
    + rewrite IH. destruct (nth_error bs i); simpl; [|reflexivity].
      f_equal. f_equal. lia.
Qed.

Lemma write_priorities_rows (indices : list (list nat))
  (tds_np : list (list R)) (buffers : list env.(Buffer)) :
  length buffers <= length indices ->
  length buffers <= length tds_np ->
  exists buffers',
    write_priorities params env indices tds_np buffers = Some buffers'
    /\ length buffers' = length buffers
    /\ forall i b,
        nth_error buffers i = Some b ->
        nth_error buffers' i
        = Some (env.(update_priorities) b (nth i indices [])
                                        (nth i tds_np [])).
Proof.
  intros Hi Ht. unfold write_priorities.
  assert (G : forall (bs : list env.(Buffer)) s,
             s + length bs <= length indices ->
             s + length bs <= length tds_np ->
             all_some
               (map (fun ib =>
                       match nth_error indices (fst ib),
                             nth_error tds_np (fst ib) with
                       | Some ind, Some td =>
                           Some (env.(update_priorities) (snd ib) ind td)
                       | _, _ => None
                       end)
                    (combine (seq s (length bs)) bs))
             = Some (map (fun ib =>
                            env.(update_priorities) (snd ib)
                              (nth (fst ib) indices [])
                              (nth (fst ib) tds_np []))
                         (combine (seq s (length bs)) bs))).
  { induction bs as [|b bs IH]; intros s H1 H2; [reflexivity|].
    simpl in *.
    rewrite (@nth_error_nth' _ indices s []) by lia.
    rewrite (@nth_error_nth' _ tds_np s []) by lia.
    rewrite IH by lia. reflexivity. }
  rewrite (G buffers 0) by (simpl; assumption).
  eexists. split; [reflexivity|]. split.
  - rewrite length_map, length_combine, length_seq. lia.
  - intros i b Hb. rewrite nth_error_map, nth_error_enumerate, Hb.
    reflexivity.
Qed.

(** With at most two pending entries [update_prio] does not return: the
    list handed to [onp.hstack] is empty. *)
Lemma update_prio_short_queue (a : Agent params env) :
  params.(use_priority) = true ->
  length a.(intermediate_tds) <= 2 ->
  update_prio a = None.
Proof.
  intros Hp Hlen. unfold update_prio. rewrite Hp.
  rewrite (but_last_two_short _ Hlen).
  destruct (extend_all _ _); reflexivity.
Qed.

(** With three or more pending entries, each holding one row per member,
    [update_prio] returns: every member's buffer receives, in one call to
    [update_priorities], the indices and the errors of every pending entry
    but the last two, in order, and both queues keep exactly their last two
    entries. *)
Theorem update_prio_flushes (a : Agent params env) :
  params.(use_priority) = true ->
  2 < length a.(intermediate_tds) ->
  length a.(intermediate_indices) = length a.(intermediate_tds) ->
  Forall (fun e => length e = a.(num_parallel)) a.(intermediate_indices) ->
  Forall (fun m => length m = a.(num_parallel)) a.(intermediate_tds) ->
  length a.(experience) = a.(num_parallel) ->
  exists a',
    update_prio a = Some a'
    /\ a'.(intermediate_indices) = last_two a.(intermediate_indices)
    /\ a'.(intermediate_tds) = last_two a.(intermediate_tds)
    /\ length a'.(intermediate_indices) = 2
    /\ length a'.(intermediate_tds) = 2
    /\ length a'.(experience) = length a.(experience)
    /\ forall i b,
        nth_error a.(experience) i = Some b ->
        nth_error a'.(experience) i
        = Some (env.(update_priorities) b
                  (concat (map (fun e => nth i e [])
                               (but_last_two a.(intermediate_indices))))
                  (concat (map (fun m => nth i m [])
                               (but_last_two a.(intermediate_tds))))).
Proof.
  intros Hp Hlen Hq Hi Ht He. unfold update_prio. rewrite Hp.
  assert (Hi' : Forall (fun e : list (list nat) =>
                          length e = length (repeat (@nil nat)
                                                    a.(num_parallel)))
                       (but_last_two a.(intermediate_indices))).
  { apply Forall_firstn. eapply Forall_impl; [|exact Hi].
    intros e H. simpl in H. rewrite repeat_length. exact H. }
  rewrite (@extend_all_stack _ _ _ Hi').
  destruct (@stack_rows _ _ _ Hi') as [Li Ni].
  destruct (but_last_two a.(intermediate_tds)) as [|m rest] eqn:Et.
  { exfalso. apply (f_equal (@length _)) in Et. unfold but_last_two in Et.
    rewrite length_firstn in Et. simpl in Et. lia. }
  assert (Ht' : Forall (fun e : list (list R) => length e = a.(num_parallel))
                       (m :: rest)).
  { rewrite <- Et. apply Forall_firstn. exact Ht. }
  inversion Ht' as [|? ? Hm Hrest]; subst.
  assert (Hrest' : Forall (fun e : list (list R) => length e = length m) rest).
  { eapply Forall_impl; [|exact Hrest]. intros e H. simpl in H. congruence. }
  rewrite (@hstack_stack _ _ _ Hrest').
  destruct (@stack_rows _ _ _ Hrest') as [Lt Nt].
  destruct (@write_priorities_rows
              (fold_left (fun acc m0 => map2 (@app nat) acc m0)
                         (but_last_two a.(intermediate_indices))
                         (repeat [] a.(num_parallel)))
              (fold_left (fun acc m' => map2 (@app R) acc m') rest m)
              a.(experience)) as [buffers [Hw [Lw Nw]]].
  { rewrite Li, repeat_length. lia. }
  { rewrite Lt. lia. }
  rewrite Hw. eexists. split; [reflexivity|].
  cbn [intermediate_indices intermediate_tds experience].
  split; [reflexivity|]. split; [reflexivity|].
  split; [rewrite last_two_length; lia|].
  split; [rewrite last_two_length; lia|].
  split; [exact Lw|].
  intros i b Hb. rewrite (Nw i b Hb). f_equal. f_equal.
  - rewrite Ni, nth_repeat_nil. reflexivity.
  - rewrite Nt. reflexivity.
Qed.

End Writes.

Lemma update_prio_flushes_witness :
  exists a',
    update_prio pending_agent = Some a'
    /\ length a'.(intermediate_tds) = 2.
Proof.
  destruct (@update_prio_flushes toy_params toy_env pending_agent)
    as [a' [H1 [_ [_ [_ [H2 _]]]]]].
  - reflexivity.
  - simpl. lia.
  - reflexivity.
  - repeat constructor.
  - repeat constructor.
  - reflexivity.
  - exists a'. split; [exact H1 | exact H2].
Defined.

(** C4. On the freshly built agent with prioritized replay, and again after
    one and after two calls to [update] (one and two pending entries),
    [update_prio] does not return. *)
Theorem update_prio_fresh_agent_raises :
  exists a0 a1 a2,
    toy_agent = Some a0
    /\ updates 1 a0 = Some a1
    /\ updates 2 a0 = Some a2
    /\ length a0.(intermediate_tds) = 0
    /\ length a1.(intermediate_tds) = 1
    /\ length a2.(intermediate_tds) = 2
    /\ update_prio a0 = None
    /\ update_prio a1 = None
    /\ update_prio a2 = None.
Proof.
  unfold toy_agent, init. simpl.
  do 3 eexists. split; [reflexivity|].
  split; [reflexivity|]. split; [reflexivity|].
  split; [reflexivity|]. split; [reflexivity|]. split; [reflexivity|].
  repeat split; apply update_prio_short_queue; simpl; auto.
Qed.

(** ** The rolling history is write-only *)

Lemma roll_up_length {A : Type} (n : nat) (l : list A) :
  length (roll_up n l) = length l.
Proof.
  unfold roll_up. rewrite length_app, length_skipn, length_firstn.
  destruct l as [|x l]; [simpl length; lia|].
  assert (n mod length (x :: l) < length (x :: l))
    by (apply Nat.mod_upper_bound; discriminate).
  lia.
Qed.

(** Whether a push into a history buffer raises, and the shape it leaves,
    depend on the shape of the buffer only. *)
Lemma push_history_shape (h1 h2 : Array2) (v : list (list R)) :
  h1.(width) = h2.(width) ->
  length h1.(rows) = length h2.(rows) ->
  match push_history h1 v, push_history h2 v with
  | Some x, Some y =>
      x.(width) = y.(width) /\ length x.(rows) = length y.(rows)
  | None, None => True
  | _, _ => False
  end.
Proof.
  intros Hw Hl. unfold push_history, assign_tail. cbn [width rows].
  rewrite !roll_up_length, Hw, Hl.
  destruct (broadcast _ _ v) as [v'|]; [|exact I].
  cbn [width rows]. split; [reflexivity|].
  rewrite !length_app, !length_firstn, !roll_up_length, Hl. reflexivity.
Qed.

Section History.

Variable params : RlaxRainbowParams.
Variable env : Env params.(use_distribution).

(** Two agents agree up to the contents of their histories exactly when one
    is the other with its history buffers replaced by buffers of the same
    shape. *)
Lemma forget_history_eq (a b : Agent params env) :
  forget_history a = forget_history b ->
  b = with_history a b.(past_obs) b.(past_lms)
  /\ a.(past_obs).(width) = b.(past_obs).(width)
  /\ length a.(past_obs).(rows) = length b.(past_obs).(rows)
  /\ a.(past_lms).(width) = b.(past_lms).(width)
  /\ length a.(past_lms).(rows) = length b.(past_lms).(rows).
Proof.
  destruct a, b. unfold forget_history, with_history, zeros. cbn.
  intros H. injection H. intros. subst.
  repeat match goal with
         | E : repeat _ _ = repeat _ _ |- _ =>
             apply (f_equal (@length _)) in E; rewrite !repeat_length in E
         end.
  repeat split; try reflexivity; assumption.
Qed.

Lemma forget_with_history (a : Agent params env) (p1 l1 p2 l2 : Array2) :
  p1.(width) = p2.(width) -> length p1.(rows) = length p2.(rows) ->
  l1.(width) = l2.(width) -> length l1.(rows) = length l2.(rows) ->
  forget_history (with_history a p1 l1) = forget_history (with_history a p2 l2).
Proof.
  intros W1 R1 W2 R2. unfold forget_history, with_history. cbn.
  rewrite W1, R1, W2, R2. reflexivity.
Qed.

(** [record_history] on two agents that agree up to history contents. *)
Lemma record_history_shape (a : Agent params env) (p1 l1 p2 l2 : Array2)
  (o : list (list R) * list (list bool)) :
  p1.(width) = p2.(width) -> length p1.(rows) = length p2.(rows) ->
  l1.(width) = l2.(width) -> length l1.(rows) = length l2.(rows) ->
  match record_history (with_history a p1 l1) o,
        record_history (with_history a p2 l2) o with
  | Some x, Some y =>
      exists p1' l1' p2' l2',
        x = with_history a p1' l1' /\ y = with_history a p2' l2'
        /\ p1'.(width) = p2'.(width)
        /\ length p1'.(rows) = length p2'.(rows)
        /\ l1'.(width) = l2'.(width)
        /\ length l1'.(rows) = length l2'.(rows)
  | None, None => True
  | _, _ => False
  end.
Proof.
  intros W1 R1 W2 R2. unfold record_history. cbn [past_obs past_lms with_history].
  pose proof (@push_history_shape p1 p2 (fst o) W1 R1) as HP.
  destruct (push_history p1 (fst o)) as [p1'|],
           (push_history p2 (fst o)) as [p2'|]; try contradiction; [|exact I].
  pose proof (@push_history_shape l1 l2 (map (map b2r) (snd o)) W2 R2) as HL.
  destruct (push_history l1 _) as [l1'|],
           (push_history l2 _) as [l2'|]; try contradiction; [|exact I].
  exists p1', l1', p2', l2'. destruct HP, HL. repeat split; assumption.
Qed.

Lemma with_history_self (a : Agent params env) :
  a = with_history a a.(past_obs) a.(past_lms).
Proof. destruct a. reflexivity. Qed.

Ltac same_shapes :=
  unfold forget_history, with_history, with_rng, with_experience; cbn;
  repeat match goal with
         | E : width _ = width _ |- _ => rewrite E; clear E
         | E : length (rows _) = length (rows _) |- _ => rewrite E; clear E
         end;
  reflexivity.

Section Core.

Variable a : Agent params env.
Variables p1 l1 p2 l2 : Array2.
Hypothesis W1 : p1.(width) = p2.(width).
Hypothesis R1 : length p1.(rows) = length p2.(rows).
Hypothesis W2 : l1.(width) = l2.(width).
Hypothesis R2 : length l1.(rows) = length l2.(rows).

Lemma update_ignores_history :
  same_state (update (with_history a p1 l1)) (update (with_history a p2 l2)).
Proof.
  unfold update. cbn [with_history rng num_parallel lr online_params
    trg_params opt_state atoms train_step experience past_obs past_lms
    intermediate_indices intermediate_tds].
  destruct (fixed_weights params).
  - unfold same_state. same_shapes.
  - destruct (draw_keys _ _ _) as [k1 g1].
    destruct (draw_keys _ _ _) as [k2 g2].
    destruct (draw_keys _ _ _) as [k3 g3].
    destruct (_ || _); [exact I|].
    destruct (target_update_period params =? 0); [exact I|].
    unfold same_state, update_q_parallel. same_shapes.
Qed.

Lemma update_prio_ignores_history :
  same_state (update_prio (with_history a p1 l1))
             (update_prio (with_history a p2 l2)).
Proof.
  unfold update_prio. cbn [with_history rng num_parallel lr online_params
    trg_params opt_state atoms train_step experience past_obs past_lms
    intermediate_indices intermediate_tds].
  destruct (use_priority params); [|unfold same_state; same_shapes].
  destruct (extend_all _ _); [|exact I].
  destruct (hstack _); [|exact I].
  destruct (write_priorities _ _ _ _ _); [|exact I].
  unfold same_state. same_shapes.
Qed.

Lemma add_experience_ignores_history o1 act r o2 t :
  same_state (add_experience (with_history a p1 l1) o1 act r o2 t)
             (add_experience (with_history a p2 l2) o1 act r o2 t).
Proof.
  unfold add_experience. cbn [with_history rng num_parallel lr online_params
    trg_params opt_state atoms train_step experience past_obs past_lms
    intermediate_indices intermediate_tds].
  destruct (num_parallel a =? 0); [exact I|].
  destruct (length (experience a) <? num_parallel a); [exact I|].
  unfold same_state. same_shapes.
Qed.

(** The part of [explore] after the history is recorded. *)
Lemma explore_ignores_history o :
  same_outcome (explore (with_history a p1 l1) o)
               (explore (with_history a p2 l2) o).
Proof.
  unfold explore.
  pose proof (@record_history_shape a p1 l1 p2 l2 o W1 R1 W2 R2) as H.
  destruct (record_history (with_history a p1 l1) o) as [x|],
           (record_history (with_history a p2 l2) o) as [y|];
    try contradiction; [|exact I].
  destruct H as [p1' [l1' [p2' [l2' [-> [-> [W1' [R1' [W2' R2']]]]]]]]].
  unfold split_members. cbn [with_history rng num_parallel lr online_params
    trg_params opt_state atoms train_step experience past_obs past_lms
    intermediate_indices intermediate_tds].
  destruct (num_parallel a =? 0); [exact I|].
  destruct (reshape3 _ _ (fst o)); [|exact I].
  destruct (reshape3 _ _ (snd o)); [|exact I].
  destruct (draw_keys _ _ _) as [ks g].
  unfold same_outcome. split; [reflexivity|].
  clear W1 R1 W2 R2. same_shapes.
Qed.

Lemma exploit_ignores_history o eval :
  same_outcome (exploit (with_history a p1 l1) o eval)
               (exploit (with_history a p2 l2) o eval).
Proof.
  unfold exploit. destruct eval.
  - unfold split_members. cbn [with_history rng num_parallel lr online_params
      trg_params opt_state atoms train_step experience past_obs past_lms
      intermediate_indices intermediate_tds].
    destruct (num_parallel a =? 0); [exact I|].
    destruct (reshape3 _ _ (fst o)); [|exact I].
    destruct (reshape3 _ _ (snd o)); [|exact I].
    destruct (draw_keys _ _ _) as [ks g].
    unfold same_outcome. split; [reflexivity|]. same_shapes.
  - pose proof (@record_history_shape a p1 l1 p2 l2 o W1 R1 W2 R2) as H.
    destruct (record_history (with_history a p1 l1) o) as [x|],
             (record_history (with_history a p2 l2) o) as [y|];
      try contradiction; [|exact I].
    destruct H as [p1' [l1' [p2' [l2' [-> [-> [W1' [R1' [W2' R2']]]]]]]]].
    unfold split_members. cbn [with_history rng num_parallel lr online_params
      trg_params opt_state atoms train_step experience past_obs past_lms
      intermediate_indices intermediate_tds].
    destruct (num_parallel a =? 0); [exact I|].
    destruct (reshape3 _ _ (fst o)); [|exact I].
    destruct (reshape3 _ _ (snd o)); [|exact I].
    destruct (draw_keys _ _ _) as [ks g].
    unfold same_outcome. split; [reflexivity|].
    clear W1 R1 W2 R2. same_shapes.
Qed.

End Core.

Lemma record_history_pushed (a a1 : Agent params env) o :
  record_history a o = Some a1 ->
  history_pushed a a1 o /\ a1 = with_history a a1.(past_obs) a1.(past_lms).
Proof.
  unfold record_history, history_pushed.
  destruct (push_history (past_obs a) _) as [po|]; [|discriminate].
  destruct (push_history (past_lms a) _) as [pl|]; [|discriminate].
  intros H. injection H as <-. repeat split.
Qed.

Lemma explore_writes_history (a a' : Agent params env) o r :
  explore a o = Some (r, a') -> history_pushed a a' o.
Proof.
  unfold explore.
  destruct (record_history a o) as [a1|] eqn:E; [|discriminate].
  destruct (@record_history_pushed _ _ _ E) as [[H1 H2] _].
  destruct (split_members a1 o) as [[obs lms]|]; [|discriminate].
  destruct (draw_keys _ _ _) as [ks g].
  intros H. injection H as _ <-. split; assumption.
Qed.

Lemma exploit_writes_history (a a' : Agent params env) o r :
  exploit a o false = Some (r, a') -> history_pushed a a' o.
Proof.
  unfold exploit.
  destruct (record_history a o) as [a1|] eqn:E; [|discriminate].
  destruct (@record_history_pushed _ _ _ E) as [[H1 H2] _].
  destruct (split_members a1 o) as [[obs lms]|]; [|discriminate].
  destruct (draw_keys _ _ _) as [ks g].
  intros H. injection H as _ <-. split; assumption.
Qed.

Lemma exploit_eval_keeps_history (a a' : Agent params env) o r :
  exploit a o true = Some (r, a') ->
  a'.(past_obs) = a.(past_obs) /\ a'.(past_lms) = a.(past_lms).
Proof.
  unfold exploit.
  destruct (split_members a o) as [[obs lms]|]; [|discriminate].
  destruct (draw_keys _ _ _) as [ks g].
  intros H. injection H as _ <-. split; reflexivity.
Qed.

(** C10. Two agent states that differ only in the contents of the history
    buffers [past_obs] and [past_lms] (same shapes, every other field
    equal) are treated alike by every public operation: each of [explore],
    [exploit], [add_experience], [update] and [update_prio] raises on both or
    on neither, returns the same result, and leaves successor states that
    again differ only in the contents of the two history buffers. The
    buffers are written by [explore] and by [exploit] without [eval], which
    push the observations and the masks of the call into them, and are left
    as they are by an [exploit] with [eval]. *)
Theorem history_is_never_read (a b : Agent params env) :
  forget_history a = forget_history b ->
  (forall o, same_outcome (explore a o) (explore b o))
  /\ (forall o eval, same_outcome (exploit a o eval) (exploit b o eval))
  /\ (forall o1 act r o2 t,
        same_state (add_experience a o1 act r o2 t)
                   (add_experience b o1 act r o2 t))
  /\ same_state (update a) (update b)
  /\ same_state (update_prio a) (update_prio b)
  /\ (forall o r a', explore a o = Some (r, a') -> history_pushed a a' o)
  /\ (forall o r a',
        exploit a o false = Some (r, a') -> history_pushed a a' o)
  /\ (forall o r a',
        exploit a o true = Some (r, a') ->
        a'.(past_obs) = a.(past_obs) /\ a'.(past_lms) = a.(past_lms)).
Proof.
  intros H.
  destruct (forget_history_eq H) as [Hb [W1 [R1 [W2 R2]]]].
  split; [|split; [|split; [|split; [|split; [|split; [|split]]]]]].
  - intros o. rewrite (with_history_self a), Hb.
    apply explore_ignores_history; assumption.
  - intros o eval. rewrite (with_history_self a), Hb.
    apply exploit_ignores_history; assumption.
  - intros o1 act r o2 t. rewrite (with_history_self a), Hb.
    apply add_experience_ignores_history; assumption.
  - rewrite (with_history_self a), Hb.
    apply update_ignores_history; assumption.
  - rewrite (with_history_self a), Hb.
    apply update_prio_ignores_history; assumption.
  - intros o r a'. apply explore_writes_history.
  - intros o r a'. apply exploit_writes_history.
  - intros o r a'. apply exploit_eval_keeps_history.
Qed.

End History.

Lemma history_is_never_read_witness :
  exists a0,
    toy_agent = Some a0
    /\ same_state
         (update a0)
         (update (with_history a0
                    {| width := 1; rows := [[1]; [2]; [3]; [4]]%R |}
                    a0.(past_lms))).
Proof.
  unfold toy_agent, init. simpl.
  eexists. split; [reflexivity|].
  match goal with
  | |- same_state (update ?a) (update ?b) =>
      destruct (@history_is_never_read toy_params toy_env a b)
        as [_ [_ [_ [H _]]]]
  end.
  - reflexivity.
  - exact H.
Defined.

End AgentProps.

(** * Further properties *)

Module DistributionProps.
Local Open Scope R_scope.
Import Arr DQNPolicy Distributions Concrete.

(** ** Sampling inverts the cumulative distribution *)

Lemma first_false_app_false (l : list bool) :
  exists i,
    first_false (l ++ [false]) = Some i
    /\ (i <= length l)%nat
    /\ (forall j, (j < i)%nat -> nth j l false = true)
    /\ ((i < length l)%nat -> nth i l true = false).
Proof.
  induction l as [|b l [i [Hi [Hle [Hbefore Hat]]]]].
  - exists 0%nat. split; [reflexivity|]. split; [simpl; lia|].
    split; [intros j Hj; lia | simpl; lia].
  - destruct b.
    + exists (S i). simpl. rewrite Hi. split; [reflexivity|].
      split; [lia|]. split.
      * intros [|j] Hj; [reflexivity | apply Hbefore; lia].
      * intros H. apply Hat. lia.
    + exists 0%nat. split; [reflexivity|]. split; [simpl; lia|].
      split; [intros j Hj; lia | reflexivity].
Qed.

Lemma nth_removelast (l : list R) (j : nat) :
  (j < length (removelast l))%nat -> nth j (removelast l) 0 = nth j l 0.
Proof.
  intros Hj. destruct l as [|x t]; [reflexivity|].
  rewrite (app_removelast_last 0 (l := x :: t)) at 2 by discriminate.
  rewrite app_nth1 by exact Hj. reflexivity.
Qed.

Lemma length_removelast_cons (x : R) (t : list R) :
  length (removelast (x :: t)) = length t.
Proof.
  pose proof (app_removelast_last 0 (l := x :: t)) as E.
  apply (f_equal (@length _)) in E; [|discriminate].
  rewrite length_app in E. simpl in E. simpl length. lia.
Qed.

Lemma gtb_true_inv (a b : R) : gtb a b = true -> b < a.
Proof. unfold gtb. destruct (Rlt_dec b a); [auto | discriminate]. Qed.

Lemma gtb_false_inv (a b : R) : gtb a b = false -> a <= b.
Proof. unfold gtb. destruct (Rlt_dec b a); [discriminate | lra]. Qed.

(** [_categorical_sample] inverts the cumulative distribution. For a draw
    of at most one, the index it returns for a row is the first one whose
    cumulative probability reaches the draw, and the last index of the row
    when no earlier one does, whatever the row sums to: every cumulative
    probability before the returned index lies strictly below the draw, and
    unless the returned index is the last one, its own reaches the draw. *)
Theorem categorical_sample_row_inverse_cdf (rnd : R) (probs : list R) :
  probs <> [] -> rnd <= 1 ->
  (categorical_sample_row rnd probs < length probs)%nat
  /\ (forall j, (j < categorical_sample_row rnd probs)%nat ->
                nth j (cumsum probs) 0 < rnd)
  /\ ((categorical_sample_row rnd probs < length probs - 1)%nat ->
      rnd <= nth (categorical_sample_row rnd probs) (cumsum probs) 0).
Proof.
  intros Hne Hrnd.
  assert (Hlen : length (cumsum_from 0 probs) = length probs)
    by apply PolicyProps.cumsum_from_length.
  assert (Heq : categorical_sample_row rnd probs
                = argmin (map (gtb rnd) (removelast (cumsum_from 0 probs))
                          ++ [false])).
  { unfold categorical_sample_row, cumsum, set_last.
    destruct (cumsum_from 0 probs) as [|c cs];
      [destruct probs; [congruence | discriminate]|].
    rewrite map_app. simpl map at 2.
    rewrite (PolicyProps.gtb_false) by exact Hrnd. reflexivity. }
  rewrite Heq. clear Heq. unfold cumsum.
  destruct (cumsum_from 0 probs) as [|c cs] eqn:E.
  { destruct probs; [congruence | discriminate]. }
  destruct (first_false_app_false (map (gtb rnd) (removelast (c :: cs))))
    as [i [Hi [Hle [Hbefore Hat]]]].
  unfold argmin. rewrite Hi.
  rewrite length_map, length_removelast_cons in Hle, Hat.
  simpl length in Hlen.
  assert (Hnth : forall j, (j < length cs)%nat ->
                   nth j (map (gtb rnd) (removelast (c :: cs))) false
                   = gtb rnd (nth j (c :: cs) 0)).
  { intros j Hj.
    rewrite (nth_indep _ false (gtb rnd 0))
      by (rewrite length_map, length_removelast_cons; exact Hj).
    rewrite map_nth, nth_removelast
      by (rewrite length_removelast_cons; exact Hj).
    reflexivity. }
  split; [lia|]. split.
  - intros j Hj. apply gtb_true_inv. rewrite <- Hnth by lia.
    apply Hbefore. exact Hj.
  - intros Hlast. assert (Hi' : (i < length cs)%nat) by lia.
    apply gtb_false_inv. rewrite <- Hnth by exact Hi'.
    rewrite (nth_indep _ false true)
      by (rewrite length_map, length_removelast_cons; exact Hi').
    apply Hat. exact Hi'.
Qed.

Lemma categorical_sample_row_inverse_cdf_witness :
  categorical_sample_row (999 / 1000) [1 / 4; 1 / 4; 1 / 4] = 2%nat.
Proof.
  destruct (@categorical_sample_row_inverse_cdf (999 / 1000)
              [1 / 4; 1 / 4; 1 / 4]) as [Hlt [_ Hat]].
  - discriminate.
  - lra.
  - simpl length in Hlt, Hat.
    destruct (categorical_sample_row (999 / 1000) [1 / 4; 1 / 4; 1 / 4])
      as [|[|[|k]]]; [| |reflexivity|lia].
    + assert (H : (0 < 3 - 1)%nat) by (simpl; lia).
      specialize (Hat H). simpl in Hat. lra.
    + assert (H : (1 < 3 - 1)%nat) by (simpl; lia).
      specialize (Hat H). simpl in Hat. lra.
Defined.

(** ** The greedy distribution *)

Lemma qeqb_eq (a b : qval) : qeqb a b = true <-> a = b.
Proof.
  destruct a as [|x], b as [|y]; simpl; split; intros H;
    try reflexivity; try discriminate.
  - destruct (Req_dec_T x y); [subst; reflexivity | discriminate].
  - injection H as ->. destruct (Req_dec_T y y); [reflexivity | contradiction].
Qed.

Lemma qle_refl (a : qval) : qle a a = true.
Proof.
  destruct a as [|x]; simpl; [reflexivity|].
  destruct (Rle_dec x x); [reflexivity | lra].
Qed.

Lemma qle_trans (a b c : qval) :
  qle a b = true -> qle b c = true -> qle a c = true.
Proof.
  destruct a as [|x], b as [|y], c as [|z]; simpl; try congruence.
  destruct (Rle_dec x y), (Rle_dec y z), (Rle_dec x z); try congruence. lra.
Qed.

Lemma qmax_ge (l : list qval) (x : qval) :
  In x l -> qle x (qmax l) = true.
Proof.
  induction l as [|y t IH]; intros H; [contradiction|].
  change (qmax (y :: t)) with (qmax2 y (qmax t)). unfold qmax2.
  destruct (qle y (qmax t)) eqn:E.
  - destruct H as [<-|H]; [exact E | apply IH; exact H].
  - destruct H as [<-|H]; [apply qle_refl|].
    eapply qle_trans; [apply IH; exact H|].
    apply PolicyProps.qle_total. exact E.
Qed.

Lemma qargmax_lt (row : list qval) :
  row <> [] -> (qargmax row < length row)%nat.
Proof.
  induction row as [|x t IH]; intros H; [congruence|].
  simpl. destruct (qle (qmax t) x) eqn:E; [lia|].
  destruct t as [|y t']; [simpl in E; discriminate|].
  assert (qargmax (y :: t') < length (y :: t'))%nat by (apply IH; discriminate).
  lia.
Qed.

Lemma qmax_in (row : list qval) : row <> [] -> In (qmax row) row.
Proof.
  intros H. rewrite <- (PolicyProps.qargmax_attains row).
  apply nth_In. apply qargmax_lt. exact H.
Qed.

Lemma sum_map_div (s : R) (l : list R) :
  sum (map (fun o => o / s) l) = sum l / s.
Proof.
  induction l as [|x l IH]; simpl; [lra|]. rewrite IH. lra.
Qed.

Lemma sum_indicator (f : qval -> bool) (l : list qval) :
  sum (map (fun x => b2r (f x)) l) = INR (length (filter f l)).
Proof.
  induction l as [|x l IH]; [reflexivity|].
  simpl map. simpl sum. simpl filter. rewrite IH.
  destruct (f x); simpl b2r.
  - change (length (x :: filter f l)) with (S (length (filter f l))).
    rewrite S_INR. lra.
  - lra.
Qed.

Lemma count_max_pos (row : list qval) :
  row <> [] -> (0 < count_max row)%nat.
Proof.
  intros H. unfold count_max.
  assert (Hin : In (qmax row) (filter (fun x => qeqb x (qmax row)) row)).
  { apply filter_In. split; [apply qmax_in; exact H | apply qeqb_eq; reflexivity]. }
  destruct (filter _ row); [contradiction | simpl; lia].
Qed.

Lemma argmax_row_uniform (row : list qval) :
  row <> [] ->
  argmax_with_random_tie_breaking_row row
  = map (fun x => if qeqb x (qmax row) then 1 / INR (count_max row) else 0)
        row
  /\ (0 < count_max row)%nat
  /\ sum (argmax_with_random_tie_breaking_row row) = 1.
Proof.
  intros H. pose proof (count_max_pos H) as Hk.
  assert (HR : 0 < INR (count_max row)) by (apply lt_0_INR; exact Hk).
  unfold argmax_with_random_tie_breaking_row.
  rewrite (sum_indicator (fun x => qeqb x (qmax row)) row).
  fold (count_max row).
  split; [|split; [exact Hk|]].
  - rewrite map_map. apply map_ext. intros x.
    destruct (qeqb x (qmax row)); simpl; lra.
  - rewrite sum_map_div, (sum_indicator (fun x => qeqb x (qmax row)) row).
    fold (count_max row). field. lra.
Qed.

(** [_argmax_with_random_tie_breaking] puts the same probability, one over
    the number of maxima, on every entry that holds the row maximum and zero
    on every other entry; on a row that is not empty these sum to one. *)
Theorem argmax_tie_breaking_uniform (row : list qval) :
  row <> [] ->
  argmax_with_random_tie_breaking_row row
  = map (fun x => if qeqb x (qmax row) then 1 / INR (count_max row) else 0)
        row
  /\ (0 < count_max row)%nat
  /\ sum (argmax_with_random_tie_breaking_row row) = 1.
Proof. exact (@argmax_row_uniform row). Qed.

Lemma argmax_tie_breaking_uniform_witness :
  argmax_with_random_tie_breaking_row [Fin 2; NegInf; Fin 2]
  = map (fun x => if qeqb x (qmax [Fin 2; NegInf; Fin 2])
                  then 1 / INR (count_max [Fin 2; NegInf; Fin 2]) else 0)
        [Fin 2; NegInf; Fin 2].
Proof.
  destruct (@argmax_tie_breaking_uniform [Fin 2; NegInf; Fin 2]) as [H _].
  - discriminate.
  - exact H.
Defined.

(** ** Mixing with the uniform distribution over the legal actions *)

Lemma nth_map2 {A B C : Type} (f : A -> B -> C) (l : list A) (m : list B)
  (i : nat) (d : C) (da : A) (db : B) :
  (i < length l)%nat -> (i < length m)%nat ->
  nth i (map2 f l m) d = f (nth i l da) (nth i m db).
Proof.
  revert m i. induction l as [|x l IH]; intros [|y m] i Hl Hm;
    simpl in *; try lia.
  destruct i as [|i]; [reflexivity|].
  change (nth i (map2 f l m) d = f (nth i l da) (nth i m db)).
  apply IH; lia.
Qed.

Lemma sum_map2_linear (a b : R) (l m : list R) :
  length l = length m ->
  sum (map2 (fun p u => a * p + b * u) l m) = a * sum l + b * sum m.
Proof.
  revert m. induction l as [|x l IH]; intros [|y m] H; try discriminate.
  - simpl. lra.
  - rewrite PolicyProps.map2_cons. simpl sum.
    rewrite IH by (simpl in H; lia). lra.
Qed.

Lemma map2_nonneg (a b : R) (l m : list R) :
  0 <= a -> 0 <= b ->
  Forall (fun p => 0 <= p) l -> Forall (fun p => 0 <= p) m ->
  Forall (fun p => 0 <= p) (map2 (fun p u => a * p + b * u) l m).
Proof.
  intros Ha Hb Hl. revert m. induction Hl as [|x l Hx _ IH]; intros m Hm.
  - constructor.
  - destruct Hm as [|y m Hy Hm]; [constructor|].
    rewrite PolicyProps.map2_cons. constructor; [nra | apply IH; exact Hm].
Qed.

Lemma in_le_sum (l : list R) (x : R) :
  Forall (fun p => 0 <= p) l -> In x l -> x <= sum l.
Proof.
  intros H. induction H as [|y l Hy Hl IH]; intros Hin; [contradiction|].
  simpl. assert (0 <= sum l).
  { clear IH Hin. induction Hl; simpl; lra. }
  destruct Hin as [<-|Hin]; [lra | specialize (IH Hin); lra].
Qed.

Lemma b2r_nonneg (l : list bool) : Forall (fun p => 0 <= p) (map b2r l).
Proof.
  induction l as [|b l IH]; simpl; constructor; [|exact IH].
  destruct b; simpl; lra.
Qed.

Lemma num_legal_pos (legal : list bool) :
  In true legal -> 1 <= sum (map b2r legal).
Proof.
  intros H. apply in_le_sum; [apply b2r_nonneg|].
  apply in_map_iff. exists true. split; [reflexivity | exact H].
Qed.

Lemma uniform_probs_row (legal : list bool) :
  In true legal ->
  sum (map (fun b => b2r b / sum (map b2r legal)) legal) = 1
  /\ Forall (fun p => 0 <= p)
            (map (fun b => b2r b / sum (map b2r legal)) legal).
Proof.
  intros H. pose proof (num_legal_pos legal H) as Hn.
  split.
  - rewrite <- (map_map b2r (fun o => o / sum (map b2r legal))).
    rewrite sum_map_div. field. lra.
  - apply Forall_forall. intros p Hp. apply in_map_iff in Hp.
    destruct Hp as [b [<- _]].
    apply Rmult_le_pos; [destruct b; simpl; lra|].
    left. apply Rinv_0_lt_compat. lra.
Qed.

Lemma mix_row_mass (probs : list R) (epsilon : R) (legal : list bool) :
  length probs = length legal -> In true legal ->
  sum (mix_with_legal_uniform_row probs epsilon legal)
  = (1 - epsilon) * sum probs + epsilon
  /\ length (mix_with_legal_uniform_row probs epsilon legal) = length legal
  /\ (forall i, nth i legal true = false ->
                nth i (mix_with_legal_uniform_row probs epsilon legal) 0
                = (1 - epsilon) * nth i probs 0).
Proof.
  intros Hlen Hin. unfold mix_with_legal_uniform_row.
  destruct (uniform_probs_row legal Hin) as [Hsum _].
  split; [|split].
  - rewrite sum_map2_linear by (rewrite length_map; exact Hlen).
    rewrite Hsum. lra.
  - rewrite AgentProps.map2_length, length_map. lia.
  - intros i Hi.
    destruct (Nat.lt_ge_cases i (length legal)) as [Hlt|Hge].
    + rewrite (@nth_map2 _ _ _ _ _ _ i 0 0 0)
        by (rewrite ?length_map; lia).
      rewrite (nth_indep (map (fun b => b2r b / sum (map b2r legal)) legal)
                 0 ((fun b => b2r b / sum (map b2r legal)) false))
        by (rewrite length_map; lia).
      rewrite (map_nth (fun b => b2r b / sum (map b2r legal))).
      assert (E : nth i legal false = false).
      { rewrite (nth_indep legal false true Hlt). exact Hi. }
      rewrite E. simpl b2r. lra.
    + rewrite (nth_overflow legal true Hge) in Hi. discriminate.
Qed.

(** [_mix_with_legal_uniform] keeps the total mass of a distribution: on a
    row with at least one legal action the mixture sums to
    [(1 - epsilon) * sum(probs) + epsilon], and an illegal action keeps only
    the share [(1 - epsilon) * probs] of what it had. *)
Theorem mix_with_legal_uniform_mass
  (probs : list R) (epsilon : R) (legal : list bool) :
  length probs = length legal -> In true legal ->
  sum (mix_with_legal_uniform_row probs epsilon legal)
  = (1 - epsilon) * sum probs + epsilon
  /\ length (mix_with_legal_uniform_row probs epsilon legal) = length legal
  /\ (forall i, nth i legal true = false ->
                nth i (mix_with_legal_uniform_row probs epsilon legal) 0
                = (1 - epsilon) * nth i probs 0).
Proof. exact (@mix_row_mass probs epsilon legal). Qed.

Lemma mix_with_legal_uniform_mass_witness :
  sum (mix_with_legal_uniform_row [1; 0; 0] (1 / 10) [true; true; false])
  = (1 - 1 / 10) * sum [1; 0; 0] + 1 / 10.
Proof.
  destruct (@mix_with_legal_uniform_mass [1; 0; 0] (1 / 10)
              [true; true; false]) as [H _].
  - reflexivity.
  - simpl. auto.
  - exact H.
Defined.

(** ** Both exploration distributions live on the legal actions *)

Lemma mask_row_length (row : list bool) (q : list R) :
  length q = length row -> length (mask_row row q) = length row.
Proof. intros H. unfold mask_row. rewrite AgentProps.map2_length. lia. Qed.

Lemma mask_row_nth (row : list bool) (q : list R) (i : nat) :
  length q = length row -> (i < length row)%nat ->
  nth i (mask_row row q) NegInf
  = if nth i row false then Fin (nth i q 0) else NegInf.
Proof.
  intros H Hi. unfold mask_row.
  rewrite (@nth_map2 _ _ _ (fun (b : bool) x => if b then Fin x else NegInf)
             row q i NegInf false 0) by lia.
  reflexivity.
Qed.

(** A masked row with a legal action has a finite maximum. *)
Lemma mask_row_qmax (row : list bool) (q : list R) :
  length q = length row -> In true row ->
  exists m, qmax (mask_row row q) = Fin m.
Proof.
  intros H Hin. destruct (In_nth row true false Hin) as [i [Hi Hn]].
  assert (Hx : In (Fin (nth i q 0)) (mask_row row q)).
  { pose proof (@mask_row_nth row q i H Hi) as E. rewrite Hn in E. rewrite <- E.
    apply nth_In. rewrite mask_row_length by exact H. exact Hi. }
  apply qmax_ge in Hx.
  destruct (qmax (mask_row row q)) as [|m]; [discriminate | eauto].
Qed.

Lemma illegal_index (row : list bool) (i : nat) :
  nth i row true = false ->
  (i < length row)%nat /\ nth i row false = false.
Proof.
  intros H. destruct (Nat.lt_ge_cases i (length row)) as [Hlt|Hge].
  - split; [exact Hlt|]. rewrite (nth_indep row false true Hlt). exact H.
  - rewrite (nth_overflow row true Hge) in H. discriminate.
Qed.

Lemma epsilon_greedy_row_support (row : list bool) (q : list R) (epsilon : R) :
  0 <= epsilon <= 1 -> length q = length row -> In true row ->
  legal_support row
    (mix_with_legal_uniform_row
       (argmax_with_random_tie_breaking_row (mask_row row q)) epsilon row).
Proof.
  intros He Hlen Hin.
  pose proof (@mask_row_length row q Hlen) as HM.
  assert (Hne : mask_row row q <> []).
  { intros E. rewrite E in HM. destruct row; [contradiction | discriminate]. }
  destruct (@argmax_row_uniform _ Hne) as [HA [Hk HsumA]].
  assert (HR : 0 < INR (count_max (mask_row row q)))
    by (apply lt_0_INR; exact Hk).
  assert (HlenA : length (argmax_with_random_tie_breaking_row (mask_row row q))
                  = length row).
  { rewrite HA, length_map. exact HM. }
  destruct (@mix_row_mass _ epsilon row HlenA Hin) as [Hsum [Hl Hill]].
  destruct (@mask_row_qmax row q Hlen Hin) as [m Hm].
  unfold legal_support. split; [exact Hl|]. split; [|split].
  - unfold mix_with_legal_uniform_row. apply map2_nonneg; try lra.
    + rewrite HA. apply Forall_forall. intros p Hp.
      apply in_map_iff in Hp. destruct Hp as [x [<- _]].
      destruct (qeqb x _); [|lra].
      apply Rmult_le_pos; [lra|]. left. apply Rinv_0_lt_compat. exact HR.
    + apply uniform_probs_row. exact Hin.
  - rewrite Hsum, HsumA. lra.
  - intros i Hi. rewrite (Hill i Hi).
    destruct (illegal_index row i Hi) as [Hlt Hf].
    rewrite HA.
    rewrite (nth_indep _ 0
               ((fun x => if qeqb x (qmax (mask_row row q))
                          then 1 / INR (count_max (mask_row row q)) else 0)
                  NegInf))
      by (rewrite length_map, HM; exact Hlt).
    rewrite (map_nth (fun x => if qeqb x (qmax (mask_row row q))
                               then 1 / INR (count_max (mask_row row q))
                               else 0)).
    rewrite (@mask_row_nth row q i Hlen Hlt), Hf, Hm. simpl. lra.
Qed.

Lemma positive_entry_sum (l : list R) (i : nat) :
  Forall (fun p => 0 <= p) l -> 0 < nth i l 0 -> 0 < sum l.
Proof.
  intros H Hp.
  destruct (Nat.lt_ge_cases i (length l)) as [Hlt|Hge].
  - pose proof (@in_le_sum l (nth i l 0) H (nth_In l 0 Hlt)). lra.
  - rewrite (nth_overflow l 0 Hge) in Hp. lra.
Qed.

Lemma boltzmann_row_support (row : list bool) (q : list R) (tau : R) :
  0 < tau -> length q = length row -> In true row ->
  legal_support row (apply_legal_boltzmann_row (mask_row row q) tau row).
Proof.
  intros Ht Hlen Hin. unfold apply_legal_boltzmann_row.
  set (W := map (fun p => qdiv p tau) (mask_row row q)).
  assert (HW : length W = length row).
  { unfold W. rewrite length_map. apply mask_row_length. exact Hlen. }
  assert (HWn : forall i, (i < length row)%nat ->
                nth i W NegInf
                = if nth i row false then Fin (nth i q 0 / tau) else NegInf).
  { intros i Hi. unfold W.
    pose proof (map_nth (fun p => qdiv p tau) (mask_row row q) NegInf i)
      as E.
    cbn beta in E. change (qdiv NegInf tau) with NegInf in E. rewrite E.
    rewrite (@mask_row_nth row q i Hlen Hi). destruct (nth i row false); reflexivity. }
  destruct (In_nth row true false Hin) as [j [Hj Hjn]].
  assert (Hmax : exists m, qmax W = Fin m).
  { assert (Hx : In (Fin (nth j q 0 / tau)) W).
    { pose proof (HWn j Hj) as E. rewrite Hjn in E. rewrite <- E.
      apply nth_In. rewrite HW. exact Hj. }
    apply qmax_ge in Hx. destruct (qmax W) as [|m]; [discriminate | eauto]. }
  destruct Hmax as [m Hm]. rewrite Hm.
  set (B := map2 (fun (b : bool) w => if b then qexp_sub w (Fin m) else 0)
                 row W).
  assert (HB : length B = length row).
  { unfold B. rewrite AgentProps.map2_length. lia. }
  assert (HBn : forall i, (i < length row)%nat ->
                nth i B 0
                = if nth i row false then qexp_sub (nth i W NegInf) (Fin m)
                  else 0).
  { intros i Hi. unfold B.
    rewrite (@nth_map2 _ _ _
               (fun (b : bool) w => if b then qexp_sub w (Fin m) else 0)
               row W i 0 false NegInf) by lia.
    reflexivity. }
  assert (HBpos : Forall (fun p => 0 <= p) B).
  { apply Forall_forall. intros p Hp.
    destruct (In_nth B p 0 Hp) as [i [Hi <-]]. rewrite HB in Hi.
    rewrite (HBn i Hi). destruct (nth i row false); [|lra].
    destruct (nth i W NegInf); simpl; [lra|]. left. apply exp_pos. }
  assert (Hs : 0 < sum B).
  { apply (@positive_entry_sum B j HBpos).
    rewrite (HBn j Hj), Hjn, (HWn j Hj), Hjn. simpl. apply exp_pos. }
  unfold legal_support. split; [rewrite length_map; exact HB|].
  split; [|split].
  - apply Forall_forall. intros p Hp. apply in_map_iff in Hp.
    destruct Hp as [b [<- Hb]]. rewrite Forall_forall in HBpos.
    apply Rmult_le_pos; [apply HBpos; exact Hb|].
    left. apply Rinv_0_lt_compat. exact Hs.
  - rewrite sum_map_div. field. lra.
  - intros i Hi. destruct (illegal_index row i Hi) as [Hlt Hf].
    rewrite (nth_indep _ 0 ((fun p => p / sum B) 0))
      by (rewrite length_map, HB; exact Hlt).
    rewrite (map_nth (fun p => p / sum B)).
    rewrite (HBn i Hlt), Hf. lra.
Qed.

Lemma exploration_rows_support
  (epsilon tau : R) (lms : list (list bool)) (q : list (list R)) :
  0 <= epsilon <= 1 -> 0 < tau ->
  Forall2 (fun (row : list bool) (qrow : list R) =>
             length qrow = length row /\ In true row) lms q ->
  Forall2 legal_support lms
          (legal_epsilon_greedy_probs epsilon (mask lms q) lms)
  /\ Forall2 legal_support lms
             (legal_softmax_probs tau (mask lms q) lms).
Proof.
  intros He Ht H.
  unfold legal_epsilon_greedy_probs, legal_softmax_probs,
    _mix_with_legal_uniform, _argmax_with_random_tie_breaking,
    _apply_legal_boltzmann, mask.
  induction H as [|row qrow lms q [Hlen Hin] _ [IH1 IH2]].
  - split; constructor.
  - rewrite !PolicyProps.map2_cons. simpl map. rewrite !PolicyProps.map2_cons.
    split; constructor; try assumption.
    + apply epsilon_greedy_row_support; assumption.
    + apply boltzmann_row_support; assumption.
Qed.

(** On masked preferences, with at least one legal action in every row, the
    probabilities of the epsilon-greedy distribution (for an epsilon between
    0 and 1) and of the Boltzmann distribution (for a positive temperature)
    are non-negative, sum to one in every row, and are zero at every illegal
    action. *)
Theorem exploration_probs_on_legal_actions
  (epsilon tau : R) (lms : list (list bool)) (q : list (list R)) :
  0 <= epsilon <= 1 -> 0 < tau ->
  Forall2 (fun (row : list bool) (qrow : list R) =>
             length qrow = length row /\ In true row) lms q ->
  Forall2 legal_support lms
          (legal_epsilon_greedy_probs epsilon (mask lms q) lms)
  /\ Forall2 legal_support lms
             (legal_softmax_probs tau (mask lms q) lms).
Proof. exact (@exploration_rows_support epsilon tau lms q). Qed.

Lemma exploration_probs_on_legal_actions_witness :
  Forall2 legal_support [[false; true; true]]
          (legal_epsilon_greedy_probs (1 / 10)
             (mask [[false; true; true]] [[9; 1; 2]])
             [[false; true; true]]).
Proof.
  destruct (@exploration_probs_on_legal_actions (1 / 10) 1
              [[false; true; true]] [[9; 1; 2]]) as [H _].
  - lra.
  - lra.
  - constructor; [|constructor]. split; [reflexivity | simpl; auto].
  - exact H.
Defined.

(** ** The sampled action is legal *)

Lemma sample_row_legal (rnd : R) (row : list bool) (probs : list R) :
  legal_support row probs -> 0 < rnd -> rnd < 1 ->
  nth (categorical_sample_row rnd probs) row false = true.
Proof.
  intros [Hlen [Hpos [Hsum Hill]]] Hlo Hhi.
  unfold categorical_sample_row, cumsum.
  replace 1 with (0 + sum probs) by lra.
  rewrite PolicyProps.set_last_cumsum.
  destruct (@PolicyProps.first_false_positive_mass rnd probs 0 Hpos Hlo)
    as [i [Hi Hm]]; [lra|].
  unfold argmin. rewrite Hi.
  destruct (nth i row false) eqn:E; [reflexivity|].
  destruct (Nat.lt_ge_cases i (length row)) as [Hlt|Hge].
  - rewrite (nth_indep row false true Hlt) in E.
    rewrite (Hill i E) in Hm. lra.
  - rewrite nth_overflow in Hm by lia. lra.
Qed.

Lemma sample_rows_legal (u : nat -> R) :
  (forall i, 0 < u i < 1) ->
  forall lms probs,
    Forall2 legal_support lms probs ->
    forall s,
      Forall2 (fun (row : list bool) a => nth a row false = true) lms
        (map (fun p => categorical_sample_row (fst p) (snd p))
             (combine (map u (seq s (length probs))) probs)).
Proof.
  intros Hu lms probs H. induction H as [|row p lms probs Hp _ IH]; intros s.
  - constructor.
  - simpl. constructor; [|apply IH].
    apply sample_row_legal; [exact Hp | apply Hu | apply Hu].
Qed.

Lemma sample_rows_legal_bounded (u : nat -> R) :
  forall lms probs,
    Forall2 legal_support lms probs ->
    forall s,
      (forall i, (s <= i < s + length probs)%nat -> 0 < u i < 1) ->
      Forall2 (fun (row : list bool) a => nth a row false = true) lms
        (map (fun p => categorical_sample_row (fst p) (snd p))
             (combine (map u (seq s (length probs))) probs)).
Proof.
  intros lms probs H. induction H as [|row p lms probs Hp _ IH]; intros s Hu.
  - constructor.
  - simpl. constructor.
    + apply sample_row_legal; [exact Hp | |]; apply Hu; simpl; lia.
    + apply IH. intros i Hi. apply Hu. simpl. lia.
Qed.

(** As [policy_rows_legal], asking only for the draws of the rows of the
    batch. *)
Lemma policy_rows_legal_bounded
  (Key Params Obs : Type) (uniform : Key -> R -> nat -> R)
  (use_distribution : bool)
  (network : Params -> Key -> Obs -> NetOut use_distribution)
  (use_softmax : bool) (atoms : list (list R)) (net_params : Params)
  (epsilon tau : R) (key : Key) (obs : Obs) (lms : list (list bool)) :
  (forall i, (i < length lms)%nat ->
             0 < uniform key (999 / 1000) i < 999 / 1000) ->
  0 <= epsilon <= 1 -> 0 < tau ->
  Forall2 (fun (row : list bool) (q : list R) =>
             length q = length row /\ In true row) lms
          (q_values use_distribution atoms (network net_params key obs)) ->
  Forall2 (fun (row : list bool) a => nth a row false = true) lms
          (snd (policy uniform use_distribution network use_softmax atoms
                       net_params epsilon tau key obs lms)).
Proof.
  intros Hu He Ht Hshape.
  destruct (exploration_rows_support He Ht Hshape) as [H1 H2].
  pose proof (Forall2_length H1) as L1.
  pose proof (Forall2_length H2) as L2.
  unfold policy. simpl snd. destruct use_softmax.
  - unfold legal_softmax_sample, _categorical_sample, with_draws.
    apply sample_rows_legal_bounded; [exact H2|].
    intros i Hi. unfold legal_softmax_probs in L2.
    assert (Hlt : (i < length lms)%nat) by lia.
    specialize (Hu i Hlt). lra.
  - unfold legal_epsilon_greedy_sample, _categorical_sample, with_draws.
    apply sample_rows_legal_bounded; [exact H1|].
    intros i Hi. unfold legal_epsilon_greedy_probs in L1.
    assert (Hlt : (i < length lms)%nat) by lia.
    specialize (Hu i Hlt). lra.
Qed.

Lemma policy_rows_legal
  (Key Params Obs : Type) (uniform : Key -> R -> nat -> R)
  (use_distribution : bool)
  (network : Params -> Key -> Obs -> NetOut use_distribution)
  (use_softmax : bool) (atoms : list (list R)) (net_params : Params)
  (epsilon tau : R) (key : Key) (obs : Obs) (lms : list (list bool)) :
  (forall i, 0 < uniform key (999 / 1000) i < 999 / 1000) ->
  0 <= epsilon <= 1 -> 0 < tau ->
  Forall2 (fun (row : list bool) (q : list R) =>
             length q = length row /\ In true row) lms
          (q_values use_distribution atoms (network net_params key obs)) ->
  Forall2 (fun (row : list bool) a => nth a row false = true) lms
          (snd (policy uniform use_distribution network use_softmax atoms
                       net_params epsilon tau key obs lms)).
Proof.
  intros Hu He Ht Hshape.
  assert (Hu' : forall i, 0 < uniform key (999 / 1000) i < 1)
    by (intros i; specialize (Hu i); lra).
  destruct (exploration_rows_support He Ht Hshape) as [H1 H2].
  unfold policy. simpl snd. destruct use_softmax.
  - unfold legal_softmax_sample, _categorical_sample, with_draws.
    apply sample_rows_legal; [exact Hu' | exact H2].
  - unfold legal_epsilon_greedy_sample, _categorical_sample, with_draws.
    apply sample_rows_legal; [exact Hu' | exact H1].
Qed.

(** [policy] never returns an illegal action when every draw of the key is
    strictly positive: with at least one legal action in every row, under
    epsilon-greedy for every epsilon between 0 and 1 and under Boltzmann
    exploration for every positive temperature, in scalar and in
    distributional mode, the action returned for a row is legal in that
    row. *)
Theorem policy_returns_legal_actions
  (Key Params Obs : Type) (uniform : Key -> R -> nat -> R)
  (use_distribution : bool)
  (network : Params -> Key -> Obs -> NetOut use_distribution)
  (use_softmax : bool) (atoms : list (list R)) (net_params : Params)
  (epsilon tau : R) (key : Key) (obs : Obs) (lms : list (list bool)) :
  (forall i, 0 < uniform key (999 / 1000) i < 999 / 1000) ->
  0 <= epsilon <= 1 -> 0 < tau ->
  Forall2 (fun (row : list bool) (q : list R) =>
             length q = length row /\ In true row) lms
          (q_values use_distribution atoms (network net_params key obs)) ->
  Forall2 (fun (row : list bool) a => nth a row false = true) lms
          (snd (policy uniform use_distribution network use_softmax atoms
                       net_params epsilon tau key obs lms)).
Proof.
  exact (@policy_rows_legal Key Params Obs uniform use_distribution network
           use_softmax atoms net_params epsilon tau key obs lms).
Qed.

Lemma policy_returns_legal_actions_witness :
  Forall2 (fun (row : list bool) a => nth a row false = true)
          [[true; true]]
          (snd (policy half_draw false (two_action_net 3 5) true [] tt
                       (1 / 10) 1 tt tt [[true; true]])).
Proof.
  apply policy_returns_legal_actions.
  - intros i. unfold half_draw. lra.
  - lra.
  - lra.
  - simpl. constructor; [|constructor]. split; [reflexivity | simpl; auto].
Defined.

(** ** Entropy *)

Lemma plogp_nonpos (p : R) : 0 <= p <= 1 -> plogp p <= 0.
Proof.
  intros [H0 H1]. unfold plogp. destruct (Rlt_dec 0 p) as [Hp|_]; [|lra].
  assert (ln p <= 0).
  { destruct (Req_dec p 1) as [->|Hne]; [rewrite ln_1; lra|].
    left. rewrite <- ln_1. apply ln_increasing; lra. }
  nra.
Qed.

Lemma entropy_row_nonneg (row : list bool) (probs : list R) :
  legal_support row probs -> 0 <= entropy_row probs.
Proof.
  intros [_ [Hpos [Hsum _]]]. unfold entropy_row.
  assert (H : sum (map plogp probs) <= 0).
  { assert (Hle : Forall (fun p => 0 <= p <= 1) probs).
    { apply Forall_forall. intros p Hp. rewrite Forall_forall in Hpos.
      split; [apply Hpos; exact Hp|].
      rewrite <- Hsum. apply in_le_sum; [apply Forall_forall; exact Hpos|].
      exact Hp. }
    clear Hpos Hsum. induction Hle as [|p l Hp _ IH]; simpl; [lra|].
    pose proof (plogp_nonpos Hp). lra. }
  lra.
Qed.

Lemma entropy_onehot (a k : nat) : entropy_row (onehot a k) = 0.
Proof.
  unfold entropy_row, onehot.
  rewrite map_app, map_cons, !PolicyProps.map_repeat.
  assert (E0 : plogp 0 = 0).
  { unfold plogp. destruct (Rlt_dec 0 0); [lra | reflexivity]. }
  assert (E1 : plogp 1 = 0).
  { unfold plogp. destruct (Rlt_dec 0 1); [rewrite ln_1; lra | reflexivity]. }
  rewrite E0, E1.
  change (repeat 0 a ++ 0 :: repeat 0 k) with (repeat 0 a ++ repeat 0 (S k)).
  rewrite PolicyProps.sum_app, !PolicyProps.sum_repeat_zero. lra.
Qed.

Lemma entropy_rows_nonneg (lms : list (list bool)) (probs : list (list R)) :
  Forall2 legal_support lms probs ->
  Forall (fun h => 0 <= h) (map entropy_row probs).
Proof.
  intros Hp. induction Hp as [|row p l probs Hrow _ IH]; simpl.
  - constructor.
  - constructor; [eapply entropy_row_nonneg; exact Hrow | exact IH].
Qed.

Lemma entropy_rows_onehot (probs : list (list R)) (idx : list nat) :
  Forall2 (fun p a => exists k, p = onehot a k) probs idx ->
  Forall (fun h => h = 0) (map entropy_row probs).
Proof.
  intros Hp. induction Hp as [|p a probs idx' [k ->] _ IH]; simpl.
  - constructor.
  - constructor; [apply entropy_onehot | exact IH].
Qed.

(** The entropy both distributions report is never negative, and it is zero
    in every row that has exactly one legal action. *)
Theorem exploration_entropy
  (epsilon tau : R) (lms : list (list bool)) (q : list (list R)) :
  0 <= epsilon <= 1 -> 0 < tau ->
  Forall2 (fun (row : list bool) (qrow : list R) =>
             length qrow = length row /\ In true row) lms q ->
  Forall (fun h => 0 <= h)
         (legal_epsilon_greedy_entropy epsilon (mask lms q) lms)
  /\ Forall (fun h => 0 <= h)
            (legal_softmax_entropy tau (mask lms q) lms)
  /\ (forall idx, Forall2 single_legal lms idx ->
       Forall (fun h => h = 0)
              (legal_epsilon_greedy_entropy epsilon (mask lms q) lms)
       /\ Forall (fun h => h = 0)
                 (legal_softmax_entropy tau (mask lms q) lms)).
Proof.
  intros He Ht H.
  destruct (exploration_rows_support He Ht H) as [H1 H2].
  split; [eapply entropy_rows_nonneg; exact H1|].
  split; [eapply entropy_rows_nonneg; exact H2|].
  intros idx Hidx.
  assert (Hq : Forall2 (fun (row : list bool) (qrow : list R) =>
                          length qrow = length row) lms q).
  { eapply Forall2_impl; [|exact H]. intros a b [Hab _]. exact Hab. }
  split; apply (@entropy_rows_onehot _ idx).
  - apply PolicyProps.epsilon_greedy_rows_onehot; assumption.
  - apply PolicyProps.boltzmann_rows_onehot; assumption.
Qed.

Lemma exploration_entropy_witness :
  Forall (fun h => 0 <= h)
         (legal_epsilon_greedy_entropy (1 / 10)
            (mask [[false; true; true]] [[9; 1; 2]])
            [[false; true; true]]).
Proof.
  destruct (@exploration_entropy (1 / 10) 1
              [[false; true; true]] [[9; 1; 2]]) as [H _].
  - lra.
  - lra.
  - constructor; [|constructor]. split; [reflexivity | simpl; auto].
  - exact H.
Defined.

End DistributionProps.

Module LearningMore.
Local Open Scope R_scope.
Import Arr DQNLearning Weights Concrete.

(** ** Importance-sampling weights *)

Lemma fold_Rmax_ge_init (l : list R) (x : R) : x <= fold_left Rmax l x.
Proof.
  revert x. induction l as [|y l IH]; intros x; simpl; [lra|].
  eapply Rle_trans; [apply (Rmax_l x y) | apply IH].
Qed.

Lemma fold_Rmax_ge (l : list R) (x y : R) :
  In y l -> y <= fold_left Rmax l x.
Proof.
  revert x. induction l as [|z l IH]; intros x H; [contradiction|].
  simpl. destruct H as [<-|H]; [|apply IH; exact H].
  eapply Rle_trans; [apply (Rmax_r x z) | apply fold_Rmax_ge_init].
Qed.

Lemma rmax_ge (l : list R) (y : R) : In y l -> y <= rlax.rmax l.
Proof.
  destruct l as [|x l]; intros H; [contradiction|]. simpl.
  destruct H as [<-|H]; [apply fold_Rmax_ge_init | apply fold_Rmax_ge; exact H].
Qed.

Lemma fold_Rmax_div (s : R) (l : list R) (x : R) :
  0 < s ->
  fold_left Rmax (map (fun w => w / s) l) (x / s) = fold_left Rmax l x / s.
Proof.
  intros Hs. revert x. induction l as [|y l IH]; intros x; [reflexivity|].
  simpl. rewrite <- IH. f_equal.
  unfold Rmax. destruct (Rle_dec (x / s) (y / s)) as [H1|H1],
    (Rle_dec x y) as [H2|H2]; try reflexivity; exfalso.
  - apply H2. apply (Rmult_le_reg_r (/ s)); [apply Rinv_0_lt_compat; lra|].
    exact H1.
  - apply H1. apply Rmult_le_compat_r; [|exact H2].
    left. apply Rinv_0_lt_compat. lra.
Qed.

Lemma rmax_div (s : R) (l : list R) :
  0 < s -> l <> [] -> rlax.rmax (map (fun w => w / s) l) = rlax.rmax l / s.
Proof.
  intros Hs Hne. destruct l as [|x l]; [congruence|].
  simpl. apply fold_Rmax_div. exact Hs.
Qed.

Lemma rmax_pos (l : list R) :
  l <> [] -> Forall (fun w => 0 < w) l -> 0 < rlax.rmax l.
Proof.
  intros Hne H. destruct l as [|x l]; [congruence|].
  inversion H; subst. simpl.
  pose proof (fold_Rmax_ge_init l x). lra.
Qed.

Section WeightsInLoss.

Variables Key Obs : Type.
Variable use_distribution : bool.
Variable network : list R -> Key -> Obs -> DQNPolicy.NetOut use_distribution.
Variable categorical_l2_project : list R -> list R -> list R -> list R.
Variable categorical_cross_entropy : list R -> list R -> R.
Variables key_online key_target key_selector : Key.
Variable atoms : list (list R).

(** For priorities that are all positive, the weights the loss multiplies
    the per-sample errors with are all positive, none exceeds one, and
    their maximum is exactly one. *)
Theorem importance_weights_normalised
  (beta_is : R) (use_double_q : bool) (online_params trg_params : list R)
  (obs_tm1 : Obs) (a_tm1 : list nat) (r_t : list R) (obs_t : Obs)
  (term_t : list (list bool)) (discount_t : R) (prios : list R) :
  prios <> [] -> Forall (fun p => 0 < p) prios ->
  fst (loss use_distribution network categorical_l2_project
            categorical_cross_entropy key_online key_target key_selector
            atoms beta_is use_double_q online_params trg_params
            obs_tm1 a_tm1 r_t obs_t term_t discount_t prios)
  = mean (map2 Rmult
            (q_loss_td use_distribution network categorical_l2_project
               categorical_cross_entropy key_online key_target key_selector
               atoms use_double_q online_params trg_params
               obs_tm1 a_tm1 r_t obs_t term_t discount_t)
            (importance_weights beta_is prios))
  /\ Forall (fun w => 0 < w <= 1) (importance_weights beta_is prios)
  /\ rlax.rmax (importance_weights beta_is prios) = 1.
Proof.
  intros Hne Hpos. split; [reflexivity|].
  unfold importance_weights.
  set (raw := map (fun p => Rpower (1 / p) beta_is) prios).
  assert (Hraw : Forall (fun w => 0 < w) raw).
  { apply Forall_forall. intros w Hw. apply in_map_iff in Hw.
    destruct Hw as [p [<- _]]. unfold Rpower. apply exp_pos. }
  assert (Hrne : raw <> []).
  { unfold raw. destruct prios; [congruence | discriminate]. }
  pose proof (rmax_pos Hrne Hraw) as HM.
  split.
  - apply Forall_forall. intros w Hw. apply in_map_iff in Hw.
    destruct Hw as [r [<- Hr]].
    rewrite Forall_forall in Hraw. pose proof (Hraw r Hr) as Hr0.
    pose proof (rmax_ge raw r Hr) as Hle.
    split.
    + apply Rmult_lt_0_compat; [exact Hr0 | apply Rinv_0_lt_compat; exact HM].
    + apply (Rmult_le_reg_r (rlax.rmax raw)); [exact HM|].
      unfold Rdiv. rewrite Rmult_assoc, Rinv_l by lra. lra.
  - rewrite rmax_div by assumption. field. lra.
Qed.

End WeightsInLoss.

Lemma importance_weights_normalised_witness :
  rlax.rmax (importance_weights (1 / 2) [1; 4]) = 1.
Proof.
  destruct (@importance_weights_normalised unit unit false zero_net
              no_project no_cross_entropy tt tt tt [] (1 / 2) false
              [0] [0] tt [0%nat] [0] tt [[false]] (99 / 100) [1; 4])
    as [_ [_ H]].
  - discriminate.
  - repeat constructor; lra.
  - exact H.
Defined.

(** ** Uniform priorities *)



(** ** The first step of the optimizer *)

Lemma map2_const_r {A B C : Type} (f : A -> B -> C) (c : B)
  (l : list A) (m : list B) :
  length l = length m -> Forall (fun y => y = c) m ->
  map2 f l m = map (fun x => f x c) l.
Proof.
  revert m. induction l as [|x l IH]; intros [|y m] Hlen H;
    try discriminate; [reflexivity|].
  inversion H; subst. rewrite PolicyProps.map2_cons. simpl. f_equal.
  apply IH; [simpl in Hlen; lia | assumption].
Qed.

Lemma map2_map_same {A B C D : Type} (f : B -> C -> D) (g : A -> B)
  (h : A -> C) (l : list A) :
  map2 f (map g l) (map h l) = map (fun x => f (g x) (h x)) l.
Proof.
  induction l as [|x l IH]; [reflexivity|].
  simpl map. rewrite PolicyProps.map2_cons, IH. reflexivity.
Qed.

Lemma map2_map_r {A B C D : Type} (f : A -> C -> D) (g : B -> C)
  (l : list A) (m : list B) :
  map2 f l (map g m) = map2 (fun x y => f x (g y)) l m.
Proof.
  revert m. induction l as [|x l IH]; intros [|y m]; try reflexivity.
  simpl map. rewrite !PolicyProps.map2_cons, IH. reflexivity.
Qed.

Lemma zeros_like (params : list R) :
  Forall (fun y => y = 0) (map (fun _ : R => 0) params).
Proof. induction params; simpl; constructor; auto. Qed.

Lemma adam_first_step (b1 b2 eps : R) (grads params : list R) :
  0 < b1 < 1 -> 0 < b2 < 1 -> length grads = length params ->
  fst (custom_adam b1 b2 eps 0 grads (optax.scale_by_adam_init params))
  = map (fun g => g / (Rabs g + eps)) grads.
Proof.
  intros Hb1 Hb2 Hlen.
  unfold custom_adam, optax.scale_by_adam_update, optax.scale_by_adam_init.
  cbn [fst optax.mu optax.nu optax.count].
  rewrite (@map2_const_r _ _ _ (fun g t => (1 - b1) * g + b1 * t) 0)
    by (rewrite ?length_map; auto using zeros_like).
  rewrite (@map2_const_r _ _ _ (fun g t => (1 - b2) * (g * g) + b2 * t) 0)
    by (rewrite ?length_map; auto using zeros_like).
  rewrite !map_map, map2_map_same.
  apply map_ext. intros g.
  replace (((1 - b1) * g + b1 * 0) / (1 - b1 ^ 1)) with g
    by (simpl; field; lra).
  replace (((1 - b2) * (g * g) + b2 * 0) / (1 - b2 ^ 1) + 0) with (Rsqr g)
    by (unfold Rsqr; simpl; field; lra).
  rewrite sqrt_Rsqr_abs. reflexivity.
Qed.

Lemma adam_unit_step (eps g : R) :
  0 < eps -> Rabs (g / (Rabs g + eps)) < 1 /\ 0 <= g * (g / (Rabs g + eps)).
Proof.
  intros He. pose proof (Rabs_pos g) as Hg.
  assert (Hd : 0 < Rabs g + eps) by lra.
  split.
  - unfold Rdiv. rewrite Rabs_mult, (Rabs_inv (Rabs g + eps)).
    rewrite (Rabs_pos_eq (Rabs g + eps)) by lra.
    apply (Rmult_lt_reg_r (Rabs g + eps)); [exact Hd|].
    rewrite Rmult_assoc, Rinv_l by lra. lra.
  - unfold Rdiv. rewrite <- Rmult_assoc.
    apply Rmult_le_pos; [nra|]. left. apply Rinv_0_lt_compat. exact Hd.
Qed.

Section FirstStep.

Variables Key Obs : Type.
Variable use_distribution : bool.
Variable network : list R -> Key -> Obs -> DQNPolicy.NetOut use_distribution.
Variable grad : (list R -> R) -> list R -> list R.
Variable categorical_l2_project : list R -> list R -> list R -> list R.
Variable categorical_cross_entropy : list R -> list R -> R.
Variables key_online key_target key_selector : Key.
Variable atoms : list (list R).

(** The first learning step under [custom_adam], from the optimizer state
    [optimizer.init] builds: a parameter with gradient [g] moves by
    [lr * g / (|g| + eps)]. The size of the move is below [|lr|] whatever
    the size of the gradient, and for a stored learning rate that is
    negative or zero the move is never along the gradient: the step is a
    descent step. *)
Theorem first_step_is_bounded_descent
  (b1 b2 eps lr : R) (online_params trg_params : list R)
  (transitions : Transitions Obs) (discount_t : R) (prios : list R)
  (beta_is : R) (use_double_q : bool) :
  let loss_at := fun p =>
    loss use_distribution network
         categorical_l2_project categorical_cross_entropy
         key_online key_target key_selector atoms beta_is use_double_q
         p trg_params transitions.(observation_tm1)
         (col0 0%nat transitions.(action_tm1))
         (col0 0 transitions.(reward_t))
         transitions.(observation_t) transitions.(terminal_t)
         discount_t prios in
  let grads := grad (fun p => fst (loss_at p)) online_params in
  0 < b1 < 1 -> 0 < b2 < 1 -> 0 < eps ->
  length grads = length online_params ->
  fst (fst (update_q use_distribution network grad
              (custom_adam b1 b2 eps 0)
              categorical_l2_project categorical_cross_entropy
              key_online key_target key_selector atoms
              lr online_params trg_params
              (optax.scale_by_adam_init online_params)
              transitions discount_t prios beta_is use_double_q))
  = map2 (fun p g => p + lr * (g / (Rabs g + eps))) online_params grads
  /\ (forall g, Rabs (lr * (g / (Rabs g + eps))) <= Rabs lr)
  /\ (forall g, lr <> 0 -> Rabs (lr * (g / (Rabs g + eps))) < Rabs lr)
  /\ (forall g, lr <= 0 -> g * (lr * (g / (Rabs g + eps))) <= 0).
Proof.
  intros loss_at grads Hb1 Hb2 He Hlen.
  split; [|split; [|split]].
  - subst loss_at grads.
    rewrite LearningProps.update_q_unfold. cbv zeta. cbn [fst].
    rewrite (@adam_first_step b1 b2 eps _ online_params Hb1 Hb2 Hlen).
    apply (@map2_map_r _ _ _ _ (fun p u => p + lr * u)
             (fun g => g / (Rabs g + eps))).
  - intros g. destruct (@adam_unit_step eps g He) as [H _].
    rewrite Rabs_mult. pose proof (Rabs_pos lr). nra.
  - intros g Hlr. destruct (@adam_unit_step eps g He) as [H _].
    rewrite Rabs_mult. pose proof (Rabs_pos_lt lr Hlr). nra.
  - intros g Hlr. destruct (@adam_unit_step eps g He) as [_ H]. nra.
Qed.

End FirstStep.

Lemma first_step_is_bounded_descent_witness :
  fst (fst (@update_q unit unit _ false zero_net (const_grad [1])
              agent_adam no_project no_cross_entropy tt tt tt []
              (-2) [0] [0] (optax.scale_by_adam_init [0])
              (one_transition tt 0 false) (99 / 100) [1] 1 false))
  = map2 (fun p g => p + -2 * (g / (Rabs g + 3125 / 100000000))) [0] [1].
Proof.
  destruct (@first_step_is_bounded_descent unit unit false zero_net
              (const_grad [1]) no_project no_cross_entropy tt tt tt []
              (9 / 10) (999 / 1000) (3125 / 100000000) (-2) [0] [0]
              (one_transition tt 0 false) (99 / 100) [1] 1 false)
    as [H _].
  - lra.
  - lra.
  - lra.
  - reflexivity.
  - exact H.
Defined.

End LearningMore.

Module AgentMore.
Import Arr DQNAgent Invariants Concrete.
Local Open Scope nat_scope.

(** ** Population sizing at construction *)

Lemma all_some_none_iff {A : Type} (l : list (option A)) :
  all_some l = None <-> In None l.
Proof.
  induction l as [|o l IH]; simpl.
  - split; [discriminate | contradiction].
  - destruct o as [x|].
    + destruct (all_some l) as [r|].
      * split; [discriminate|]. intros [H|H]; [discriminate|].
        apply IH in H. discriminate.
      * split; [intros _; right; apply IH; reflexivity | reflexivity].
    + split; [intros _; left; reflexivity | reflexivity].
Qed.

Lemma draw_keys_length (params : RlaxRainbowParams)
  (env : Env params.(use_distribution)) (n : nat) :
  forall g, length (fst (@draw_keys params env n g)) = n.
Proof.
  induction n as [|n IH]; intros g; [reflexivity|].
  simpl. destruct (next_key env g) as [k g'].
  specialize (IH g'). destruct (@draw_keys params env n g') as [ks g''].
  simpl in *. lia.
Qed.

Section Sizing.

Variable params : RlaxRainbowParams.
Variable env : Env params.(use_distribution).

(** [__init__] raises exactly when there is no learning rate, when a
    member has no buffer size, or, with prioritized replay, when a member
    has no priority exponent: the population has one member per learning
    rate, longer lists of buffer sizes or exponents are cut to it without an
    error, and without prioritized replay the exponents are never read. *)
Theorem init_raises_iff
  (obs_shape0 obs_shape1 num_values : nat) (buffersizes : list nat)
  (lrs alphas : list R) :
  init params env obs_shape0 obs_shape1 num_values buffersizes lrs alphas
  = None
  <-> (lrs = []
       \/ length buffersizes < length lrs
       \/ (params.(use_priority) = true /\ length alphas < length lrs)).
Proof.
  unfold init, num_unique_parallel.
  destruct (draw_keys _ _ _) as [rng_init g].
  rewrite !AgentProps.replicate_each_one, Nat.mul_1_l.
  destruct (length lrs =? 0) eqn:Hz.
  { apply Nat.eqb_eq in Hz. apply length_zero_iff_nil in Hz.
    split; [intros _; left; exact Hz | reflexivity]. }
  apply Nat.eqb_neq in Hz.
  assert (Hne : lrs <> []) by (intros ->; apply Hz; reflexivity).
  match goal with
  | |- match ?b with _ => _ end = _ <-> _ => destruct b as [buffers|] eqn:E
  end.
  - split; [discriminate|]. intros H. exfalso.
    destruct H as [H|H]; [contradiction|].
    assert (Hn : all_some
                   (map (fun i =>
                      if use_priority params
                      then match nth_error buffersizes i, nth_error alphas i with
                           | Some size, Some alpha =>
                               Some (new_priority_buffer env
                                       (obs_shape1 * history_size params)
                                       num_values 1 size alpha)
                           | _, _ => None
                           end
                      else match nth_error buffersizes i with
                           | Some size =>
                               Some (new_experience_buffer env
                                       (obs_shape1 * history_size params)
                                       num_values 1 size)
                           | None => None
                           end) (seq 0 (length lrs))) = None);
      [|rewrite Hn in E; discriminate].
    apply all_some_none_iff. apply in_map_iff.
    destruct H as [H|[Hp H]].
    + exists (length buffersizes). split; [|apply in_seq; lia].
      assert (Eb : nth_error buffersizes (length buffersizes) = None)
        by (apply nth_error_None; lia).
      rewrite Eb. destruct (use_priority params); reflexivity.
    + exists (length alphas). split; [|apply in_seq; lia].
      assert (Ea : nth_error alphas (length alphas) = None)
        by (apply nth_error_None; lia).
      rewrite Hp, Ea. destruct (nth_error buffersizes _); reflexivity.
  - split; [intros _|reflexivity]. right.
    apply all_some_none_iff in E. apply in_map_iff in E.
    destruct E as [i [Hi Hin]]. apply in_seq in Hin.
    destruct (use_priority params).
    + destruct (nth_error buffersizes i) eqn:Eb.
      * destruct (nth_error alphas i) eqn:Ea; [discriminate|].
        apply nth_error_None in Ea. right. split; [reflexivity | lia].
      * apply nth_error_None in Eb. left. lia.
    + destruct (nth_error buffersizes i) eqn:Eb; [discriminate|].
      apply nth_error_None in Eb. left. lia.
Qed.

End Sizing.

Lemma init_raises_iff_witness :
  init toy_params toy_env 1 1 1 [] [1%R] [1%R] = None
  /\ init toy_params toy_env 1 1 1 [10] [] [] = None.
Proof.
  split.
  - apply (proj2 (@init_raises_iff toy_params toy_env 1 1 1 [] [1%R] [1%R])).
    right. left. simpl. lia.
  - apply (proj2 (@init_raises_iff toy_params toy_env 1 1 1 [10] [] [])).
    left. reflexivity.
Defined.

(** ** The shape of the population is kept *)

Section Shape.

Variable params : RlaxRainbowParams.
Variable env : Env params.(use_distribution).

Lemma init_well_formed
  obs_shape0 obs_shape1 num_values buffersizes lrs alphas
  (a0 : Agent params env) :
  lrs <> [] ->
  init params env obs_shape0 obs_shape1 num_values buffersizes lrs alphas
  = Some a0 ->
  well_formed a0 /\ a0.(intermediate_tds) = [].
Proof.
  intros Hne. unfold init, num_unique_parallel.
  pose proof (@draw_keys_length params env (1 * length lrs)
                (prng_sequence env (seed params))) as Hk.
  destruct (draw_keys _ _ _) as [rng_init g]. simpl fst in Hk.
  destruct (1 * length lrs =? 0); [discriminate|].
  match goal with
  | |- match ?b with _ => _ end = _ -> _ => destruct b as [buffers|] eqn:E
  end; [|discriminate].
  intros H. injection H as <-.
  apply AgentProps.all_some_length in E.
  rewrite length_map, length_seq in E.
  unfold well_formed. cbn.
  rewrite AgentProps.replicate_each_one, !length_map, Hk.
  assert (0 < length lrs) by (destruct lrs; [congruence | simpl; lia]).
  repeat split; try lia; constructor.
Qed.

Lemma update_q_parallel_length (a : Agent params env) tr pr k1 k2 k3 :
  well_formed a ->
  length tr = a.(num_parallel) -> length pr = a.(num_parallel) ->
  length k1 = a.(num_parallel) -> length k2 = a.(num_parallel) ->
  length k3 = a.(num_parallel) ->
  length (update_q_parallel a tr pr k1 k2 k3) = a.(num_parallel).
Proof.
  intros [_ [H1 [H2 [H3 [H4 _]]]]] Ht Hp Hk1 Hk2 Hk3.
  unfold update_q_parallel. rewrite length_map, !length_combine. lia.
Qed.

Lemma update_well_formed (a : Agent params env) :
  params.(fixed_weights) = false ->
  0 < params.(target_update_period) ->
  well_formed a ->
  exists a',
    update a = Some a'
    /\ well_formed a'
    /\ a'.(num_parallel) = a.(num_parallel)
    /\ a'.(train_step) = a.(train_step) + 1
    /\ a'.(experience)
       = map (fun b => fst (sample_member params env b)) a.(experience)
    /\ (params.(use_priority) = true ->
        exists e_idx e_tds,
          a'.(intermediate_indices) = a.(intermediate_indices) ++ [e_idx]
          /\ a'.(intermediate_tds) = a.(intermediate_tds) ++ [e_tds])
    /\ (params.(use_priority) = false ->
        a'.(intermediate_indices) = a.(intermediate_indices)
        /\ a'.(intermediate_tds) = a.(intermediate_tds)).
Proof.
  intros Hfw Hp Hwf.
  pose proof Hwf as [Hn [H1 [H2 [H3 [H4 [H5 [H6 [H7 H8]]]]]]]].
  unfold update. rewrite Hfw.
  pose proof (@draw_keys_length params env (num_parallel a) (rng a)) as K1.
  destruct (draw_keys _ _ _) as [k1 g1]. simpl fst in K1.
  pose proof (@draw_keys_length params env (num_parallel a) g1) as K2.
  destruct (draw_keys _ _ _ g1) as [k2 g2]. simpl fst in K2.
  pose proof (@draw_keys_length params env (num_parallel a) g2) as K3.
  destruct (draw_keys _ _ _ g2) as [k3 g3]. simpl fst in K3.
  assert (E1 : (num_parallel a =? 0) = false) by (apply Nat.eqb_neq; lia).
  assert (E2 : (length (experience a) <? num_parallel a) = false)
    by (apply Nat.ltb_ge; lia).
  assert (E3 : (target_update_period params =? 0) = false)
    by (apply Nat.eqb_neq; lia).
  rewrite E1, E2, E3. cbn [orb].
  set (sampled := map (@sample_member params env)
                      (firstn (num_parallel a) (experience a))).
  assert (Hs : length sampled = num_parallel a).
  { unfold sampled. rewrite length_map, length_firstn. lia. }
  set (results := update_q_parallel a
                    (map (fun s => snd (snd s)) sampled)
                    (map (fun s => snd (fst (snd s))) sampled) k1 k2 k3).
  assert (Hr : length results = num_parallel a).
  { unfold results. apply update_q_parallel_length; try assumption;
      rewrite length_map; exact Hs. }
  eexists. split; [reflexivity|].
  split; [|split; [reflexivity|split; [reflexivity|split; [|split]]]].
  - unfold well_formed. cbn.
    rewrite length_app, length_skipn, !length_map, Hr, Hs.
    assert (Htrg : length (if train_step a mod target_update_period params =? 0
                           then map (fun r => fst (fst r)) results
                           else trg_params a) = num_parallel a).
    { destruct (train_step a mod target_update_period params =? 0);
        [|exact H3]. rewrite length_map. exact Hr. }
    split; [exact Hn|]. split; [exact H1|]. split; [reflexivity|].
    split; [exact Htrg|]. split; [reflexivity|]. split; [lia|].
    destruct (use_priority params).
    + rewrite !length_app. simpl length.
      repeat split; try lia.
      * apply Forall_app. split; [exact H7|].
        constructor; [rewrite length_map; exact Hs | constructor].
      * apply Forall_app. split; [exact H8|].
        constructor; [rewrite length_map; exact Hr | constructor].
    + repeat split; try lia; assumption.
  - cbn. unfold sampled. rewrite <- H5, firstn_all, skipn_all, app_nil_r.
    rewrite map_map. reflexivity.
  - cbn. intros Hpr. rewrite Hpr. do 2 eexists. split; reflexivity.
  - cbn. intros Hpr. rewrite Hpr. split; reflexivity.
Qed.

(** On a well-formed agent with more than two pending entries the
    write-back returns, keeps the agent well-formed and hands every buffer
    the rows of all entries but the last two. *)
Lemma update_prio_rows (a : Agent params env) :
  params.(use_priority) = true ->
  well_formed a ->
  2 < length a.(intermediate_tds) ->
  exists a',
    update_prio a = Some a'
    /\ well_formed a'
    /\ a'.(train_step) = a.(train_step)
    /\ a'.(intermediate_indices) = last_two a.(intermediate_indices)
    /\ a'.(intermediate_tds) = last_two a.(intermediate_tds)
    /\ forall i b,
        nth_error a.(experience) i = Some b ->
        nth_error a'.(experience) i
        = Some (env.(update_priorities) b
                  (concat (map (fun e => nth i e [])
                               (but_last_two a.(intermediate_indices))))
                  (concat (map (fun m => nth i m [])
                               (but_last_two a.(intermediate_tds))))).
Proof.
  intros Hp Hwf Hlen.
  pose proof Hwf as [Hn [H1 [H2 [H3 [H4 [He [Hq [Hi Ht]]]]]]]].
  unfold update_prio. rewrite Hp.
  assert (Hi' : Forall (fun e : list (list nat) =>
                          length e = length (repeat (@nil nat)
                                                    a.(num_parallel)))
                       (but_last_two a.(intermediate_indices))).
  { apply AgentProps.Forall_firstn. eapply Forall_impl; [|exact Hi].
    intros e H. simpl in H. rewrite repeat_length. exact H. }
  rewrite (@AgentProps.extend_all_stack _ _ _ Hi').
  destruct (@AgentProps.stack_rows _ _ _ Hi') as [Li Ni].
  destruct (but_last_two a.(intermediate_tds)) as [|m rest] eqn:Et.
  { exfalso. apply (f_equal (@length _)) in Et. unfold but_last_two in Et.
    rewrite length_firstn in Et. simpl in Et. lia. }
  assert (Ht' : Forall (fun e : list (list R) => length e = a.(num_parallel))
                       (m :: rest)).
  { rewrite <- Et. apply AgentProps.Forall_firstn. exact Ht. }
  inversion Ht' as [|? ? Hm Hrest]; subst.
  assert (Hrest' : Forall (fun e : list (list R) => length e = length m) rest).
  { eapply Forall_impl; [|exact Hrest]. intros e H. simpl in H. congruence. }
  rewrite (@AgentProps.hstack_stack _ _ _ Hrest').
  destruct (@AgentProps.stack_rows _ _ _ Hrest') as [Lt Nt].
  destruct (@AgentProps.write_priorities_rows params env
              (fold_left (fun acc m0 => map2 (@app nat) acc m0)
                         (but_last_two a.(intermediate_indices))
                         (repeat [] a.(num_parallel)))
              (fold_left (fun acc m' => map2 (@app R) acc m') rest m)
              a.(experience)) as [buffers [Hw [Lw Nw]]].
  { rewrite Li, repeat_length. lia. }
  { rewrite Lt. lia. }
  rewrite Hw. eexists. split; [reflexivity|].
  split; [|split; [reflexivity|split; [reflexivity|split; [reflexivity|]]]].
  - unfold well_formed. cbn.
    rewrite !AgentProps.last_two_length, Lw.
    repeat split; try assumption; try lia.
    + unfold last_two. apply Forall_forall. intros x Hx.
      rewrite Forall_forall in Hi. apply Hi.
      rewrite <- (firstn_skipn (length (intermediate_indices a) - 2)).
      apply in_or_app. right. exact Hx.
    + unfold last_two. apply Forall_forall. intros x Hx.
      rewrite Forall_forall in Ht. apply Ht.
      rewrite <- (firstn_skipn (length (intermediate_tds a) - 2)).
      apply in_or_app. right. exact Hx.
  - cbn [experience].
    intros i b Hb. rewrite (Nw i b Hb). f_equal. f_equal.
    + rewrite Ni, AgentProps.nth_repeat_nil. reflexivity.
    + rewrite Nt. reflexivity.
Qed.

Lemma add_experience_well_formed (a a' : Agent params env) o1 act r o2 t :
  well_formed a ->
  add_experience a o1 act r o2 t = Some a' ->
  well_formed a'.
Proof.
  intros Hwf. pose proof Hwf as [Hn [H1 [H2 [H3 [H4 [H5 [H6 [H7 H8]]]]]]]].
  unfold add_experience.
  destruct (num_parallel a =? 0); [discriminate|].
  destruct (length (experience a) <? num_parallel a); [discriminate|].
  intros H. injection H as <-.
  unfold well_formed. cbn.
  rewrite length_app, length_map, length_combine, length_seq, length_skipn.
  repeat split; try assumption; lia.
Qed.

Lemma with_history_well_formed (a : Agent params env) po pl g :
  well_formed a -> well_formed (with_rng (with_history a po pl) g).
Proof. intros H. exact H. Qed.

Lemma record_history_well_formed (a a' : Agent params env) o :
  well_formed a -> record_history a o = Some a' -> well_formed a'.
Proof.
  intros Hwf. unfold record_history.
  destruct (push_history _ _) as [po|]; [|discriminate].
  destruct (push_history _ _) as [pl|]; [|discriminate].
  intros H. injection H as <-. exact Hwf.
Qed.

Lemma explore_well_formed (a a' : Agent params env) o r :
  well_formed a -> explore a o = Some (r, a') -> well_formed a'.
Proof.
  intros Hwf. unfold explore.
  destruct (record_history a o) as [a1|] eqn:E; [|discriminate].
  pose proof (record_history_well_formed _ Hwf E) as Hw1.
  destruct (split_members a1 o) as [[ob lm]|]; [|discriminate].
  destruct (draw_keys _ _ _ _) as [k g].
  intros H. injection H as _ <-. exact Hw1.
Qed.

Lemma exploit_well_formed (a a' : Agent params env) o eval r :
  well_formed a -> exploit a o eval = Some (r, a') -> well_formed a'.
Proof.
  intros Hwf. unfold exploit.
  destruct (if eval then Some a else record_history a o) as [a1|] eqn:E;
    [|discriminate].
  assert (Hw1 : well_formed a1).
  { destruct eval.
    - injection E as <-. exact Hwf.
    - exact (record_history_well_formed _ Hwf E). }
  destruct (split_members a1 o) as [[ob lm]|]; [|discriminate].
  destruct (draw_keys _ _ _ _) as [k g].
  intros H. injection H as _ <-. exact Hw1.
Qed.

Lemma update_keeps_well_formed (a a' : Agent params env) :
  well_formed a -> update a = Some a' -> well_formed a'.
Proof.
  intros Hwf H.
  destruct (fixed_weights params) eqn:Hfw.
  - unfold update in H. rewrite Hfw in H. injection H as <-. exact Hwf.
  - destruct (Nat.eq_dec (target_update_period params) 0) as [Hz|Hz].
    + exfalso. unfold update in H. rewrite Hfw, Hz in H.
      destruct (draw_keys _ _ _ _) as [k1 g1].
      destruct (draw_keys _ _ _ g1) as [k2 g2].
      destruct (draw_keys _ _ _ g2) as [k3 g3].
      cbn [Nat.eqb] in H.
      destruct (_ || _); discriminate.
    + destruct (@update_well_formed a Hfw) as [a1 [Ha1 [Hw _]]];
        [lia | exact Hwf |].
      rewrite Ha1 in H. injection H as <-. exact Hw.
Qed.

Lemma update_prio_keeps_well_formed (a a' : Agent params env) :
  well_formed a -> update_prio a = Some a' -> well_formed a'.
Proof.
  intros Hwf H.
  destruct (use_priority params) eqn:Hp.
  - destruct (le_lt_dec (length (intermediate_tds a)) 2) as [Hs|Hl].
    + rewrite (@AgentProps.update_prio_short_queue params env a Hp Hs) in H.
      discriminate.
    + destruct (@update_prio_rows a Hp Hwf Hl) as [a1 [Ha1 [Hw _]]].
      rewrite Ha1 in H. injection H as <-. exact Hw.
  - unfold update_prio in H. rewrite Hp in H. injection H as <-. exact Hwf.
Qed.

Lemma step_well_formed (a a' : Agent params env) :
  well_formed a -> step a a' -> well_formed a'.
Proof.
  intros Hwf [o r H|o eval r H|o1 act r o2 t H|H|H].
  - exact (explore_well_formed _ Hwf H).
  - exact (exploit_well_formed _ _ Hwf H).
  - exact (add_experience_well_formed _ _ _ _ _ Hwf H).
  - exact (update_keeps_well_formed Hwf H).
  - exact (update_prio_keeps_well_formed Hwf H).
Qed.

Lemma step_num_parallel (a a' : Agent params env) :
  step a a' -> a'.(num_parallel) = a.(num_parallel).
Proof.
  intros [o r H|o eval r H|o1 act r o2 t H|H|H].
  - unfold explore, record_history in H.
    destruct (push_history _ _) as [po|]; [|discriminate].
    destruct (push_history _ _) as [pl|]; [|discriminate].
    destruct (split_members _ o) as [[ob lm]|]; [|discriminate].
    destruct (draw_keys _ _ _ _) as [k g].
    injection H as _ <-. reflexivity.
  - unfold exploit, record_history in H. destruct eval.
    + destruct (split_members _ o) as [[ob lm]|]; [|discriminate].
      destruct (draw_keys _ _ _ _) as [k g].
      injection H as _ <-. reflexivity.
    + destruct (push_history _ _) as [po|]; [|discriminate].
      destruct (push_history _ _) as [pl|]; [|discriminate].
      destruct (split_members _ o) as [[ob lm]|]; [|discriminate].
      destruct (draw_keys _ _ _ _) as [k g].
      injection H as _ <-. reflexivity.
  - unfold add_experience in H.
    destruct (num_parallel a =? 0); [discriminate|].
    destruct (length (experience a) <? num_parallel a); [discriminate|].
    injection H as <-. reflexivity.
  - unfold update in H. destruct (fixed_weights params).
    + injection H as <-. reflexivity.
    + destruct (draw_keys _ _ _ _) as [k1 g1].
      destruct (draw_keys _ _ _ g1) as [k2 g2].
      destruct (draw_keys _ _ _ g2) as [k3 g3].
      destruct (_ || _); [discriminate|].
      destruct (target_update_period params =? 0); [discriminate|].
      injection H as <-. reflexivity.
  - unfold update_prio in H. destruct (use_priority params).
    + destruct (extend_all _ _); [|discriminate].
      destruct (hstack _); [|discriminate].
      destruct (write_priorities _ _ _ _ _); [|discriminate].
      injection H as <-. reflexivity.
    + injection H as <-. reflexivity.
Qed.

(** Whatever sequence of [explore], [exploit], [add_experience], [update]
    and [update_prio] calls returns on an agent built by [__init__] from at
    least one learning rate, the agent stays well-formed: there is one
    member per learning rate, one learning rate, parameter set, target
    parameter set, optimizer state and buffer per member, and the two
    pending queues have the same length with one row per member in every
    entry. *)
Theorem well_formed_is_invariant
  obs_shape0 obs_shape1 num_values buffersizes lrs alphas
  (a0 a : Agent params env) :
  lrs <> [] ->
  init params env obs_shape0 obs_shape1 num_values buffersizes lrs alphas
  = Some a0 ->
  reachable a0 a ->
  well_formed a /\ a.(num_parallel) = length lrs.
Proof.
  intros Hne Hinit Hreach.
  induction Hreach as [|a a' Hreach [IHw IHn] Hstep].
  - split; [exact (proj1 (init_well_formed _ _ _ _ _ Hne Hinit))|].
    destruct (@AgentProps.init_fresh params env _ _ _ _ _ _ _ Hinit)
      as [_ [_ [_ [Hn _]]]].
    exact Hn.
  - split; [exact (step_well_formed IHw Hstep)|].
    rewrite (step_num_parallel Hstep). exact IHn.
Qed.


(** The steady state of the training pipeline. A well-formed agent with
    prioritized replay and exactly two pending entries goes through
    [update] and then [update_prio] without an error; the cycle leaves two
    pending entries again (the younger of the old ones and the new one), and
    writes into every member's buffer, after the sampling of this step, the
    indices and errors of the oldest pending entry only: priorities are
    written back two learning steps after they were computed. *)
Theorem cycle_steady_state (a : Agent params env)
  (old_idx mid_idx : list (list nat)) (old_tds mid_tds : list (list R)) :
  params.(use_priority) = true ->
  params.(fixed_weights) = false ->
  0 < params.(target_update_period) ->
  well_formed a ->
  a.(intermediate_indices) = [old_idx; mid_idx] ->
  a.(intermediate_tds) = [old_tds; mid_tds] ->
  exists a' new_idx new_tds,
    cycle a = Some a'
    /\ well_formed a'
    /\ a'.(train_step) = a.(train_step) + 1
    /\ a'.(intermediate_indices) = [mid_idx; new_idx]
    /\ a'.(intermediate_tds) = [mid_tds; new_tds]
    /\ forall i b,
        nth_error a.(experience) i = Some b ->
        nth_error a'.(experience) i
        = Some (env.(update_priorities)
                  (fst (env.(sample_batch) b params.(train_batch_size)))
                  (nth i old_idx []) (nth i old_tds [])).
Proof.
  intros Hp Hfw Hper Hwf Ei Et.
  destruct (update_well_formed Hfw Hper Hwf)
    as [a1 [Hu [Hw1 [Hn [Hts [Hex [Hq1 _]]]]]]].
  destruct (Hq1 Hp) as [new_idx [new_tds [Qi Qt]]].
  rewrite Ei in Qi. rewrite Et in Qt. simpl in Qi, Qt.
  destruct (@update_prio_rows a1 Hp Hw1) as [a2 [Hu2 [Hw2 [Hts2 [Fi [Ft Hrows]]]]]].
  { rewrite Qt. simpl. lia. }
  exists a2, new_idx, new_tds.
  split; [unfold cycle; rewrite Hu; exact Hu2|].
  split; [exact Hw2|]. split; [congruence|].
  split; [rewrite Fi, Qi; reflexivity|].
  split; [rewrite Ft, Qt; reflexivity|].
  intros i b Hb.
  rewrite (Hrows i (fst (sample_member params env b))).
  - rewrite Qi, Qt. unfold but_last_two. simpl. rewrite !app_nil_r.
    unfold sample_member. rewrite Hp. reflexivity.
  - rewrite Hex, nth_error_map, Hb. reflexivity.
Qed.

End Shape.

Lemma steady_agent_well_formed : well_formed steady_agent.
Proof.
  unfold well_formed, steady_agent. cbn.
  repeat split; try lia; repeat constructor.
Qed.

Lemma well_formed_is_invariant_witness :
  exists a0 a1,
    toy_agent = Some a0
    /\ update a0 = Some a1
    /\ well_formed a1
    /\ a1.(num_parallel) = 1.
Proof.
  unfold toy_agent, init. simpl.
  do 2 eexists. split; [reflexivity|]. split; [reflexivity|].
  eapply (@well_formed_is_invariant toy_params toy_env 1 1 1
            [10] [1%R] [1%R]).
  - discriminate.
  - unfold init. simpl. reflexivity.
  - eapply reach_step; [apply reach_here|].
    apply step_update. reflexivity.
Defined.


Lemma cycle_steady_state_witness :
  exists a',
    cycle steady_agent = Some a'
    /\ a'.(train_step) = 3
    /\ exists new_idx, a'.(intermediate_indices) = [[[7]]; new_idx].
Proof.
  destruct (@cycle_steady_state toy_params toy_env steady_agent
              [[5]] [[7]] [[(1 / 2)%R]] [[(1 / 3)%R]])
    as [a' [new_idx [new_tds [H1 [_ [H2 [H3 _]]]]]]].
  - reflexivity.
  - reflexivity.
  - simpl. lia.
  - exact steady_agent_well_formed.
  - reflexivity.
  - reflexivity.
  - exists a'. split; [exact H1|]. split; [exact H2|].
    exists new_idx. exact H3.
Defined.

End AgentMore.

(** ** The rule-based agent *)

Module RuleBasedProps.
Import RuleBased.
Local Open Scope nat_scope.

Lemma split_at {A : Type} (h : list A) (i : nat) (c : A) :
  nth_error h i = Some c -> h = firstn i h ++ c :: skipn (S i) h.
Proof.
  revert i. induction h as [|x h IH]; intros [|i] H; try discriminate.
  - injection H as ->. reflexivity.
  - simpl. f_equal. apply IH. exact H.
Qed.

Lemma increment_spec (h : list nat) (i : nat) :
  i < length h ->
  exists h',
    increment h i = Some h'
    /\ length h' = length h
    /\ list_sum h' = list_sum h + 1
    /\ forall j, nth j h' 0 = nth j h 0 + (if j =? i then 1 else 0).
Proof.
  intros Hi. unfold increment.
  destruct (nth_error h i) as [c|] eqn:E;
    [|apply nth_error_None in E; lia].
  eexists. split; [reflexivity|].
  pose proof (split_at _ _ E) as S.
  assert (Lf : length (firstn i h) = i) by (rewrite length_firstn; lia).
  split; [|split].
  - rewrite S at 3. rewrite !length_app. reflexivity.
  - rewrite S at 3. rewrite !list_sum_app. simpl. lia.
  - intros j. rewrite S at 3.
    destruct (Nat.lt_trichotomy j i) as [Hlt|[Heq|Hgt]].
    + rewrite !app_nth1 by lia.
      replace (j =? i) with false by (symmetry; apply Nat.eqb_neq; lia). lia.
    + subst j. rewrite !app_nth2 by lia. rewrite Lf, Nat.sub_diag.
      rewrite Nat.eqb_refl. reflexivity.
    + rewrite !app_nth2 by lia. rewrite Lf.
      replace (j =? i) with false by (symmetry; apply Nat.eqb_neq; lia).
      destruct (j - i) as [|k] eqn:K; [lia|]. simpl. lia.
Qed.

Section Agent.

Variables Observation Move Rand MoveVector : Type.
Variable current_player_offset : Observation -> Z.
Variable legal_random : Observation -> Rand -> option Move * Rand.
Variable empty_vector : MoveVector.
Variable append : MoveVector -> option Move -> option MoveVector.

Lemma first_rule_bound (rs : list (Observation -> option Move)) o :
  forall s i m, first_rule rs s o = Some (i, m) -> s <= i < s + length rs.
Proof.
  induction rs as [|rule rs IH]; intros s i m H; [discriminate|].
  simpl in H. destruct (rule o) as [action|].
  - injection H as <- <-. simpl. lia.
  - apply IH in H. simpl. lia.
Qed.

Lemma first_rule_app (before after : list (Observation -> option Move))
  (rule : Observation -> option Move) o m :
  Forall (fun r => r o = None) before -> rule o = Some m ->
  forall s,
    first_rule (before ++ rule :: after) s o = Some (s + length before, m).
Proof.
  intros Hb Hr. induction Hb as [|r before Hro _ IH]; intros s.
  - simpl. rewrite Hr. f_equal. f_equal. lia.
  - simpl. rewrite Hro, IH. f_equal. f_equal. lia.
Qed.

Lemma first_rule_none (rs : list (Observation -> option Move)) o :
  Forall (fun r => r o = None) rs -> forall s, first_rule rs s o = None.
Proof.
  intros H. induction H as [|r rs Hr _ IH]; intros s; [reflexivity|].
  simpl. rewrite Hr. apply IH.
Qed.

Lemma get_move_counts (a : RulebasedAgent Observation Move) o (g : Rand) :
  counts_consistent a ->
  exists m a' g',
    get_move current_player_offset legal_random a o g = Some (m, a', g')
    /\ counts_consistent a'
    /\ a'.(rules) = a.(rules)
    /\ a'.(totalCalls)
       = a.(totalCalls)
         + (if (current_player_offset o =? 0)%Z then 1 else 0).
Proof.
  intros [HL HS]. unfold get_move.
  destruct (current_player_offset o =? 0)%Z.
  - destruct (first_rule (rules a) 0 o) as [[index action]|] eqn:E.
    + apply first_rule_bound in E.
      destruct (@increment_spec (histogram a) index) as [h [Hh [Lh [Sh _]]]];
        [lia|].
      rewrite Hh. do 3 eexists. split; [reflexivity|].
      unfold counts_consistent. cbn [rules totalCalls histogram].
      repeat split; try reflexivity; lia.
    + destruct (@increment_spec (histogram a) (length (histogram a) - 1))
        as [h [Hh [Lh [Sh _]]]]; [lia|].
      rewrite Hh. destruct (legal_random o g) as [move g'].
      do 3 eexists. split; [reflexivity|].
      unfold counts_consistent. cbn [rules totalCalls histogram].
      repeat split; try reflexivity; lia.
  - do 3 eexists. split; [reflexivity|].
    split; [split; assumption|]. split; [reflexivity | lia].
Qed.

(** After [__init__] and any number of [get_move] calls the bookkeeping is
    consistent, and on consistent bookkeeping [get_move] never raises: the
    histogram keeps one bin per rule and one for the fallback, its bins add
    up to [totalCalls], and a call counts exactly when the observation is
    that of the player to move. *)
Theorem get_move_keeps_counts (a : RulebasedAgent Observation Move) o (g : Rand) :
  counts_consistent a ->
  exists m a' g',
    get_move current_player_offset legal_random a o g = Some (m, a', g')
    /\ counts_consistent a'
    /\ a'.(rules) = a.(rules)
    /\ a'.(totalCalls)
       = a.(totalCalls)
         + (if (current_player_offset o =? 0)%Z then 1 else 0).
Proof. exact (@get_move_counts a o g). Qed.

Lemma init_counts (rs : list (Observation -> option Move)) :
  counts_consistent (init rs).
Proof.
  unfold counts_consistent, init. cbn. rewrite repeat_length.
  split; [reflexivity|].
  induction (length rs + 1) as [|n IH]; [reflexivity | exact IH].
Qed.

Lemma explore_from_counts (observations : list Observation) :
  forall (a : RulebasedAgent Observation Move) (g : Rand) (actions : MoveVector),
    counts_consistent a ->
    (forall v a' g',
        explore_from current_player_offset legal_random append
                     a observations g actions = Some (v, a', g') ->
        counts_consistent a'
        /\ a'.(rules) = a.(rules)
        /\ a'.(totalCalls)
           = a.(totalCalls)
             + length (to_move current_player_offset observations))
    /\ ((forall v m, append v m <> None) ->
        explore_from current_player_offset legal_random append
                     a observations g actions <> None).
Proof.
  induction observations as [|o rest IH]; intros a g actions Hc.
  - split.
    + intros v a' g' H. simpl in H. injection H as _ <- _.
      split; [exact Hc|]. split; [reflexivity | simpl; lia].
    + intros _. discriminate.
  - destruct (@get_move_counts a o g Hc) as [m [a1 [g1 [Hm [Hc1 [Hr1 Ht1]]]]]].
    simpl explore_from. rewrite Hm. split.
    + intros v a' g' H.
      destruct (append actions m) as [actions'|]; [|discriminate].
      destruct (IH a1 g1 actions' Hc1) as [IH1 _].
      destruct (IH1 v a' g' H) as [Hc' [Hr' Ht']].
      split; [exact Hc'|]. split; [congruence|].
      rewrite Ht', Ht1. unfold to_move. simpl filter.
      destruct (current_player_offset o =? 0)%Z; simpl; lia.
    + intros Happ.
      destruct (append actions m) as [actions'|] eqn:Ea;
        [|exfalso; exact (Happ _ _ Ea)].
      destruct (IH a1 g1 actions' Hc1) as [_ IH2]. exact (IH2 Happ).
Qed.

(** [explore] on a freshly built agent: whenever it returns, [totalCalls]
    is the number of observations of the batch in which the agent is the
    player to move, the histogram bins add up to it, and the rules are
    untouched; it returns whenever the move vector refuses no value. *)
Theorem explore_counts_moves (rs : list (Observation -> option Move))
  (observations : list Observation) (g : Rand) :
  (forall v a' g',
      explore current_player_offset legal_random empty_vector append
              (init rs) observations g = Some (v, a', g') ->
      a'.(totalCalls) = length (to_move current_player_offset observations)
      /\ list_sum a'.(histogram) = a'.(totalCalls)
      /\ length a'.(histogram) = length rs + 1
      /\ a'.(rules) = rs)
  /\ ((forall v m, append v m <> None) ->
      explore current_player_offset legal_random empty_vector append
              (init rs) observations g <> None).
Proof.
  destruct (@explore_from_counts observations (init rs) g empty_vector
              (init_counts rs)) as [H1 H2].
  split; [|exact H2].
  intros v a' g' H. destruct (H1 v a' g' H) as [[HL HS] [Hr Ht]].
  simpl in Hr, Ht. rewrite Hr in HL. repeat split; assumption.
Qed.

(** The first rule that answers decides the move: when the agent is the
    player to move, the rules before position [i] return nothing and the
    rule at [i] returns [m], [get_move] returns [m], adds one to bin [i] and
    to no other bin, and leaves the random state untouched. *)
Theorem get_move_first_firing_rule (a : RulebasedAgent Observation Move) o (g : Rand)
  (before after : list (Observation -> option Move))
  (rule : Observation -> option Move) (m : Move) :
  current_player_offset o = 0%Z ->
  a.(rules) = before ++ rule :: after ->
  Forall (fun r => r o = None) before ->
  rule o = Some m ->
  length a.(histogram) = length a.(rules) + 1 ->
  exists a',
    get_move current_player_offset legal_random a o g = Some (Some m, a', g)
    /\ a'.(totalCalls) = a.(totalCalls) + 1
    /\ forall j,
        nth j a'.(histogram) 0
        = nth j a.(histogram) 0 + (if j =? length before then 1 else 0).
Proof.
  intros Ho Hr Hb Hm HL. unfold get_move. rewrite Ho. simpl Z.eqb.
  rewrite Hr, (@first_rule_app before after rule o m Hb Hm 0). simpl Nat.add.
  destruct (@increment_spec (histogram a) (length before))
    as [h [Hh [_ [_ Nh]]]].
  { rewrite HL, Hr, length_app. simpl. lia. }
  rewrite Hh. eexists. split; [reflexivity|]. split; [reflexivity|].
  exact Nh.
Qed.

(** The fallback: when the agent is the player to move and no rule answers,
    [get_move] returns what [Ruleset.legal_random] returns, advances the
    random state, and adds one to the last bin and to no other. *)
Theorem get_move_random_fallback (a : RulebasedAgent Observation Move) o (g : Rand) :
  current_player_offset o = 0%Z ->
  Forall (fun r => r o = None) a.(rules) ->
  length a.(histogram) = length a.(rules) + 1 ->
  exists a',
    get_move current_player_offset legal_random a o g
    = Some (fst (legal_random o g), a', snd (legal_random o g))
    /\ a'.(totalCalls) = a.(totalCalls) + 1
    /\ forall j,
        nth j a'.(histogram) 0
        = nth j a.(histogram) 0
          + (if j =? length a.(rules) then 1 else 0).
Proof.
  intros Ho Hn HL. unfold get_move. rewrite Ho. simpl Z.eqb.
  rewrite (@first_rule_none _ o Hn 0).
  destruct (@increment_spec (histogram a) (length (histogram a) - 1))
    as [h [Hh [_ [_ Nh]]]]; [lia|].
  rewrite Hh. destruct (legal_random o g) as [move g'].
  eexists. split; [reflexivity|]. split; [reflexivity|].
  intros j. rewrite Nh. replace (length (histogram a) - 1) with
    (length (rules a)) by lia. reflexivity.
Qed.

End Agent.

Lemma get_move_keeps_counts_witness :
  exists m a' g',
    get_move (fun o : Z => o) toy_legal_random (init toy_rules) 0%Z tt
    = Some (m, a', g')
    /\ a'.(totalCalls) = 1.
Proof.
  destruct (@get_move_keeps_counts Z nat unit (fun o => o) toy_legal_random
              (init toy_rules) 0%Z tt (init_counts toy_rules))
    as [m [a' [g' [H1 [_ [_ H2]]]]]].
  exists m, a', g'. split; [exact H1 | exact H2].
Defined.

Lemma explore_counts_moves_witness :
  exists v a' g',
    explore (fun o : Z => o) toy_legal_random [] toy_append
            (init toy_rules) [0; 1; 0]%Z tt = Some (v, a', g')
    /\ a'.(totalCalls) = 2.
Proof.
  pose proof (@explore_counts_moves Z nat unit (list (option nat))
                (fun o => o) toy_legal_random [] toy_append
                toy_rules [0; 1; 0]%Z tt) as [H _].
  do 3 eexists. split; [reflexivity|].
  exact (proj1 (H _ _ _ eq_refl)).
Defined.

Lemma get_move_first_firing_rule_witness :
  exists a',
    get_move (fun o : Z => o) toy_legal_random (init toy_rules) 0%Z tt
    = Some (Some 7, a', tt)
    /\ nth 1 a'.(histogram) 0 = 1.
Proof.
  destruct (@get_move_first_firing_rule Z nat unit (fun o => o)
              toy_legal_random (init toy_rules) 0%Z tt
              [fun _ => None] [fun _ => Some 9] (fun _ => Some 7) 7)
    as [a' [H1 [_ H2]]].
  - reflexivity.
  - reflexivity.
  - repeat constructor.
  - reflexivity.
  - reflexivity.
  - exists a'. split; [exact H1 | exact (H2 1)].
Defined.

Lemma get_move_random_fallback_witness :
  exists a',
    get_move (fun o : Z => o) toy_legal_random
             (init [fun _ : Z => @None nat]) 0%Z tt
    = Some (Some 0, a', tt)
    /\ nth 1 a'.(histogram) 0 = 1.
Proof.
  destruct (@get_move_random_fallback Z nat unit (fun o => o)
              toy_legal_random (init [fun _ : Z => @None nat]) 0%Z tt)
    as [a' [H1 [_ H2]]].
  - reflexivity.
  - repeat constructor.
  - reflexivity.
  - exists a'. split; [exact H1 | exact (H2 1)].
Defined.

End RuleBasedProps.

(** ** How a batch is split among the members *)

Module SplitProps.
Import Arr DQNAgent Concrete.
Local Open Scope nat_scope.

Lemma firstn_plus {A : Type} (n m : nat) (x : list A) :
  firstn (n + m) x = firstn n x ++ firstn m (skipn n x).
Proof.
  revert x. induction n as [|n IH]; intros x; [reflexivity|].
  destruct x as [|y x]; simpl.
  - rewrite firstn_nil. reflexivity.
  - rewrite IH. reflexivity.
Qed.

Lemma chunks_slices {A : Type} (p l : nat) :
  forall x : list A, chunks p l x = map (fun i => slice i l x) (seq 0 p).
Proof.
  induction p as [|p IH]; intros x; [reflexivity|].
  simpl chunks. simpl seq. simpl map. f_equal.
  rewrite IH, <- seq_shift, map_map. apply map_ext. intros i.
  unfold slice. rewrite skipn_skipn. f_equal. f_equal. simpl. lia.
Qed.

Lemma concat_chunks {A : Type} (p l : nat) :
  forall x : list A, concat (chunks p l x) = firstn (p * l) x.
Proof.
  induction p as [|p IH]; intros x; [reflexivity|].
  simpl chunks. simpl concat. rewrite IH.
  change (S p * l) with (l + p * l). rewrite firstn_plus. reflexivity.
Qed.

Lemma chunks_count {A : Type} (p l : nat) :
  forall x : list A, length (chunks p l x) = p.
Proof.
  induction p as [|p IH]; intros x; [reflexivity|].
  simpl. rewrite IH. reflexivity.
Qed.

Lemma chunks_lengths {A : Type} (p l : nat) :
  forall x : list A,
    p * l <= length x -> Forall (fun c => length c = l) (chunks p l x).
Proof.
  induction p as [|p IH]; intros x H; [constructor|].
  simpl chunks. constructor.
  - rewrite length_firstn. simpl in H. lia.
  - apply IH. rewrite length_skipn. simpl in H. lia.
Qed.

Lemma Forall_skipn {A : Type} (P : A -> Prop) (n : nat) (l : list A) :
  Forall P l -> Forall P (skipn n l).
Proof.
  intros H. apply Forall_forall. intros x Hx.
  rewrite Forall_forall in H. apply H.
  rewrite <- (firstn_skipn n l). apply in_or_app. right. exact Hx.
Qed.

Lemma chunks_Forall {A : Type} (P : A -> Prop) (p l : nat) :
  forall x : list A, Forall P x -> Forall (Forall P) (chunks p l x).
Proof.
  induction p as [|p IH]; intros x H; [constructor|].
  simpl chunks. constructor.
  - apply AgentProps.Forall_firstn. exact H.
  - apply IH. apply Forall_skipn. exact H.
Qed.

Lemma length_concat_rect {A : Type} (w : nat) (x : list (list A)) :
  Forall (fun row => length row = w) x -> length (concat x) = length x * w.
Proof.
  intros H. induction H as [|y x Hy _ IH]; [reflexivity|].
  simpl. rewrite length_app, IH, Hy. reflexivity.
Qed.

Lemma firstn_concat_rect {A : Type} (w l : nat) :
  forall x : list (list A),
    Forall (fun row => length row = w) x ->
    firstn (l * w) (concat x) = concat (firstn l x)
    /\ skipn (l * w) (concat x) = concat (skipn l x).
Proof.
  induction l as [|l IH]; intros x H; [split; reflexivity|].
  destruct x as [|y x].
  - simpl concat. rewrite firstn_nil, skipn_nil. split; reflexivity.
  - inversion H as [|? ? Hy Hx]; subst.
    destruct (IH x Hx) as [IH1 IH2].
    change (S l * length y) with (length y + l * length y).
    simpl concat. simpl firstn. simpl skipn.
    rewrite firstn_app, skipn_app.
    rewrite firstn_all2 by lia. rewrite skipn_all2 by lia.
    replace (length y + l * length y - length y) with (l * length y) by lia.
    rewrite IH1, IH2. split; reflexivity.
Qed.

Lemma chunks_concat_rect {A : Type} (w l p : nat) :
  forall x : list (list A),
    Forall (fun row => length row = w) x ->
    chunks p (l * w) (concat x) = map (@concat A) (chunks p l x).
Proof.
  induction p as [|p IH]; intros x H; [reflexivity|].
  simpl chunks. simpl map.
  destruct (@firstn_concat_rect A w l x H) as [E1 E2].
  rewrite E1, E2. f_equal. apply IH. apply Forall_skipn. exact H.
Qed.

Lemma chunks_rows {A : Type} (w : nat) (c : list (list A)) :
  Forall (fun row => length row = w) c ->
  chunks (length c) w (concat c) = c.
Proof.
  intros H. induction H as [|y c Hy _ IH]; [reflexivity|].
  simpl length. simpl concat. simpl chunks.
  rewrite firstn_app, skipn_app.
  rewrite firstn_all2 by lia. rewrite skipn_all2 by lia.
  replace (w - length y) with 0 by lia.
  simpl. rewrite app_nil_r, IH. reflexivity.
Qed.

Lemma nth_error_combine_seq {A : Type} (bs : list A) :
  forall p s i b,
    i < p -> nth_error bs i = Some b ->
    nth_error (combine (seq s p) bs) i = Some (s + i, b).
Proof.
  induction bs as [|x bs IH]; intros p s i b Hi Hb.
  - destruct i; discriminate.
  - destruct p as [|p]; [lia|]. destruct i as [|i]; simpl in *.
    + injection Hb as ->. rewrite Nat.add_0_r. reflexivity.
    + rewrite (IH p (S s) i b) by (try lia; exact Hb).
      f_equal. f_equal. lia.
Qed.

(** The reshape of a rectangular batch of [p * l] rows into [p] blocks of
    [l] rows keeps the rows and cuts the batch into consecutive blocks. *)
Lemma reshape3_rect {A : Type} (p l w : nat) (x : list (list A)) :
  0 < p -> 0 < l -> 0 < w ->
  length x = p * l ->
  Forall (fun row => length row = w) x ->
  reshape3 p l x = Some (chunks p l x).
Proof.
  intros Hp Hl Hw Hlen Hrect. unfold reshape3.
  rewrite (length_concat_rect Hrect), Hlen.
  assert (Hpl : p * l <> 0) by nia.
  replace (p * l =? 0) with false by (symmetry; apply Nat.eqb_neq; exact Hpl).
  rewrite (Nat.mul_comm (p * l) w), Nat.Div0.mod_mul, Nat.div_mul by exact Hpl.
  simpl Nat.eqb. cbv iota. f_equal.
  rewrite (chunks_concat_rect l p Hrect), map_map.
  rewrite <- (map_id (chunks p l x)) at 2.
  apply map_ext_in. intros c Hc.
  pose proof (@chunks_lengths _ p l x ltac:(lia)) as HL.
  pose proof (@chunks_Forall _ _ p l x Hrect) as HF.
  rewrite Forall_forall in HL, HF.
  rewrite <- (HL c Hc) at 1. apply chunks_rows. apply HF. exact Hc.
Qed.

Section Split.

Variable params : RlaxRainbowParams.
Variable env : Env params.(use_distribution).

(** [add_experience] cuts every array of the batch into consecutive blocks
    of [n // num_parallel] rows, [n] being the number of rows of the previous
    observations: member [i]'s buffer receives block [i] of each array, the
    buffers past the members are left alone, every block has the same
    length, and the blocks together are the first [n - n mod num_parallel]
    rows: the remaining rows are stored in no buffer. *)
Theorem add_experience_partition (a : Agent params env)
  (o1 : list (list R) * list (list bool)) (act : list (list nat))
  (r : list (list R)) (o2 : list (list R) * list (list bool))
  (t : list (list bool)) :
  0 < a.(num_parallel) ->
  a.(num_parallel) <= length a.(experience) ->
  exists a',
    add_experience a o1 act r o2 t = Some a'
    /\ (forall i b,
           nth_error a.(experience) i = Some b ->
           nth_error a'.(experience) i
           = Some (if i <? a.(num_parallel)
                   then
                     let l := length (fst o1) / a.(num_parallel) in
                     env.(add_transitions) b
                       (slice i l (fst o1)) (slice i l act) (slice i l r)
                       (slice i l (fst o2)) (slice i l (snd o2))
                       (slice i l t)
                   else b))
    /\ forall (A : Type) (x : list A),
        length x = length (fst o1) ->
        let l := length (fst o1) / a.(num_parallel) in
        Forall (fun c => length c = l)
               (map (fun i => slice i l x) (seq 0 a.(num_parallel)))
        /\ concat (map (fun i => slice i l x) (seq 0 a.(num_parallel)))
           = firstn (length x - length x mod a.(num_parallel)) x.
Proof.
  intros Hp Hb. unfold add_experience.
  replace (num_parallel a =? 0) with false
    by (symmetry; apply Nat.eqb_neq; lia).
  replace (length (experience a) <? num_parallel a) with false
    by (symmetry; apply Nat.ltb_ge; lia).
  eexists. split; [reflexivity|]. split.
  - intros i b Hi. cbn [experience with_experience].
    destruct (i <? num_parallel a) eqn:E.
    + apply Nat.ltb_lt in E.
      rewrite nth_error_app1
        by (rewrite length_map, length_combine, length_seq; lia).
      rewrite nth_error_map.
      pose proof (@nth_error_combine_seq _ (experience a) (num_parallel a)
                    0 i b E Hi) as Hc.
      simpl in Hc.
      rewrite Hc. reflexivity.
    + apply Nat.ltb_ge in E.
      rewrite nth_error_app2
        by (rewrite length_map, length_combine, length_seq; lia).
      rewrite length_map, length_combine, length_seq.
      replace (Nat.min (num_parallel a) (length (experience a)))
        with (num_parallel a) by lia.
      rewrite nth_error_skipn.
      replace (num_parallel a + (i - num_parallel a)) with i by lia.
      exact Hi.
  - intros A x Hx. cbv zeta. rewrite <- Hx.
    rewrite <- chunks_slices.
    pose proof (Nat.div_mod_eq (length x) (num_parallel a)) as D.
    split.
    + apply chunks_lengths. nia.
    + rewrite concat_chunks. f_equal. nia.
Qed.

Lemma split_members_rect (a : Agent params env)
  (o : list (list R) * list (list bool)) (l w v : nat) :
  0 < a.(num_parallel) -> 0 < l -> 0 < w -> 0 < v ->
  length (fst o) = a.(num_parallel) * l ->
  length (snd o) = a.(num_parallel) * l ->
  Forall (fun row => length row = w) (fst o) ->
  Forall (fun row => length row = v) (snd o) ->
  length (fst o) / a.(num_parallel) = l
  /\ split_members a o
     = Some (map (fun i => slice i l (fst o)) (seq 0 a.(num_parallel)),
             map (fun i => slice i l (snd o)) (seq 0 a.(num_parallel))).
Proof.
  intros Hp Hl Hw Hv H1 H2 R1 R2.
  assert (D : length (fst o) / num_parallel a = l).
  { rewrite H1, Nat.mul_comm. apply Nat.div_mul. lia. }
  split; [exact D|].
  unfold split_members.
  replace (num_parallel a =? 0) with false
    by (symmetry; apply Nat.eqb_neq; lia).
  rewrite D.
  rewrite (reshape3_rect Hp Hl Hw H1 R1), (reshape3_rect Hp Hl Hv H2 R2).
  rewrite !chunks_slices. reflexivity.
Qed.

(** [explore] and [exploit] split a batch the way [add_experience] does:
    for rectangular observations and masks of [num_parallel * l] rows, the
    observations and masks handed to member [i]'s network are block [i] of
    [l] consecutive rows, the rows [add_experience] files in buffer [i]. *)
Theorem split_members_blocks (a : Agent params env)
  (o : list (list R) * list (list bool)) (l w v : nat) :
  0 < a.(num_parallel) -> 0 < l -> 0 < w -> 0 < v ->
  length (fst o) = a.(num_parallel) * l ->
  length (snd o) = a.(num_parallel) * l ->
  Forall (fun row => length row = w) (fst o) ->
  Forall (fun row => length row = v) (snd o) ->
  length (fst o) / a.(num_parallel) = l
  /\ split_members a o
     = Some (map (fun i => slice i l (fst o)) (seq 0 a.(num_parallel)),
             map (fun i => slice i l (snd o)) (seq 0 a.(num_parallel))).
Proof. exact (@split_members_rect a o l w v). Qed.

End Split.

Lemma add_experience_partition_witness :
  exists a',
    add_experience Invariants.steady_agent
      ([[0%R]; [1%R]; [2%R]], [[true]; [true]; [true]])
      [[0]; [0]; [0]] [[0%R]; [0%R]; [0%R]]
      ([[1%R]; [2%R]; [3%R]], [[true]; [true]; [true]])
      [[false]; [false]; [true]] = Some a'
    /\ nth_error a'.(experience) 0 = Some tt.
Proof.
  destruct (@add_experience_partition toy_params toy_env
              Invariants.steady_agent
              ([[0%R]; [1%R]; [2%R]], [[true]; [true]; [true]])
              [[0]; [0]; [0]] [[0%R]; [0%R]; [0%R]]
              ([[1%R]; [2%R]; [3%R]], [[true]; [true]; [true]])
              [[false]; [false]; [true]])
    as [a' [H1 [H2 _]]].
  - simpl. lia.
  - simpl. lia.
  - exists a'. split; [exact H1 | exact (H2 0 tt eq_refl)].
Defined.

Lemma split_members_blocks_witness :
  split_members Invariants.steady_agent
    ([[0%R]; [1%R]], [[true]; [false]])
  = Some ([[[0%R]; [1%R]]], [[[true]; [false]]]).
Proof.
  destruct (@split_members_blocks toy_params toy_env
              Invariants.steady_agent
              ([[0%R]; [1%R]], [[true]; [false]]) 2 1 1)
    as [_ H].
  - simpl. lia.
  - lia.
  - lia.
  - lia.
  - reflexivity.
  - reflexivity.
  - repeat constructor.
  - repeat constructor.
  - exact H.
Defined.

End SplitProps.

(** ** The scalar TD errors *)

Module TDProps.
Import Arr DQNLearning TDErrors Weights Concrete.
Local Open Scope R_scope.

Lemma fold_Rmax_assoc (t : list R) :
  forall a b, fold_left Rmax t (Rmax a b) = Rmax a (fold_left Rmax t b).
Proof.
  induction t as [|z t IH]; intros a b; [reflexivity|].
  simpl. rewrite <- IH, Rmax_assoc. reflexivity.
Qed.

Lemma rmax_cons (x y : R) (t : list R) :
  rlax.rmax (x :: y :: t) = Rmax x (rlax.rmax (y :: t)).
Proof. simpl. apply fold_Rmax_assoc. Qed.

(** The entry at [argmax] is the maximum. *)
Lemma index_argmax (l : list R) :
  rlax.index 0 l (rlax.argmax l) = rlax.rmax l.
Proof.
  induction l as [|x t IH]; [reflexivity|].
  destruct t as [|y t']; [reflexivity|].
  rewrite rmax_cons.
  change (rlax.argmax (x :: y :: t'))
    with (if Rle_dec (rlax.rmax (y :: t')) x then 0%nat
          else S (rlax.argmax (y :: t'))).
  destruct (Rle_dec (rlax.rmax (y :: t')) x) as [H|H].
  - rewrite Rmax_left by exact H. reflexivity.
  - rewrite Rmax_right by lra. rewrite <- IH. reflexivity.
Qed.

Lemma samples_selector {Out : Type} (f : Sample Out Out -> R)
  (g : Sample Out unit -> R) :
  (forall o a r d o',
      f {| s_tm1 := o; s_a := a; s_r := r; s_discount := d; s_t := o';
           s_sel := o' |}
      = g {| s_tm1 := o; s_a := a; s_r := r; s_discount := d; s_t := o';
             s_sel := tt |}) ->
  forall q_t q_tm1 a_tm1 r_t discount_t,
    map f (samples q_tm1 a_tm1 r_t discount_t q_t q_t)
    = map g (samples q_tm1 a_tm1 r_t discount_t q_t
                     (map (fun _ => tt) q_t)).
Proof.
  intros H. induction q_t as [|o' q_t IH];
    intros [|o q_tm1] [|a a_tm1] [|r r_t] [|d discount_t];
    try reflexivity.
  simpl. rewrite H, IH. reflexivity.
Qed.

Section Scalar.

Variables Key Obs OptState : Type.
Variable net : list R -> Key -> Obs -> list (list R).
Variable grad : (list R -> R) -> list R -> list R.
Variable optimizer_update : list R -> OptState -> list R * OptState.
Variable categorical_l2_project : list R -> list R -> list R -> list R.
Variable categorical_cross_entropy : list R -> list R -> R.
Variables key_online key_target key_selector : Key.
Variable atoms : list (list R).

(** Double Q-learning coincides with plain Q-learning whenever the online
    network's output under the selector key equals the target network's
    output on the next observations: then the action the selector picks is
    an action of maximal target value. This is the case whenever the target
    parameters are the online parameters (after [__init__] and after each
    synchronisation) and the network does not use its key. *)
Theorem double_q_is_q_when_selector_is_target
  (online_params trg_params : list R) (obs_tm1 obs_t : Obs)
  (a_tm1 : list nat) (r_t : list R) (term_t : list (list bool))
  (discount_t : R) :
  net online_params key_selector obs_t = net trg_params key_target obs_t ->
  double_q_td key_online key_target key_selector online_params trg_params
              obs_tm1 obs_t a_tm1 r_t term_t discount_t net
  = q_td key_online key_target online_params trg_params
         obs_tm1 obs_t a_tm1 r_t term_t discount_t net.
Proof.
  intros H. unfold double_q_td, q_td. cbv zeta. rewrite H. f_equal.
  apply samples_selector. intros o a r d o'. cbn.
  unfold rlax.double_q_learning, rlax.q_learning,
    rlax.double_q_learning_target, rlax.q_learning_target.
  rewrite index_argmax. reflexivity.
Qed.

(** In scalar mode the new priorities [update_q] returns are the absolute
    TD errors of the batch: the square root undoes the squaring of the
    loss up to the sign. *)
Theorem scalar_priorities_are_absolute_td_errors
  (lr : R) (online_params trg_params : list R) (opt_state : OptState)
  (transitions : Transitions Obs) (discount_t : R) (prios : list R)
  (beta_is : R) (use_double_q : bool) :
  snd (update_q false net grad optimizer_update
         categorical_l2_project categorical_cross_entropy
         key_online key_target key_selector atoms
         lr online_params trg_params opt_state transitions discount_t
         prios beta_is use_double_q)
  = map Rabs
      (if use_double_q
       then double_q_td_errors net key_online key_target key_selector
              online_params trg_params
              transitions.(observation_tm1) transitions.(observation_t)
              (col0 0%nat transitions.(action_tm1))
              (col0 0 transitions.(reward_t))
              transitions.(terminal_t) discount_t
       else q_td_errors net key_online key_target
              online_params trg_params
              transitions.(observation_tm1) transitions.(observation_t)
              (col0 0%nat transitions.(action_tm1))
              (col0 0 transitions.(reward_t))
              transitions.(terminal_t) discount_t).
Proof.
  unfold update_q.
  destruct (optimizer_update _ opt_state) as [updates opt_state_t].
  cbn [snd]. unfold loss. cbn [snd]. unfold q_loss_td.
  assert (E : forall l, map sqrt (map (fun e => e ^ 2) l) = map Rabs l).
  { intros l. rewrite map_map. apply map_ext. intros e.
    replace (e ^ 2) with (Rsqr e) by (unfold Rsqr; ring).
    apply sqrt_Rsqr_abs. }
  destruct use_double_q.
  - unfold double_q_td, double_q_td_errors. cbv zeta. apply E.
  - unfold q_td, q_td_errors. cbv zeta. apply E.
Qed.

End Scalar.

Lemma double_q_is_q_when_selector_is_target_witness :
  double_q_td tt tt tt [0] [0] tt tt [0%nat] [1] [[false]] (99 / 100)
              (fun (_ : list R) (_ _ : unit) => [[3; 5]])
  = q_td tt tt [0] [0] tt tt [0%nat] [1] [[false]] (99 / 100)
         (fun (_ : list R) (_ _ : unit) => [[3; 5]]).
Proof.
  apply double_q_is_q_when_selector_is_target. reflexivity.
Defined.

End TDProps.

(** ** Replay without priorities, and the evaluation policy *)

Module ReplayProps.
Import Arr DQNPolicy DQNLearning DQNAgent Weights Greedy Concrete.
Local Open Scope R_scope.

Section Uniform.

Variable params : RlaxRainbowParams.
Variable env : Env params.(use_distribution).


End Uniform.

Lemma mask_picks_legal (lms : list (list bool)) (q : list (list R)) :
  Forall2 (fun (row : list bool) (x : list R) =>
             length x = length row /\ In true row) lms q ->
  forall actions,
    picks_maximum (mask lms q) actions ->
    Forall2 (fun (row : list bool) a => nth a row false = true) lms actions.
Proof.
  intros H. induction H as [|row x lms q [Hlen Hin] _ IH]; intros actions Hc.
  - inversion Hc. constructor.
  - unfold mask in Hc. rewrite PolicyProps.map2_cons in Hc.
    inversion Hc as [|? a ? rest [Ha Hm] Hrest]; subst.
    constructor; [|apply IH; exact Hrest].
    rewrite (@DistributionProps.mask_row_length row x Hlen) in Ha.
    destruct (@DistributionProps.mask_row_qmax row x Hlen Hin) as [m Em].
    rewrite (@DistributionProps.mask_row_nth row x a Hlen Ha), Em in Hm.
    destruct (nth a row false); [reflexivity | discriminate].
Qed.

(** [eval_policy] returns a legal action in every row that has one, for
    every sampler that returns an index holding the row's maximum: an
    illegal action is masked to minus infinity and a legal one is finite, so
    no illegal action holds the maximum. *)
Theorem eval_policy_returns_legal_actions
  (Key Params Obs : Type) (greedy_sample : Key -> list (list qval) -> list nat)
  (use_distribution : bool)
  (network : Params -> Key -> Obs -> NetOut use_distribution)
  (atoms : list (list R)) (net_params : Params) (key : Key) (obs : Obs)
  (lms : list (list bool)) :
  Forall2 (fun (row : list bool) (q : list R) =>
             length q = length row /\ In true row) lms
          (q_values use_distribution atoms (network net_params key obs)) ->
  picks_maximum
    (mask lms (q_values use_distribution atoms (network net_params key obs)))
    (greedy_sample key
       (mask lms
          (q_values use_distribution atoms (network net_params key obs)))) ->
  Forall2 (fun (row : list bool) a => nth a row false = true) lms
          (eval_policy greedy_sample use_distribution network atoms
                       net_params key obs lms).
Proof.
  intros Hshape Hpick. unfold eval_policy.
  exact (mask_picks_legal Hshape Hpick).
Qed.

Lemma eval_policy_returns_legal_actions_witness :
  Forall2 (fun (row : list bool) a => nth a row false = true)
          [[false; true]]
          (eval_policy greedy_first false (two_action_net 3 5) [] tt tt tt
                       [[false; true]]).
Proof.
  apply eval_policy_returns_legal_actions.
  - simpl. constructor; [|constructor]. split; [reflexivity | simpl; auto].
  - unfold picks_maximum. simpl. constructor; [|constructor].
    split; [simpl; lia | reflexivity].
Defined.


End ReplayProps.

(** ** Exploration end to end *)

Module ExploreProps.
Import Arr DQNPolicy DQNAgent Invariants Concrete.
Local Open Scope nat_scope.

Lemma Forall2_concat {A B : Type} (P : A -> B -> Prop)
  (xs : list (list A)) (ys : list (list B)) :
  Forall2 (Forall2 P) xs ys -> Forall2 P (concat xs) (concat ys).
Proof.
  intros H. induction H as [|x y xs ys Hxy _ IH]; [constructor|].
  simpl. apply Forall2_app; assumption.
Qed.

Lemma Forall2_combine4 {A B C D E : Type} (Rel : D -> E -> Prop)
  (g : A * (B * (C * D)) -> E) (PB : B -> Prop) (PC : C -> Prop)
  (PD : D -> Prop) :
  (forall a b c d, PB b -> PC c -> PD d -> Rel d (g (a, (b, (c, d))))) ->
  forall (ld : list D) (la : list A) (lb : list B) (lc : list C),
    length la = length ld -> length lb = length ld ->
    length lc = length ld ->
    Forall PB lb -> Forall PC lc -> Forall PD ld ->
    Forall2 Rel ld (map g (combine la (combine lb (combine lc ld)))).
Proof.
  intros H. induction ld as [|d ld IH];
    intros [|a la] [|b lb] [|c lc] Ha Hb Hc FB FC FD;
    try discriminate; [constructor|].
  inversion FB; subst. inversion FC; subst. inversion FD; subst.
  simpl. constructor; [apply H; assumption|].
  apply IH; simpl in *; try lia; assumption.
Qed.

Lemma Forall2_of_Forall {A B : Type} (P : A -> Prop) (Q : B -> Prop)
  (xs : list A) :
  forall ys : list B,
    length xs = length ys -> Forall P xs -> Forall Q ys ->
    Forall2 (fun x y => P x /\ Q y) xs ys.
Proof.
  induction xs as [|x xs IH]; intros [|y ys] Hl HP HQ; try discriminate;
    [constructor|].
  inversion HP; subst. inversion HQ; subst.
  constructor; [split; assumption|].
  apply IH; [simpl in Hl; lia | assumption | assumption].
Qed.

Section Explore.

Variable params : RlaxRainbowParams.
Variable env : Env params.(use_distribution).

Lemma record_history_fields (a a1 : Agent params env) o :
  record_history a o = Some a1 ->
  exists po pl, a1 = with_history a po pl.
Proof.
  unfold record_history.
  destruct (push_history _ _) as [po|]; [|discriminate].
  destruct (push_history _ _) as [pl|]; [|discriminate].
  intros H. injection H as <-. eauto.
Qed.

(** [explore] end to end. On a well-formed agent, for a rectangular batch
    of [num_parallel * l] observations that the history buffers accept, a
    network that returns one row of [v] action values per observation,
    masks with a legal action in every row, draws that are strictly
    positive, an epsilon between 0 and 1 and a positive temperature:
    [explore] returns one action per row of the batch, in the order of the
    batch, and every action is legal in its row. The network is only asked
    for its shape on blocks of [l] observations, and the draws only for the
    keys this call takes from the key stream and the [l] rows of a
    block. *)
Theorem explore_returns_legal_actions (a a1 : Agent params env)
  (o : list (list R) * list (list bool)) (l w v : nat) :
  well_formed a ->
  record_history a o = Some a1 ->
  0 < l -> 0 < w -> 0 < v ->
  length (fst o) = a.(num_parallel) * l ->
  length (snd o) = a.(num_parallel) * l ->
  Forall (fun row => length row = w) (fst o) ->
  Forall (fun row => length row = v) (snd o) ->
  Forall (fun row => In true row) (snd o) ->
  (forall net_params key obs,
      length obs = l ->
      let q := q_values params.(use_distribution) a.(atoms)
                        (env.(network_apply) net_params key obs) in
      length q = l /\ Forall (fun r => length r = v) q) ->
  (forall key i,
      In key (fst (draw_keys params env a.(num_parallel) a.(rng))) ->
      i < l ->
      (0 < env.(uniform) key (999 / 1000) i < 999 / 1000)%R) ->
  (0 <= params.(epsilon) a.(train_step) <= 1)%R ->
  (0 < params.(tau) a.(train_step))%R ->
  exists actions a',
    explore a o = Some (actions, a')
    /\ Forall2 (fun (row : list bool) act => nth act row false = true)
               (snd o) actions.
Proof.
  intros Hwf Hh Hl Hw Hv H1 H2 R1 R2 Hlegal Hnet Hu He Ht.
  pose proof Hwf as [Hp [_ [Hon _]]].
  destruct (@record_history_fields a a1 o Hh) as [po [pl Ea1]].
  unfold explore. rewrite Hh.
  assert (Hp1 : num_parallel a1 = num_parallel a) by (subst a1; reflexivity).
  destruct (@SplitProps.split_members_rect params env a1 o l w v)
    as [_ Hs]; try (rewrite Hp1); try assumption.
  rewrite Hs, Hp1.
  assert (Hrng : rng a1 = rng a) by (subst a1; reflexivity).
  rewrite Hrng.
  pose proof (@AgentMore.draw_keys_length params env (num_parallel a)
                (rng a)) as Hk.
  destruct (draw_keys params env (num_parallel a) (rng a)) as [keys g].
  simpl fst in Hk, Hu.
  do 2 eexists. split; [reflexivity|].
  rewrite map_map.
  assert (Hcat : snd o
                 = concat (map (fun i => slice i l (snd o))
                               (seq 0 (num_parallel a)))).
  { rewrite <- SplitProps.chunks_slices, SplitProps.concat_chunks.
    rewrite <- H2, firstn_all. reflexivity. }
  rewrite Hcat at 1. apply Forall2_concat.
  rewrite <- !SplitProps.chunks_slices.
  apply (@Forall2_combine4 _ _ _ _ _
           (Forall2 (fun (row : list bool) act => nth act row false = true))
           _
           (fun k : Key env =>
              forall i, i < l ->
                (0 < uniform env k (999 / 1000) i < 999 / 1000)%R)
           (fun c : list (list R) => length c = l)
           (fun d : list (list bool) =>
              length d = l
              /\ Forall (fun row => length row = v /\ In true row) d)).
  - intros theta k c d Hk' Hc [Hd Fd]. cbn beta iota.
    apply DistributionProps.policy_rows_legal_bounded.
    + intros i Hi. apply Hk'. lia.
    + subst a1. exact He.
    + subst a1. exact Ht.
    + subst a1. cbn [atoms with_history].
      destruct (Hnet theta k c Hc) as [Lq Fq].
      eapply Forall2_impl;
        [|apply (@Forall2_of_Forall _ _
                   (fun row : list bool => length row = v /\ In true row)
                   (fun r : list R => length r = v) d _);
          [lia | exact Fd | exact Fq]].
      intros row q [[Hr Hin] Hq]. split; [lia | exact Hin].
  - subst a1. cbn [online_params with_history].
    rewrite Hon, SplitProps.chunks_count. reflexivity.
  - rewrite Hk, SplitProps.chunks_count. reflexivity.
  - rewrite !SplitProps.chunks_count. reflexivity.
  - apply Forall_forall. intros k Hin i Hi. apply Hu; assumption.
  - apply SplitProps.chunks_lengths. lia.
  - assert (F : Forall (fun row : list bool => length row = v /\ In true row)
                       (snd o)).
    { rewrite Forall_forall in *. intros row Hr. split; auto. }
    pose proof (@SplitProps.chunks_lengths _ (num_parallel a) l (snd o)
                  ltac:(lia)) as CL.
    pose proof (@SplitProps.chunks_Forall _ _ (num_parallel a) l (snd o) F)
      as CF.
    rewrite Forall_forall in *. intros d Hd. split; auto.
Qed.

Lemma mask_rows_nonempty (d : list (list bool)) (q : list (list R)) :
  Forall2 (fun (row : list bool) (x : list R) =>
             length x = length row /\ In true row) d q ->
  Forall (fun r => r <> []) (mask d q).
Proof.
  intros H. induction H as [|row x d q [Hlen Hin] _ IH]; [constructor|].
  unfold mask. rewrite PolicyProps.map2_cons. constructor; [|exact IH].
  intros E. apply (f_equal (@length _)) in E.
  rewrite (@DistributionProps.mask_row_length row x Hlen) in E.
  destruct row; [contradiction | discriminate].
Qed.

(** [exploit] end to end, with or without the history update: under the
    same conditions on the batch and the network, and for a greedy sampler
    that returns an index holding the maximum of every non-empty row,
    [exploit] returns one action per row of the batch, in the order of the
    batch, and every action is legal in its row. *)
Theorem exploit_returns_legal_actions (a a1 : Agent params env)
  (o : list (list R) * list (list bool)) (eval : bool) (l w v : nat) :
  well_formed a ->
  (if eval then Some a else record_history a o) = Some a1 ->
  0 < l -> 0 < w -> 0 < v ->
  length (fst o) = a.(num_parallel) * l ->
  length (snd o) = a.(num_parallel) * l ->
  Forall (fun row => length row = w) (fst o) ->
  Forall (fun row => length row = v) (snd o) ->
  Forall (fun row => In true row) (snd o) ->
  (forall net_params key obs,
      length obs = l ->
      let q := q_values params.(use_distribution) a.(atoms)
                        (env.(network_apply) net_params key obs) in
      length q = l /\ Forall (fun r => length r = v) q) ->
  (forall key rows,
      Forall (fun r => r <> []) rows ->
      Greedy.picks_maximum rows (env.(greedy_sample) key rows)) ->
  exists actions a',
    exploit a o eval = Some (actions, a')
    /\ Forall2 (fun (row : list bool) act => nth act row false = true)
               (snd o) actions.
Proof.
  intros Hwf Hh Hl Hw Hv H1 H2 R1 R2 Hlegal Hnet Hgreedy.
  pose proof Hwf as [Hp [_ [Hon _]]].
  assert (Ea1 : exists po pl, a1 = with_history a po pl).
  { destruct eval.
    - injection Hh as <-. exists (past_obs a), (past_lms a).
      destruct a; reflexivity.
    - exact (@record_history_fields a a1 o Hh). }
  destruct Ea1 as [po [pl Ea1]].
  unfold exploit. rewrite Hh.
  assert (Hp1 : num_parallel a1 = num_parallel a) by (subst a1; reflexivity).
  destruct (@SplitProps.split_members_rect params env a1 o l w v)
    as [_ Hs]; try (rewrite Hp1); try assumption.
  rewrite Hs, Hp1.
  pose proof (@AgentMore.draw_keys_length params env (num_parallel a)
                (rng a1)) as Hk.
  destruct (draw_keys params env (num_parallel a) (rng a1)) as [keys g].
  simpl fst in Hk.
  do 2 eexists. split; [reflexivity|].
  assert (Hcat : snd o
                 = concat (map (fun i => slice i l (snd o))
                               (seq 0 (num_parallel a)))).
  { rewrite <- SplitProps.chunks_slices, SplitProps.concat_chunks.
    rewrite <- H2, firstn_all. reflexivity. }
  rewrite Hcat at 1. apply Forall2_concat.
  rewrite <- !SplitProps.chunks_slices.
  apply (@Forall2_combine4 _ _ _ _ _
           (Forall2 (fun (row : list bool) act => nth act row false = true))
           _
           (fun _ : Key env => True)
           (fun c : list (list R) => length c = l)
           (fun d : list (list bool) =>
              length d = l
              /\ Forall (fun row => length row = v /\ In true row) d)).
  - intros theta k c d _ Hc [Hd Fd]. cbn beta iota.
    subst a1. cbn [atoms with_history].
    destruct (Hnet theta k c Hc) as [Lq Fq].
    assert (Hshape : Forall2 (fun (row : list bool) (x : list R) =>
                                length x = length row /\ In true row) d
                       (q_values (use_distribution params) (atoms a)
                                 (network_apply env theta k c))).
    { eapply Forall2_impl;
        [|apply (@Forall2_of_Forall _ _
                   (fun row : list bool => length row = v /\ In true row)
                   (fun r : list R => length r = v) d _);
          [lia | exact Fd | exact Fq]].
      intros row q [[Hr Hin] Hq]. split; [lia | exact Hin]. }
    unfold eval_policy.
    apply (ReplayProps.mask_picks_legal Hshape).
    apply Hgreedy. apply mask_rows_nonempty. exact Hshape.
  - subst a1. cbn [online_params with_history].
    rewrite Hon, SplitProps.chunks_count. reflexivity.
  - rewrite Hk, SplitProps.chunks_count. reflexivity.
  - rewrite !SplitProps.chunks_count. reflexivity.
  - apply Forall_forall. intros k _. exact I.
  - apply SplitProps.chunks_lengths. lia.
  - assert (F : Forall (fun row : list bool => length row = v /\ In true row)
                       (snd o)).
    { rewrite Forall_forall in *. intros row Hr. split; auto. }
    pose proof (@SplitProps.chunks_lengths _ (num_parallel a) l (snd o)
                  ltac:(lia)) as CL.
    pose proof (@SplitProps.chunks_Forall _ _ (num_parallel a) l (snd o) F)
      as CF.
    rewrite Forall_forall in *. intros d Hd. split; auto.
Qed.

End Explore.

Lemma greedy_first_picks_maximum (key : unit) (rows : list (list qval)) :
  Forall (fun r => r <> []) rows ->
  Greedy.picks_maximum rows (greedy_first key rows).
Proof.
  intros H. unfold Greedy.picks_maximum, greedy_first.
  induction H as [|row rows Hne _ IH]; [constructor|].
  simpl. constructor; [|exact IH].
  split; [apply DistributionProps.qargmax_lt; exact Hne|].
  apply PolicyProps.qargmax_attains.
Qed.

Lemma exploit_returns_legal_actions_witness :
  exists actions a',
    exploit steady_agent ([[0%R]], [[true]]) true = Some (actions, a')
    /\ Forall2 (fun (row : list bool) act => nth act row false = true)
               [[true]] actions.
Proof.
  eapply (@exploit_returns_legal_actions toy_params toy_env steady_agent _
            ([[0%R]], [[true]]) true 1 1 1).
  - exact AgentMore.steady_agent_well_formed.
  - reflexivity.
  - lia.
  - lia.
  - lia.
  - reflexivity.
  - reflexivity.
  - repeat constructor.
  - repeat constructor.
  - repeat constructor.
  - intros net_params key obs _. simpl. split; [reflexivity|].
    repeat constructor.
  - intros key rows. exact (@greedy_first_picks_maximum key rows).
Defined.

Lemma pair_agent_well_formed : well_formed pair_agent.
Proof.
  unfold well_formed, pair_agent. cbn.
  repeat split; try lia; repeat constructor.
Qed.

Lemma explore_returns_legal_actions_witness :
  exists actions a',
    explore pair_agent
      ([[0%R]; [1%R]], [[false; true]; [true; false]])
    = Some (actions, a')
    /\ Forall2 (fun (row : list bool) act => nth act row false = true)
               [[false; true]; [true; false]] actions.
Proof.
  eapply (@explore_returns_legal_actions toy_params wide_env pair_agent _
            ([[0%R]; [1%R]], [[false; true]; [true; false]]) 1 1 2).
  - exact pair_agent_well_formed.
  - reflexivity.
  - lia.
  - lia.
  - lia.
  - reflexivity.
  - reflexivity.
  - repeat constructor.
  - repeat constructor.
  - constructor; [simpl; auto|]. constructor; [simpl; auto|]. constructor.
  - intros net_params key obs Hlen. simpl.
    split; [rewrite length_map; exact Hlen|].
    apply Forall_forall. intros r Hr. apply in_map_iff in Hr.
    destruct Hr as [x [<- _]]. reflexivity.
  - intros key i _ _. simpl. unfold half_draw. lra.
  - simpl. lra.
  - simpl. lra.
Defined.

End ExploreProps.

(** ** What the division by the number of atoms changes *)

Module AtomCountProps.
Import Arr DQNPolicy Distributions Concrete.
Local Open Scope R_scope.

Lemma map2_map_l {A A' B C : Type} (f : A' -> B -> C) (g : A -> A')
  (l : list A) :
  forall m : list B, map2 f (map g l) m = map2 (fun x y => f (g x) y) l m.
Proof.
  induction l as [|x l IH]; intros [|y m]; try reflexivity.
  simpl map. rewrite !PolicyProps.map2_cons, IH. reflexivity.
Qed.

Lemma qle_scale (c : R) (a b : qval) :
  0 < c -> qle (qdiv a c) (qdiv b c) = qle a b.
Proof.
  intros Hc. destruct a as [|x], b as [|y]; try reflexivity.
  simpl. pose proof (Rinv_0_lt_compat c Hc) as Hi.
  assert (Ex : x / c * c = x) by (field; lra).
  assert (Ey : y / c * c = y) by (field; lra).
  destruct (Rle_dec (x / c) (y / c)) as [H1|H1],
           (Rle_dec x y) as [H2|H2]; try reflexivity; exfalso.
  - apply H2. rewrite <- Ex, <- Ey.
    apply Rmult_le_compat_r; [lra | exact H1].
  - apply H1. unfold Rdiv. apply Rmult_le_compat_r; [lra | exact H2].
Qed.

Lemma qeqb_scale (c : R) (a b : qval) :
  0 < c -> qeqb (qdiv a c) (qdiv b c) = qeqb a b.
Proof.
  intros Hc. destruct a as [|x], b as [|y]; try reflexivity.
  simpl.
  assert (Ex : x / c * c = x) by (field; lra).
  assert (Ey : y / c * c = y) by (field; lra).
  destruct (Req_dec_T (x / c) (y / c)) as [H1|H1],
           (Req_dec_T x y) as [H2|H2]; try reflexivity; exfalso.
  - apply H2. rewrite <- Ex, <- Ey, H1. reflexivity.
  - apply H1. rewrite H2. reflexivity.
Qed.

Lemma qmax_scale (c : R) (r : list qval) :
  0 < c -> qmax (map (fun p => qdiv p c) r) = qdiv (qmax r) c.
Proof.
  intros Hc. induction r as [|x t IH]; [reflexivity|].
  simpl map.
  change (qmax2 (qdiv x c) (qmax (map (fun p => qdiv p c) t))
          = qdiv (qmax2 x (qmax t)) c).
  rewrite IH. unfold qmax2. rewrite (qle_scale x (qmax t) Hc).
  destruct (qle x (qmax t)); reflexivity.
Qed.

(** Dividing a row by a positive number moves no maximum. *)
Lemma argmax_row_scale (c : R) (r : list qval) :
  0 < c ->
  argmax_with_random_tie_breaking_row (map (fun p => qdiv p c) r)
  = argmax_with_random_tie_breaking_row r.
Proof.
  intros Hc.
  assert (E : map (fun p => b2r (qeqb p (qdiv (qmax r) c)))
                  (map (fun p => qdiv p c) r)
              = map (fun p => b2r (qeqb p (qmax r))) r).
  { rewrite map_map. apply map_ext. intros x.
    rewrite (qeqb_scale x (qmax r) Hc). reflexivity. }
  unfold argmax_with_random_tie_breaking_row. cbv zeta.
  rewrite (qmax_scale r Hc), E. reflexivity.
Qed.

Lemma qdiv_qdiv (p : qval) (c tau : R) :
  qdiv (qdiv p c) tau = qdiv p (tau * c).
Proof.
  destruct p as [|x]; [reflexivity|]. simpl. f_equal.
  unfold Rdiv. rewrite Rinv_mult. ring.
Qed.

(** Dividing a row by [c] before the Boltzmann distribution at temperature
    [tau] is the Boltzmann distribution at temperature [tau * c]. *)
Lemma boltzmann_row_scale (c tau : R) (r : list qval) (legal : list bool) :
  apply_legal_boltzmann_row (map (fun p => qdiv p c) r) tau legal
  = apply_legal_boltzmann_row r (tau * c) legal.
Proof.
  assert (E : map (fun p => qdiv p tau) (map (fun p => qdiv p c) r)
              = map (fun p => qdiv p (tau * c)) r)
    by (rewrite map_map; apply map_ext; intros x; apply qdiv_qdiv).
  unfold apply_legal_boltzmann_row. cbv zeta. rewrite E. reflexivity.
Qed.

Lemma mask_row_scale (c : R) (row : list bool) :
  forall e : list R,
    mask_row row (map (fun x => x / c) e)
    = map (fun p => qdiv p c) (mask_row row e).
Proof.
  unfold mask_row.
  induction row as [|b row IH]; intros [|x e]; try reflexivity.
  simpl map at 1. rewrite !PolicyProps.map2_cons, IH. simpl map.
  destruct b; reflexivity.
Qed.

Lemma mask_scale (c : R) (lms : list (list bool)) :
  forall q : list (list R),
    mask lms (map (map (fun x => x / c)) q)
    = map (map (fun p => qdiv p c)) (mask lms q).
Proof.
  unfold mask.
  induction lms as [|row lms IH]; intros [|e q]; try reflexivity.
  simpl map at 1. rewrite !PolicyProps.map2_cons, IH, mask_row_scale.
  reflexivity.
Qed.

Lemma q_row_scaled (n : nat) (per_action atoms : list (list R)) :
  Forall2 (fun l z : list R => length l = length z /\ length z = n)
          per_action atoms ->
  map2 (fun l z => mean (map2 Rmult (softmax l) z)) per_action atoms
  = map (fun e => e / INR n)
        (map2 (fun l z => expectation (softmax l) z) per_action atoms).
Proof.
  intros Hshape.
  induction Hshape as [|l z per_action atoms [Hl Hz] _ IH]; [reflexivity|].
  rewrite !PolicyProps.map2_cons. simpl map. rewrite IH.
  assert (E : mean (map2 Rmult (softmax l) z)
              = expectation (softmax l) z / INR n).
  { unfold mean, expectation.
    replace (length (map2 Rmult (softmax l) z)) with n; [reflexivity|].
    unfold map2, softmax.
    rewrite length_map, length_combine, length_map, Hl, Hz.
    symmetry. apply Nat.min_id. }
  rewrite E. reflexivity.
Qed.

(** On logits shaped like the atoms, [n] to an action, the q-values the
    policies compute are the expectations divided by [n]. *)
Lemma q_values_scaled (n : nat) (atoms : list (list R))
  (logits : list (list (list R))) :
  Forall (fun per_action =>
            Forall2 (fun l z : list R =>
                       length l = length z /\ length z = n)
                    per_action atoms) logits ->
  q_values true atoms logits
  = map (map (fun e => e / INR n)) (expected_values atoms logits).
Proof.
  intros H. unfold q_values, expected_values. rewrite map_map.
  apply map_ext_Forall. eapply Forall_impl; [|exact H].
  intros per_action Hshape. apply q_row_scaled. exact Hshape.
Qed.

Section Policy.

Variables Key Params Obs : Type.
Variable uniform : Key -> R -> nat -> R.
Variable network : Params -> Key -> Obs -> NetOut true.

(** The division by the number of atoms in the q-values of the
    distributional mode changes the temperature and nothing else. On logits
    shaped like the atoms, [n > 0] atoms to an action, the epsilon-greedy
    policy returns the actions it would return on the expectations
    themselves, for the same key and every epsilon; the Boltzmann policy at
    temperature [tau] returns the actions the expectations give at
    temperature [tau * n]. *)
Theorem atom_count_rescales_temperature_only
  (n : nat) (atoms : list (list R)) (net_params : Params)
  (epsilon tau : R) (key : Key) (obs : Obs) (lms : list (list bool)) :
  (0 < n)%nat ->
  Forall (fun per_action =>
            Forall2 (fun l z : list R =>
                       length l = length z /\ length z = n)
                    per_action atoms)
         (network net_params key obs) ->
  snd (policy uniform true network false atoms net_params
              epsilon tau key obs lms)
  = legal_epsilon_greedy_sample uniform epsilon key
      (mask lms (expected_values atoms (network net_params key obs))) lms
  /\ snd (policy uniform true network true atoms net_params
                 epsilon tau key obs lms)
     = legal_softmax_sample uniform (tau * INR n) key
         (mask lms (expected_values atoms (network net_params key obs)))
         lms.
Proof.
  intros Hn Hshape.
  assert (Hc : 0 < INR n) by (apply lt_0_INR; exact Hn).
  unfold policy. cbn [snd].
  rewrite (q_values_scaled Hshape), mask_scale.
  set (M := mask lms (expected_values atoms (network net_params key obs))).
  split.
  - unfold legal_epsilon_greedy_sample, _argmax_with_random_tie_breaking.
    rewrite map_map.
    assert (E : map (fun r => argmax_with_random_tie_breaking_row
                                (map (fun p => qdiv p (INR n)) r)) M
                = map argmax_with_random_tie_breaking_row M)
      by (apply map_ext; intros r; apply argmax_row_scale; exact Hc).
    rewrite E. reflexivity.
  - unfold legal_softmax_sample, _apply_legal_boltzmann.
    rewrite map2_map_l.
    assert (E : map2 (fun (r : list qval) (l : list bool) =>
                        apply_legal_boltzmann_row
                          (map (fun p => qdiv p (INR n)) r) tau l) M lms
                = map2 (fun r l =>
                          apply_legal_boltzmann_row r (tau * INR n) l) M lms).
    { unfold map2. apply map_ext. intros [r l]. apply boltzmann_row_scale. }
    rewrite E. reflexivity.
Qed.

End Policy.

Lemma atom_count_rescales_temperature_only_witness :
  snd (policy half_draw true two_atom_net true [[-1; 1]] tt
              (1 / 10) 1 tt tt [[true]])
  = legal_softmax_sample half_draw (1 * INR 2) tt
      (mask [[true]] (expected_values [[-1; 1]] [[[0; ln 2]]])) [[true]].
Proof.
  destruct (@atom_count_rescales_temperature_only unit unit unit half_draw
              two_atom_net 2 [[-1; 1]] tt (1 / 10) 1 tt tt [[true]])
    as [_ H].
  - lia.
  - unfold two_atom_net. repeat constructor.
  - exact H.
Defined.

End AtomCountProps.
